(** * Text search over a line buffer (vs/editor/common/model/textModelSearch.ts)

    A shallow embedding of [SearchParams], [Searcher] and [TextModelSearch].
    JavaScript numbers are [Z]; a string is the list of its UTF-16 code
    units; [NaN] (the value of [charCodeAt] outside the string) is [None]. *)

From Stdlib Require Import ZArith Lia Bool Ascii String.
From stdpp Require Import base tactics option list sorting.

Local Open Scope Z_scope.

(** ** JavaScript strings *)

Abbreviation jsstring := (list Z).

Fixpoint codes (s : string) : jsstring :=
  match s with
  | EmptyString => []
  | String c s' => Z.of_nat (nat_of_ascii c) :: codes s'
  end.

Definition len {A} (l : list A) : Z := Z.of_nat (length l).

Module CharCode.
Definition Tab : Z := 9.
Definition LineFeed : Z := 10.
Definition CarriageReturn : Z := 13.
Definition Space : Z := 32.
Definition Backslash : Z := 92.
Definition n : Z := 110.
Definition r : Z := 114.
End CharCode.

(** [s.charCodeAt(i)]: the code unit at [i], [NaN] outside the string. *)
Definition charCodeAt (s : jsstring) (i : Z) : option Z :=
  if i <? 0 then None else s !! Z.to_nat i.

(** [chCode === c] for a possibly-[NaN] [chCode]. *)
Definition code_is (ch : option Z) (c : Z) : bool :=
  match ch with
  | Some d => d =? c
  | None => false
  end.

Definition clamp (lo hi x : Z) : Z := Z.max lo (Z.min hi x).

(** [s.substring(a, b)]: both ends are clamped to the string and swapped
    when they come in the wrong order. *)
Definition substring (s : jsstring) (a b : Z) : jsstring :=
  let a' := clamp 0 (len s) a in
  let b' := clamp 0 (len s) b in
  let lo := Z.min a' b' in
  let hi := Z.max a' b' in
  take (Z.to_nat (hi - lo)) (drop (Z.to_nat lo) s).

(** [s.substring(a)] *)
Definition substring_from (s : jsstring) (a : Z) : jsstring :=
  substring s a (len s).

(** [p] occurs in [s] at the head. *)
Fixpoint starts_with (p s : jsstring) : bool :=
  match p, s with
  | [], _ => true
  | _ :: _, [] => false
  | c :: p', d :: s' => (c =? d) && starts_with p' s'
  end.

(** The first position of [s] at which [p] occurs, or [-1]; [k] is the
    position of the head of [s] in the whole string. *)
Fixpoint indexOf_scan (p s : jsstring) (k : Z) : Z :=
  if starts_with p s then k
  else match s with
       | [] => -1
       | _ :: s' => indexOf_scan p s' (k + 1)
       end.

(** [s.indexOf(p, position)]: the search starts at [position] clamped to
    the string. *)
Definition indexOf (s p : jsstring) (position : Z) : Z :=
  let k := clamp 0 (len s) position in
  indexOf_scan p (drop (Z.to_nat k) s) k.

(** ** Word classifier *)

Inductive WordCharacterClass := Regular | Whitespace | WordSeparator.

Definition WordCharacterClass_eqb (a b : WordCharacterClass) : bool :=
  match a, b with
  | Regular, Regular | Whitespace, Whitespace | WordSeparator, WordSeparator => true
  | _, _ => false
  end.

(** The classifier's [get]: the class of a char code (or of [NaN]). *)
Definition WordCharacterClassifier := option Z -> WordCharacterClass.

(** Modelled from the spec: [getMapForWordSeparators] of
    vs/editor/common/controller/wordCharacterClassifier is not part of the
    sources at hand.  The spec's word classifier maps a character to one of
    Regular, Whitespace and Separator given the configured separator
    characters: the separators are WordSeparator, space and tab are
    Whitespace, and everything else (also [NaN]) is Regular. *)
Definition getMapForWordSeparators (wordSeparators : jsstring) : WordCharacterClassifier :=
  fun ch =>
    match ch with
    | None => Regular
    | Some c =>
        if (c =? CharCode.Space) || (c =? CharCode.Tab) then Whitespace
        else if existsb (Z.eqb c) wordSeparators then WordSeparator
        else Regular
    end.

Definition not_regular (wordSeparators : WordCharacterClassifier) (ch : option Z) : bool :=
  negb (WordCharacterClass_eqb (wordSeparators ch) Regular).

Definition leftIsWordBounday (wordSeparators : WordCharacterClassifier)
    (text : jsstring) (textLength matchStartIndex matchLength : Z) : bool :=
  if matchStartIndex =? 0 then true
  else
    let charBefore := charCodeAt text (matchStartIndex - 1) in
    if not_regular wordSeparators charBefore then true
    else if (matchLength >? 0)
            && not_regular wordSeparators (charCodeAt text matchStartIndex)
    then true
    else false.

Definition rightIsWordBounday (wordSeparators : WordCharacterClassifier)
    (text : jsstring) (textLength matchStartIndex matchLength : Z) : bool :=
  if matchStartIndex + matchLength =? textLength then true
  else
    let charAfter := charCodeAt text (matchStartIndex + matchLength) in
    if not_regular wordSeparators charAfter then true
    else if (matchLength >? 0)
            && not_regular wordSeparators
                 (charCodeAt text (matchStartIndex + matchLength - 1))
    then true
    else false.

Definition isValidMatch (wordSeparators : WordCharacterClassifier)
    (text : jsstring) (textLength matchStartIndex matchLength : Z) : bool :=
  leftIsWordBounday wordSeparators text textLength matchStartIndex matchLength
  && rightIsWordBounday wordSeparators text textLength matchStartIndex matchLength.

(** ** The regular expression engine

    The engine is JavaScript's own, not code of the editor.  A compiled
    pattern is its matcher: one match attempt at one position of the subject
    string, giving the matched substring [m[0]] and the captured groups; a
    group that took no part in the match is [undefined], here [None].
    [exec] on a global expression follows ECMAScript's RegExpBuiltinExec:
    starting at [lastIndex] it tries position after position up to the end
    of the string; a success sets [lastIndex] to the end of the match, a
    failure resets it to 0. *)

Definition Matcher := jsstring -> Z -> option (jsstring * list (option jsstring)).

Record RegExp := {
  matcher : Matcher;
  multiline : bool;
  lastIndex : Z;
}.

Record RegExpExecArray := {
  index : Z;
  m0 : jsstring;
  groups : list (option jsstring);
}.

Definition set_lastIndex (re : RegExp) (i : Z) : RegExp :=
  {| matcher := matcher re; multiline := multiline re; lastIndex := i |}.

Fixpoint exec_scan (m : Matcher) (s : jsstring) (p : Z) (positions : nat)
    : option RegExpExecArray :=
  match positions with
  | O => None
  | S positions' =>
      match m s p with
      | Some (m0, gs) => Some {| index := p; m0 := m0; groups := gs |}
      | None => exec_scan m s (p + 1) positions'
      end
  end.

Definition RegExp_exec (re : RegExp) (s : jsstring) : option RegExpExecArray * RegExp :=
  let i := Z.max 0 (lastIndex re) in
  if i >? len s then (None, set_lastIndex re 0)
  else
    match exec_scan (matcher re) s i (Z.to_nat (len s - i + 1)) with
    | Some m => (Some m, set_lastIndex re (index m + len (m0 m)))
    | None => (None, set_lastIndex re 0)
    end.

(** ** Loops

    A [while] or [do ... while] loop of the source is its body, run by
    [loop] for at most [fuel] rounds: the body either goes on with a new
    state ([inl]) or leaves the loop with a result ([inr]).  [None] is an
    exhausted budget; each use below comes with a proof that its budget is
    never exhausted. *)

Fixpoint loop {S R : Type} (body : S -> S + R) (fuel : nat) (s : S) : option R :=
  match fuel with
  | O => None
  | S fuel' =>
      match body s with
      | inl s' => loop body fuel' s'
      | inr r => Some r
      end
  end.

(** Rounds granted to a scan of one string. *)
Definition scan_fuel (text : jsstring) : nat := (2 * length text + 4)%nat.

(** ** Searcher *)

Record Searcher := {
  _wordSeparators : option WordCharacterClassifier;
  _searchRegex : RegExp;
  _prevMatchStartIndex : Z;
  _prevMatchLength : Z;
}.

Definition new_Searcher (wordSeparators : option WordCharacterClassifier)
    (searchRegex : RegExp) : Searcher :=
  {| _wordSeparators := wordSeparators;
     _searchRegex := searchRegex;
     _prevMatchStartIndex := -1;
     _prevMatchLength := 0 |}.

Definition Searcher_reset (lastIndex : Z) (this : Searcher) : Searcher :=
  {| _wordSeparators := _wordSeparators this;
     _searchRegex := set_lastIndex (_searchRegex this) lastIndex;
     _prevMatchStartIndex := -1;
     _prevMatchLength := 0 |}.

Definition set_regex (this : Searcher) (re : RegExp) : Searcher :=
  {| _wordSeparators := _wordSeparators this;
     _searchRegex := re;
     _prevMatchStartIndex := _prevMatchStartIndex this;
     _prevMatchLength := _prevMatchLength this |}.

Definition set_prev (this : Searcher) (matchStartIndex matchLength : Z) : Searcher :=
  {| _wordSeparators := _wordSeparators this;
     _searchRegex := _searchRegex this;
     _prevMatchStartIndex := matchStartIndex;
     _prevMatchLength := matchLength |}.

(** [!wordSeparators || isValidMatch(wordSeparators, ...)] *)
Definition accepts (wordSeparators : option WordCharacterClassifier)
    (text : jsstring) (textLength matchStartIndex matchLength : Z) : bool :=
  match wordSeparators with
  | None => true
  | Some ws => isValidMatch ws text textLength matchStartIndex matchLength
  end.

(** One round of the [do ... while (m)] loop of [Searcher.next]. *)
Definition next_body (text : jsstring) (this : Searcher)
    : Searcher + (option RegExpExecArray * Searcher) :=
  let textLength := len text in
  if _prevMatchStartIndex this + _prevMatchLength this =? textLength then
    inr (None, this)
  else
    let '(m, re) := RegExp_exec (_searchRegex this) text in
    let this := set_regex this re in
    match m with
    | None => inr (None, this)
    | Some m =>
        let matchStartIndex := index m in
        let matchLength := len (m0 m) in
        if (matchStartIndex =? _prevMatchStartIndex this)
           && (matchLength =? _prevMatchLength this)
        then inr (None, this)
        else
          let this := set_prev this matchStartIndex matchLength in
          if accepts (_wordSeparators this) text textLength matchStartIndex matchLength
          then inr (Some m, this)
          else inl this
    end.

Definition Searcher_next (text : jsstring) (this : Searcher)
    : option RegExpExecArray * Searcher :=
  match loop (next_body text) (scan_fuel text) this with
  | Some r => r
  | None => (None, this)
  end.

(** ** Positions, ranges and matches *)

Record Position := { lineNumber : Z; column : Z }.

Record Range := {
  startLineNumber : Z;
  startColumn : Z;
  endLineNumber : Z;
  endColumn : Z;
}.

(** Modelled from the spec: the constructor of [Range]
    (vs/editor/common/core/range) is not part of the sources at hand.  A
    range is an ordered pair of positions, start before end by line and then
    column: the constructor swaps the ends when they come in the wrong
    order. *)
Definition new_Range (startLineNumber startColumn endLineNumber endColumn : Z) : Range :=
  if (startLineNumber >? endLineNumber)
     || ((startLineNumber =? endLineNumber) && (startColumn >? endColumn))
  then {| startLineNumber := endLineNumber; startColumn := endColumn;
          endLineNumber := startLineNumber; endColumn := startColumn |}
  else {| startLineNumber := startLineNumber; startColumn := startColumn;
          endLineNumber := endLineNumber; endColumn := endColumn |}.

Definition getStartPosition (r : Range) : Position :=
  {| lineNumber := startLineNumber r; column := startColumn r |}.

Definition getEndPosition (r : Range) : Position :=
  {| lineNumber := endLineNumber r; column := endColumn r |}.

(** A reported match: its range, and with captures the strings of the
    match, [null] otherwise.  An entry of [matches] is [undefined], here
    [None], for a group that took no part in the match. *)
Record FindMatch := {
  range : Range;
  matches : option (list (option jsstring));
}.

(** [createFindMatch] copies [rawMatches[0]], the whole match, and then
    every group, entry by entry. *)
Definition createFindMatch (range : Range) (rawMatches : RegExpExecArray)
    (captureMatches : bool) : FindMatch :=
  if negb captureMatches then {| range := range; matches := None |}
  else {| range := range; matches := Some (Some (m0 rawMatches) :: groups rawMatches) |}.

(** ** The text buffer *)

Inductive EndOfLine := LF | CRLF.

(** Modelled from the spec: [TextModel] (vs/editor/common/model/textModel)
    is not part of the sources at hand.  The spec's buffer is an ordered
    sequence of lines, numbered from 1, with one end-of-line marker, a line
    feed or a carriage return followed by a line feed, for the whole
    buffer. *)
Record TextModel := {
  lines : list jsstring;
  EOL : EndOfLine;
}.

Definition eolLength (model : TextModel) : Z :=
  match EOL model with LF => 1 | CRLF => 2 end.

Definition getLineCount (model : TextModel) : Z := len (lines model).

(** Modelled from the spec: the content of a line; the spec leaves a line
    number outside the buffer undefined, here it reads as the empty line. *)
Definition getLineContent (model : TextModel) (lineNumber : Z) : jsstring :=
  if lineNumber <? 1 then []
  else default [] (lines model !! Z.to_nat (lineNumber - 1)).

(** Modelled from the spec: 1 + the character count of the line. *)
Definition getLineMaxColumn (model : TextModel) (lineNumber : Z) : Z :=
  len (getLineContent model lineNumber) + 1.

Fixpoint offsetOfLine (eolLength : Z) (ls : list jsstring) (before : nat) : Z :=
  match before, ls with
  | S before', l :: ls' => len l + eolLength + offsetOfLine eolLength ls' before'
  | _, _ => 0
  end.

(** Modelled from the spec: the offset of a position, every line before it
    counted with the buffer's own end-of-line marker. *)
Definition getOffsetAt (model : TextModel) (position : Position) : Z :=
  offsetOfLine (eolLength model) (lines model) (Z.to_nat (lineNumber position - 1))
  + (column position - 1).

Fixpoint positionAt (eolLength : Z) (ls : list jsstring) (lineNumber offset : Z) : Position :=
  match ls with
  | [] => {| lineNumber := lineNumber; column := 1 |}
  | l :: ls' =>
      match ls' with
      | [] => {| lineNumber := lineNumber; column := Z.min (offset + 1) (len l + 1) |}
      | _ :: _ =>
          if offset <? len l + eolLength
          then {| lineNumber := lineNumber; column := Z.min (offset + 1) (len l + 1) |}
          else positionAt eolLength ls' (lineNumber + 1) (offset - (len l + eolLength))
      end
  end.

(** Modelled from the spec: the position of an offset, the inverse of
    [getOffsetAt]; an offset inside an end-of-line marker or past the end of
    the buffer is the end of its line. *)
Definition getPositionAt (model : TextModel) (offset : Z) : Position :=
  positionAt (eolLength model) (lines model) 1 (Z.max 0 offset).

Fixpoint join_LF (parts : list jsstring) : jsstring :=
  match parts with
  | [] => []
  | [l] => l
  | l :: parts' => l ++ CharCode.LineFeed :: join_LF parts'
  end.

(** The lines [from + 1 .. to - 1]. *)
Definition linesBetween (model : TextModel) (from to : Z) : list jsstring :=
  take (Z.to_nat (to - from - 1)) (drop (Z.to_nat from) (lines model)).

(** Modelled from the spec: [getValueInRange(range, EndOfLinePreference.LF)],
    the text of a range with every line break read as one line feed. *)
Definition getValueInRange_LF (model : TextModel) (range : Range) : jsstring :=
  if startLineNumber range =? endLineNumber range then
    substring (getLineContent model (startLineNumber range))
      (startColumn range - 1) (endColumn range - 1)
  else
    join_LF
      (substring_from (getLineContent model (startLineNumber range)) (startColumn range - 1)
       :: linesBetween model (startLineNumber range) (endLineNumber range)
       ++ [substring (getLineContent model (endLineNumber range)) 0 (endColumn range - 1)]).

(** ** Search parameters *)

Definition LIMIT_FIND_COUNT : Z := 999.

Record SearchParams := {
  searchString : jsstring;
  isRegex : bool;
  matchCase : bool;
  wordSeparators : jsstring;
}.

Record RegExpOptions := {
  opt_matchCase : bool;
  opt_wholeWord : bool;
  opt_multiline : bool;
  opt_global : bool;
}.

Module SearchData.
Record t := {
  regex : RegExp;
  wordSeparators : option WordCharacterClassifier;
  simpleSearch : option jsstring;
}.
End SearchData.

(** A string in a condition: the empty string is false. *)
Definition truthy (s : jsstring) : bool :=
  match s with [] => false | _ :: _ => true end.

(** The [for] loop of [_isMultilineRegexSource]; a round reads one
    character, or two after a backslash, so [length searchString] rounds
    reach the end of the string. *)
Fixpoint isMultilineRegexSource_for (rounds : nat) (searchString : jsstring)
    (len i : Z) : bool :=
  match rounds with
  | O => false
  | S rounds' =>
      if i <? len then
        let chCode := charCodeAt searchString i in
        if code_is chCode CharCode.Backslash then
          let i := i + 1 in
          if i >=? len then false
          else
            let nextChCode := charCodeAt searchString i in
            if code_is nextChCode CharCode.n || code_is nextChCode CharCode.r
            then true
            else isMultilineRegexSource_for rounds' searchString len (i + 1)
        else isMultilineRegexSource_for rounds' searchString len (i + 1)
      else false
  end.

Definition _isMultilineRegexSource (searchString : jsstring) : bool :=
  if negb (truthy searchString) || (len searchString =? 0) then false
  else isMultilineRegexSource_for (length searchString) searchString (len searchString) 0.

Section TextModelSearch.

(** The pattern compiler behind [strings.createRegExp]: the search string
    (escaped there when it is not a regular expression) handed to
    [new RegExp]; [None] when that throws. *)
Variable RegExp_compile : jsstring -> bool -> RegExpOptions -> option Matcher.

(** [String.prototype.toLowerCase] and [toUpperCase]. *)
Variables toLowerCase toUpperCase : jsstring -> jsstring.

(** Modelled from the spec: [strings.createRegExp] (vs/base/common/strings)
    is not part of the sources at hand.  The expression is compiled with
    global scanning, and it is in multiline mode exactly when the
    [multiline] option is set; a failure to compile gives no expression. *)
Definition createRegExp (searchString : jsstring) (isRegex : bool)
    (options : RegExpOptions) : option RegExp :=
  match RegExp_compile searchString isRegex options with
  | Some m => Some {| matcher := m; multiline := opt_multiline options; lastIndex := 0 |}
  | None => None
  end.

Definition parseSearchRequest (this : SearchParams) : option SearchData.t :=
  if negb (truthy (searchString this)) then None
  else
    let multiline :=
      if isRegex this then _isMultilineRegexSource (searchString this)
      else indexOf (searchString this) [CharCode.LineFeed] 0 >=? 0 in
    match createRegExp (searchString this) (isRegex this)
            {| opt_matchCase := matchCase this; opt_wholeWord := false;
               opt_multiline := multiline; opt_global := true |} with
    | None => None
    | Some regex =>
        let canUseSimpleSearch := negb (isRegex this) && negb multiline in
        let canUseSimpleSearch :=
          if canUseSimpleSearch
             && negb (bool_decide (toLowerCase (searchString this)
                                   = toUpperCase (searchString this)))
          then matchCase this
          else canUseSimpleSearch in
        Some {| SearchData.regex := regex;
                SearchData.wordSeparators :=
                  if truthy (wordSeparators this)
                  then Some (getMapForWordSeparators (wordSeparators this))
                  else None;
                SearchData.simpleSearch :=
                  if canUseSimpleSearch then Some (searchString this) else None |}
    end.

(** ** TextModelSearch *)

(** The two counting [for] loops of [_getMultilineMatchRange]: how many
    of the [rounds] characters from [i] on are line feeds. *)
Fixpoint lineFeedCount (rounds : nat) (text : jsstring) (i : Z) : Z :=
  match rounds with
  | O => 0
  | S rounds' =>
      (if code_is (charCodeAt text i) CharCode.LineFeed then 1 else 0)
      + lineFeedCount rounds' text (i + 1)
  end.

Definition multilineStartOffset (model : TextModel) (deltaOffset : Z)
    (text : jsstring) (matchIndex : Z) : Z :=
  match EOL model with
  | CRLF =>
      let lineFeedCountBeforeMatch := lineFeedCount (Z.to_nat matchIndex) text 0 in
      deltaOffset + matchIndex + lineFeedCountBeforeMatch
  | LF => deltaOffset + matchIndex
  end.

Definition multilineEndOffset (model : TextModel) (startOffset : Z)
    (text : jsstring) (matchIndex : Z) (match0 : jsstring) : Z :=
  match EOL model with
  | CRLF =>
      let lineFeedCountInMatch := lineFeedCount (length match0) text matchIndex in
      startOffset + len match0 + lineFeedCountInMatch
  | LF => startOffset + len match0
  end.

Definition _getMultilineMatchRange (model : TextModel) (deltaOffset : Z)
    (text : jsstring) (matchIndex : Z) (match0 : jsstring) : Range :=
  let startOffset := multilineStartOffset model deltaOffset text matchIndex in
  let endOffset := multilineEndOffset model startOffset text matchIndex match0 in
  let startPosition := getPositionAt model startOffset in
  let endPosition := getPositionAt model endOffset in
  new_Range (lineNumber startPosition) (column startPosition)
            (lineNumber endPosition) (column endPosition).

(** The [while ((m = searcher.next(text)))] loop of
    [_doFindMatchesMultiline]; [counter] is the length of [result]. *)
Definition multiline_body (model : TextModel) (deltaOffset : Z) (text : jsstring)
    (captureMatches : bool) (limitResultCount : Z)
    (st : Searcher * list FindMatch)
    : Searcher * list FindMatch + list FindMatch * Searcher :=
  let '(searcher, result) := st in
  let '(m, searcher) := Searcher_next text searcher in
  match m with
  | None => inr (result, searcher)
  | Some m =>
      let result :=
        result ++ [createFindMatch
                     (_getMultilineMatchRange model deltaOffset text (index m) (m0 m))
                     m captureMatches] in
      if len result >=? limitResultCount then inr (result, searcher)
      else inl (searcher, result)
  end.

Definition _doFindMatchesMultiline (model : TextModel) (searchRange : Range)
    (searcher : Searcher) (captureMatches : bool) (limitResultCount : Z)
    : list FindMatch * Searcher :=
  let deltaOffset := getOffsetAt model (getStartPosition searchRange) in
  let text := getValueInRange_LF model searchRange in
  let searcher := Searcher_reset 0 searcher in
  match loop (multiline_body model deltaOffset text captureMatches limitResultCount)
          (scan_fuel text) (searcher, []) with
  | Some r => r
  | None => ([], searcher)
  end.

(** The [while] loop of the literal search in [_findMatchesInLine];
    [resultLen] is the length of [result]. *)
Definition simple_body (wordSeparators : option WordCharacterClassifier)
    (text : jsstring) (textLength : Z) (searchString : jsstring) (searchStringLen : Z)
    (lineNumber deltaOffset limitResultCount : Z)
    (st : Z * list FindMatch) : Z * list FindMatch + list FindMatch :=
  let '(lastMatchIndex, result) := st in
  let lastMatchIndex := indexOf text searchString (lastMatchIndex + searchStringLen) in
  if lastMatchIndex =? -1 then inr result
  else if accepts wordSeparators text textLength lastMatchIndex searchStringLen then
    let result :=
      result ++ [{| range := new_Range lineNumber (lastMatchIndex + 1 + deltaOffset)
                               lineNumber (lastMatchIndex + 1 + searchStringLen + deltaOffset);
                    matches := None |}] in
    if len result >=? limitResultCount then inr result
    else inl (lastMatchIndex, result)
  else inl (lastMatchIndex, result).

(** The [do ... while (m)] loop of the regex search in [_findMatchesInLine]. *)
Definition regex_body (text : jsstring) (lineNumber deltaOffset : Z)
    (captureMatches : bool) (limitResultCount : Z)
    (st : Searcher * list FindMatch) : Searcher * list FindMatch + list FindMatch :=
  let '(searcher, result) := st in
  let '(m, searcher) := Searcher_next text searcher in
  match m with
  | Some m =>
      let result :=
        result ++ [createFindMatch
                     (new_Range lineNumber (index m + 1 + deltaOffset)
                        lineNumber (index m + 1 + len (m0 m) + deltaOffset))
                     m captureMatches] in
      if len result >=? limitResultCount then inr result
      else inl (searcher, result)
  | None => inr result
  end.

Definition simpleSearch_of (searchData : SearchData.t) : option jsstring :=
  match SearchData.simpleSearch searchData with
  | Some s => if truthy s then Some s else None
  | None => None
  end.

(** The source appends to the shared array [result] and returns its new
    length [resultLen]; here the new array is returned. *)
Definition _findMatchesInLine (searchData : SearchData.t) (text : jsstring)
    (lineNumber deltaOffset : Z) (result : list FindMatch)
    (captureMatches : bool) (limitResultCount : Z) : list FindMatch :=
  let wordSeparators := SearchData.wordSeparators searchData in
  match (if negb captureMatches then simpleSearch_of searchData else None) with
  | Some searchString =>
      let searchStringLen := len searchString in
      let textLength := len text in
      match loop (simple_body wordSeparators text textLength searchString searchStringLen
                    lineNumber deltaOffset limitResultCount)
              (scan_fuel text) (- searchStringLen, result) with
      | Some r => r
      | None => result
      end
  | None =>
      let searcher := new_Searcher (SearchData.wordSeparators searchData)
                        (SearchData.regex searchData) in
      let searcher := Searcher_reset 0 searcher in
      match loop (regex_body text lineNumber deltaOffset captureMatches limitResultCount)
              (scan_fuel text) (searcher, result) with
      | Some r => r
      | None => result
      end
  end.

(** The [for] loop over the middle lines in [_doFindMatchesLineByLine]. *)
Fixpoint middleLines (rounds : nat) (model : TextModel) (searchRange : Range)
    (searchData : SearchData.t) (captureMatches : bool) (limitResultCount : Z)
    (lineNumber : Z) (result : list FindMatch) : list FindMatch :=
  match rounds with
  | O => result
  | S rounds' =>
      if (lineNumber <? endLineNumber searchRange) && (len result <? limitResultCount)
      then
        middleLines rounds' model searchRange searchData captureMatches limitResultCount
          (lineNumber + 1)
          (_findMatchesInLine searchData (getLineContent model lineNumber) lineNumber 0
             result captureMatches limitResultCount)
      else result
  end.

Definition _doFindMatchesLineByLine (model : TextModel) (searchRange : Range)
    (searchData : SearchData.t) (captureMatches : bool) (limitResultCount : Z)
    : list FindMatch :=
  if startLineNumber searchRange =? endLineNumber searchRange then
    let text := substring (getLineContent model (startLineNumber searchRange))
                  (startColumn searchRange - 1) (endColumn searchRange - 1) in
    _findMatchesInLine searchData text (startLineNumber searchRange)
      (startColumn searchRange - 1) [] captureMatches limitResultCount
  else
    let text := substring_from (getLineContent model (startLineNumber searchRange))
                  (startColumn searchRange - 1) in
    let result :=
      _findMatchesInLine searchData text (startLineNumber searchRange)
        (startColumn searchRange - 1) [] captureMatches limitResultCount in
    let result :=
      middleLines (Z.to_nat (endLineNumber searchRange - startLineNumber searchRange - 1))
        model searchRange searchData captureMatches limitResultCount
        (startLineNumber searchRange + 1) result in
    if len result <? limitResultCount then
      let text := substring (getLineContent model (endLineNumber searchRange))
                    0 (endColumn searchRange - 1) in
      _findMatchesInLine searchData text (endLineNumber searchRange) 0 result
        captureMatches limitResultCount
    else result.

Definition findMatches (model : TextModel) (searchParams : SearchParams)
    (searchRange : Range) (captureMatches : bool) (limitResultCount : Z)
    : list FindMatch :=
  match parseSearchRequest searchParams with
  | None => []
  | Some searchData =>
      if multiline (SearchData.regex searchData) then
        fst (_doFindMatchesMultiline model searchRange
               (new_Searcher (SearchData.wordSeparators searchData)
                  (SearchData.regex searchData))
               captureMatches limitResultCount)
      else
        _doFindMatchesLineByLine model searchRange searchData captureMatches
          limitResultCount
  end.

Definition _findFirstMatchInLine (searcher : Searcher) (text : jsstring)
    (lineNumber fromColumn : Z) (captureMatches : bool)
    : option FindMatch * Searcher :=
  let searcher := Searcher_reset (fromColumn - 1) searcher in
  let '(m, searcher) := Searcher_next text searcher in
  match m with
  | Some m =>
      (Some (createFindMatch
               (new_Range lineNumber (index m + 1) lineNumber (index m + 1 + len (m0 m)))
               m captureMatches),
       searcher)
  | None => (None, searcher)
  end.

(** [_doFindNextMatchMultiline] calls itself to try again from the top;
    [depth] bounds the nesting of the calls, [None] is a call cut off. *)
Fixpoint _doFindNextMatchMultiline_rec (depth : nat) (model : TextModel)
    (searchStart : Position) (searcher : Searcher) (captureMatches : bool)
    : option (option FindMatch * Searcher) :=
  match depth with
  | O => None
  | S depth' =>
      let searchTextStart := {| lineNumber := lineNumber searchStart; column := 1 |} in
      let deltaOffset := getOffsetAt model searchTextStart in
      let lineCount := getLineCount model in
      let text :=
        getValueInRange_LF model
          (new_Range (lineNumber searchTextStart) (column searchTextStart)
             lineCount (getLineMaxColumn model lineCount)) in
      let searcher := Searcher_reset (column searchStart - 1) searcher in
      let '(m, searcher) := Searcher_next text searcher in
      match m with
      | Some m =>
          Some (Some (createFindMatch
                        (_getMultilineMatchRange model deltaOffset text (index m) (m0 m))
                        m captureMatches),
                searcher)
      | None =>
          if negb (lineNumber searchStart =? 1) || negb (column searchStart =? 1)
          then _doFindNextMatchMultiline_rec depth' model
                 {| lineNumber := 1; column := 1 |} searcher captureMatches
          else Some (None, searcher)
      end
  end.

Definition _doFindNextMatchMultiline (model : TextModel) (searchStart : Position)
    (searcher : Searcher) (captureMatches : bool) : option FindMatch :=
  match _doFindNextMatchMultiline_rec 2 model searchStart searcher captureMatches with
  | Some (r, _) => r
  | None => None
  end.

(** The [for (let i = 1; i <= lineCount; i++)] loop of
    [_doFindNextMatchLineByLine]; [%] is the remainder of JavaScript. *)
Fixpoint nextMatch_for (rounds : nat) (model : TextModel) (lineCount startLineNumber : Z)
    (captureMatches : bool) (i : Z) (searcher : Searcher) : option FindMatch :=
  match rounds with
  | O => None
  | S rounds' =>
      let lineIndex := Z.rem (startLineNumber + i - 1) lineCount in
      let text := getLineContent model (lineIndex + 1) in
      let '(r, searcher) :=
        _findFirstMatchInLine searcher text (lineIndex + 1) 1 captureMatches in
      match r with
      | Some r => Some r
      | None =>
          nextMatch_for rounds' model lineCount startLineNumber captureMatches
            (i + 1) searcher
      end
  end.

Definition _doFindNextMatchLineByLine (model : TextModel) (searchStart : Position)
    (searcher : Searcher) (captureMatches : bool) : option FindMatch :=
  let lineCount := getLineCount model in
  let startLineNumber := lineNumber searchStart in
  let text := getLineContent model startLineNumber in
  let '(r, searcher) :=
    _findFirstMatchInLine searcher text startLineNumber (column searchStart)
      captureMatches in
  match r with
  | Some r => Some r
  | None =>
      nextMatch_for (Z.to_nat lineCount) model lineCount startLineNumber
        captureMatches 1 searcher
  end.

Definition findNextMatch (model : TextModel) (searchParams : SearchParams)
    (searchStart : Position) (captureMatches : bool) : option FindMatch :=
  match parseSearchRequest searchParams with
  | None => None
  | Some searchData =>
      let searcher := new_Searcher (SearchData.wordSeparators searchData)
                        (SearchData.regex searchData) in
      if multiline (SearchData.regex searchData) then
        _doFindNextMatchMultiline model searchStart searcher captureMatches
      else
        _doFindNextMatchLineByLine model searchStart searcher captureMatches
  end.

(** [matches[matches.length - 1]] when [matches.length > 0]. *)
Definition lastMatch (matches : list FindMatch) : option FindMatch :=
  if len matches >? 0 then matches !! Z.to_nat (len matches - 1) else None.

(** [_doFindPreviousMatchMultiline] calls itself to try again with all
    content; [depth] bounds the nesting of the calls. *)
Fixpoint _doFindPreviousMatchMultiline_rec (depth : nat) (model : TextModel)
    (searchStart : Position) (searcher : Searcher) (captureMatches : bool)
    : option (option FindMatch * Searcher) :=
  match depth with
  | O => None
  | S depth' =>
      let '(matches, searcher) :=
        _doFindMatchesMultiline model
          (new_Range 1 1 (lineNumber searchStart) (column searchStart))
          searcher captureMatches (10 * LIMIT_FIND_COUNT) in
      match lastMatch matches with
      | Some r => Some (Some r, searcher)
      | None =>
          let lineCount := getLineCount model in
          if negb (lineNumber searchStart =? lineCount)
             || negb (column searchStart =? getLineMaxColumn model lineCount)
          then _doFindPreviousMatchMultiline_rec depth' model
                 {| lineNumber := lineCount;
                    column := getLineMaxColumn model lineCount |}
                 searcher captureMatches
          else Some (None, searcher)
      end
  end.

Definition _doFindPreviousMatchMultiline (model : TextModel) (searchStart : Position)
    (searcher : Searcher) (captureMatches : bool) : option FindMatch :=
  match _doFindPreviousMatchMultiline_rec 2 model searchStart searcher captureMatches with
  | Some (r, _) => r
  | None => None
  end.

(** The [while ((m = searcher.next(text)))] loop of [_findLastMatchInLine]. *)
Definition lastMatch_body (text : jsstring) (lineNumber : Z) (captureMatches : bool)
    (st : Searcher * option FindMatch)
    : Searcher * option FindMatch + option FindMatch * Searcher :=
  let '(searcher, bestResult) := st in
  let '(m, searcher) := Searcher_next text searcher in
  match m with
  | Some m =>
      inl (searcher,
           Some (createFindMatch
                   (new_Range lineNumber (index m + 1)
                      lineNumber (index m + 1 + len (m0 m)))
                   m captureMatches))
  | None => inr (bestResult, searcher)
  end.

Definition _findLastMatchInLine (searcher : Searcher) (text : jsstring)
    (lineNumber : Z) (captureMatches : bool) : option FindMatch * Searcher :=
  let searcher := Searcher_reset 0 searcher in
  match loop (lastMatch_body text lineNumber captureMatches) (scan_fuel text)
          (searcher, None) with
  | Some r => r
  | None => (None, searcher)
  end.

(** The [for (let i = 1; i <= lineCount; i++)] loop of
    [_doFindPreviousMatchLineByLine]. *)
Fixpoint previousMatch_for (rounds : nat) (model : TextModel)
    (lineCount startLineNumber : Z) (captureMatches : bool) (i : Z)
    (searcher : Searcher) : option FindMatch :=
  match rounds with
  | O => None
  | S rounds' =>
      let lineIndex := Z.rem (lineCount + startLineNumber - i - 1) lineCount in
      let text := getLineContent model (lineIndex + 1) in
      let '(r, searcher) :=
        _findLastMatchInLine searcher text (lineIndex + 1) captureMatches in
      match r with
      | Some r => Some r
      | None =>
          previousMatch_for rounds' model lineCount startLineNumber captureMatches
            (i + 1) searcher
      end
  end.

Definition _doFindPreviousMatchLineByLine (model : TextModel) (searchStart : Position)
    (searcher : Searcher) (captureMatches : bool) : option FindMatch :=
  let lineCount := getLineCount model in
  let startLineNumber := lineNumber searchStart in
  let text := substring (getLineContent model startLineNumber) 0
                (column searchStart - 1) in
  let '(r, searcher) := _findLastMatchInLine searcher text startLineNumber captureMatches in
  match r with
  | Some r => Some r
  | None =>
      previousMatch_for (Z.to_nat lineCount) model lineCount startLineNumber
        captureMatches 1 searcher
  end.

Definition findPreviousMatch (model : TextModel) (searchParams : SearchParams)
    (searchStart : Position) (captureMatches : bool) : option FindMatch :=
  match parseSearchRequest searchParams with
  | None => None
  | Some searchData =>
      let searcher := new_Searcher (SearchData.wordSeparators searchData)
                        (SearchData.regex searchData) in
      if multiline (SearchData.regex searchData) then
        _doFindPreviousMatchMultiline model searchStart searcher captureMatches
      else
        _doFindPreviousMatchLineByLine model searchStart searcher captureMatches
  end.


(** ** A small engine

  A pattern compiler for a fragment of the pattern language, to run the
  search on concrete buffers: literal text, and in a regular expression
  the escapes of line feed, carriage return, tab and punctuation.  Case is
  always significant; every other pattern is refused. *)

Definition literal_matcher (p : jsstring) : Matcher :=
  fun s i =>
    if (0 <=? i) && (i <=? len s) && starts_with p (drop (Z.to_nat i) s)
    then Some (p, [])
    else None.

Definition is_alnum (c : Z) : bool :=
  ((48 <=? c) && (c <=? 57)) || ((65 <=? c) && (c <=? 90)) || ((97 <=? c) && (c <=? 122)).

Definition is_meta (c : Z) : bool :=
  existsb (Z.eqb c) (codes ".*+?^${}()|[]").

Fixpoint unescape (source : jsstring) : option jsstring :=
  match source with
  | [] => Some []
  | c :: rest =>
      if c =? CharCode.Backslash then
        match rest with
        | [] => None
        | d :: rest' =>
            if d =? CharCode.n then cons CharCode.LineFeed <$> unescape rest'
            else if d =? CharCode.r then cons CharCode.CarriageReturn <$> unescape rest'
            else if d =? 116 then cons CharCode.Tab <$> unescape rest'
            else if is_alnum d then None
            else cons d <$> unescape rest'
        end
      else if is_meta c then None
      else cons c <$> unescape rest
  end.

Definition literal_compile (source : jsstring) (isRegex : bool) (options : RegExpOptions)
    : option Matcher :=
  if negb (opt_matchCase options) then None
  else if isRegex then literal_matcher <$> unescape source
  else Some (literal_matcher source).

Definition ascii_toLowerCase (s : jsstring) : jsstring :=
  map (fun c => if (65 <=? c) && (c <=? 90) then c + 32 else c) s.

Definition ascii_toUpperCase (s : jsstring) : jsstring :=
  map (fun c => if (97 <=? c) && (c <=? 122) then c - 32 else c) s.

(** ** Notions used by the proofs *)

(** The searcher has seen a match of this text and its expression stands
    at the end of that match. *)
Definition in_step (text : jsstring) (this : Searcher) : bool :=
  (lastIndex (_searchRegex this) =? _prevMatchStartIndex this + _prevMatchLength this)
  && (0 <=? _prevMatchStartIndex this)
  && (_prevMatchStartIndex this <=? len text)
  && (0 <=? _prevMatchLength this).

(** A bound on the matches the searcher can still see in this text. *)
Definition rank (text : jsstring) (this : Searcher) : nat :=
  Z.to_nat
    (if in_step text this
     then 2 * (len text - _prevMatchStartIndex this)
          + (if _prevMatchLength this =? 0 then 1 else 0)
     else 2 * len text + 2).

(** What a call of [Searcher.next] leaves: the classifier and the pattern
    are those of before, and a match returned is an accepted match of the
    pattern, at or after the position the expression stood at, now
    remembered by the searcher. *)
Definition next_post (text : jsstring) (this : Searcher)
    (r : option RegExpExecArray * Searcher) : Prop :=
  _wordSeparators (snd r) = _wordSeparators this
  /\ matcher (_searchRegex (snd r)) = matcher (_searchRegex this)
  /\ multiline (_searchRegex (snd r)) = multiline (_searchRegex this)
  /\ match fst r with
     | Some m =>
         in_step text (snd r) = true
         /\ (rank text (snd r) < rank text this)%nat
         /\ _prevMatchStartIndex (snd r) = index m
         /\ _prevMatchLength (snd r) = len (m0 m)
         /\ lastIndex (_searchRegex (snd r)) = index m + len (m0 m)
         /\ Z.max 0 (lastIndex (_searchRegex this)) <= index m <= len text
         /\ matcher (_searchRegex this) text (index m) = Some (m0 m, groups m)
         /\ accepts (_wordSeparators this) text (len text) (index m) (len (m0 m)) = true
     | None => True
     end.

(** ** The claims' own words *)

(** The character of [t] at index [k]. *)
Definition char_at (t : jsstring) (k : Z) (c : Z) : Prop :=
  0 <= k /\ t !! Z.to_nat k = Some c.

(** The left edge of a match at [i] of length [L] is a word boundary: the
    match starts the text, or the character before it is not Regular, or
    the match is not empty and its first character is not Regular. *)
Definition left_edge_is_boundary (ws : WordCharacterClassifier) (t : jsstring)
    (i L : Z) : Prop :=
  i = 0
  \/ (exists c, char_at t (i - 1) c /\ ws (Some c) <> Regular)
  \/ (L > 0 /\ exists c, char_at t i c /\ ws (Some c) <> Regular).

(** The right edge is a word boundary: the match ends the text, or the
    character after it is not Regular, or the match is not empty and its
    last character is not Regular. *)
Definition right_edge_is_boundary (ws : WordCharacterClassifier) (t : jsstring)
    (i L : Z) : Prop :=
  i + L = len t
  \/ (exists c, char_at t (i + L) c /\ ws (Some c) <> Regular)
  \/ (L > 0 /\ exists c, char_at t (i + L - 1) c /\ ws (Some c) <> Regular).

(** The number of consecutive backslashes that end just before index [i]. *)
Fixpoint backslashes_before (s : jsstring) (i : nat) : nat :=
  match i with
  | O => O
  | S j =>
      match s !! j with
      | Some c => if c =? CharCode.Backslash then S (backslashes_before s j) else O
      | None => O
      end
  end.

(** The backslash at [i] is not escaped: it is at an odd position (the
    first, the third, ...) of its run of consecutive backslashes. *)
Definition unescaped_backslash_at (s : jsstring) (i : nat) : Prop :=
  s !! i = Some CharCode.Backslash /\ Nat.Even (backslashes_before s i).

(** The pattern has the character [n] or [r] immediately after a
    backslash that is not escaped. *)
Definition has_line_break_escape (s : jsstring) : Prop :=
  exists i c, unescaped_backslash_at s i
              /\ s !! S i = Some c /\ (c = CharCode.n \/ c = CharCode.r).

(** Scanning one text: [next] called again and again until it returns
    null, at most [calls] times; the matches returned, or [None] when the
    last of the [calls] calls still returned a match. *)
Fixpoint scan_text (calls : nat) (text : jsstring) (this : Searcher)
    : option (list RegExpExecArray) :=
  match calls with
  | O => None
  | S calls' =>
      match Searcher_next text this with
      | (None, _) => Some []
      | (Some m, this') => cons m <$> scan_text calls' text this'
      end
  end.

(** The searcher after [calls] more calls of [next] on [text]. *)
Fixpoint after_calls (calls : nat) (text : jsstring) (this : Searcher) : Searcher :=
  match calls with
  | O => this
  | S calls' => after_calls calls' text (snd (Searcher_next text this))
  end.

(** The searcher after the round of [next] that took [m] from the engine. *)
Definition after_round (text : jsstring) (this : Searcher) : Searcher :=
  match next_body text this with
  | inl this' => this'
  | inr (_, this') => this'
  end.

(** The matcher of a compiled literal pattern [p]: an attempt at a
    position of a text succeeds exactly when [p] occurs there, and the
    matched substring is [p]. *)
Definition matches_literally (m : Matcher) (p : jsstring) : Prop :=
  forall t k, 0 <= k <= len t ->
    match m t k with
    | Some (a, _) => a = p /\ starts_with p (drop (Z.to_nat k) t) = true
    | None => starts_with p (drop (Z.to_nat k) t) = false
    end.

(** Exact substring scanning of [t], from left to right and without
    overlap: the indices at which [p] occurs, where an occurrence found
    makes the scan go on behind it.  [k] is the index of the head of [t]
    and [skip] the number of characters still covered by the occurrence
    found last. *)
Fixpoint occurrences (p t : jsstring) (k : Z) (skip : nat) : list Z :=
  match t with
  | [] => []
  | _ :: t' =>
      match skip with
      | S skip' => occurrences p t' (k + 1) skip'
      | O =>
          if starts_with p t then k :: occurrences p t' (k + 1) (length p - 1)
          else occurrences p t' (k + 1) O
      end
  end.

(** The range reported for an occurrence at index [k] of a line. *)
Definition occurrence_range (p : jsstring) (lineNumber deltaOffset k : Z) : Range :=
  new_Range lineNumber (k + 1 + deltaOffset)
    lineNumber (k + 1 + len p + deltaOffset).

(** The ranges of the occurrences of [p] in one scanned piece of a line. *)
Definition line_ranges (p t : jsstring) (lineNumber deltaOffset : Z) : list Range :=
  occurrence_range p lineNumber deltaOffset <$> occurrences p t 0 O.

(** The lines from [lineNumber] on, [count] of them, each as a whole. *)
Fixpoint whole_lines (count : nat) (model : TextModel) (lineNumber : Z)
    : list (Z * Z * jsstring) :=
  match count with
  | O => []
  | S count' =>
      (lineNumber, 0, getLineContent model lineNumber)
      :: whole_lines count' model (lineNumber + 1)
  end.

(** The pieces of lines a search range covers, each with its line number
    and the offset of its first character in the line: the part of the
    first line from the start column on, the lines in between, and the part
    of the last line before the end column. *)
Definition range_pieces (model : TextModel) (searchRange : Range)
    : list (Z * Z * jsstring) :=
  if startLineNumber searchRange =? endLineNumber searchRange then
    [(startLineNumber searchRange, startColumn searchRange - 1,
      substring (getLineContent model (startLineNumber searchRange))
        (startColumn searchRange - 1) (endColumn searchRange - 1))]
  else
    (startLineNumber searchRange, startColumn searchRange - 1,
     substring_from (getLineContent model (startLineNumber searchRange))
       (startColumn searchRange - 1))
    :: whole_lines
         (Z.to_nat (endLineNumber searchRange - startLineNumber searchRange - 1))
         model (startLineNumber searchRange + 1)
    ++ [(endLineNumber searchRange, 0,
         substring (getLineContent model (endLineNumber searchRange))
           0 (endColumn searchRange - 1))].

(** Exact substring scanning of a search range: the ranges of the
    occurrences of [p], piece after piece. *)
Definition scan_ranges (p : jsstring) (model : TextModel) (searchRange : Range)
    : list Range :=
  concat ((fun piece : Z * Z * jsstring =>
             line_ranges p (snd piece) (fst (fst piece)) (snd (fst piece)))
          <$> range_pieces model searchRange).

(** The groups the matcher captures at index [k] of [t]. *)
Definition groups_at (m : Matcher) (t : jsstring) (k : Z) : list (option jsstring) :=
  match m t k with
  | Some (_, gs) => gs
  | None => []
  end.

(** The match reported for an occurrence of [p] at index [k] of a piece. *)
Definition literal_match (m : Matcher) (p t : jsstring) (lineNumber deltaOffset : Z)
    (captureMatches : bool) (k : Z) : FindMatch :=
  createFindMatch (occurrence_range p lineNumber deltaOffset k)
    {| index := k; m0 := p; groups := groups_at m t k |} captureMatches.

Definition line_matches (m : Matcher) (p t : jsstring) (lineNumber deltaOffset : Z)
    (captureMatches : bool) : list FindMatch :=
  literal_match m p t lineNumber deltaOffset captureMatches <$> occurrences p t 0 O.

(** The matches in one piece of a search range: a line number, the offset
    of the piece in its line and the text of the piece. *)
Definition piece_matches (m : Matcher) (p : jsstring) (captureMatches : bool)
    (piece : Z * Z * jsstring) : list FindMatch :=
  line_matches m p (snd piece) (fst (fst piece)) (snd (fst piece)) captureMatches.

Definition scan_matches (m : Matcher) (p : jsstring) (model : TextModel)
    (searchRange : Range) (captureMatches : bool) : list FindMatch :=
  concat (piece_matches m p captureMatches <$> range_pieces model searchRange).

(** The compiled request without its literal search string: the search
    then goes through the regular expression. *)
Definition without_simpleSearch (searchData : SearchData.t) : SearchData.t :=
  {| SearchData.regex := SearchData.regex searchData;
     SearchData.wordSeparators := SearchData.wordSeparators searchData;
     SearchData.simpleSearch := None |}.

(** The searcher scans [t] for the literal pattern [p] without a
    classifier and stands at index [k], behind the match it remembers. *)
Definition at_index (p t : jsstring) (k : Z) (this : Searcher) : Prop :=
  _wordSeparators this = None
  /\ matches_literally (matcher (_searchRegex this)) p
  /\ lastIndex (_searchRegex this) = k
  /\ 0 <= k
  /\ _prevMatchStartIndex this < k
  /\ (_prevMatchStartIndex this + _prevMatchLength this = k
      \/ _prevMatchStartIndex this + _prevMatchLength this < 0).

(** The compiled request of a literal pattern [p] searched without a
    classifier, with the literal search string set or not. *)
Definition literal_request (searchData : SearchData.t) (p : jsstring) : Prop :=
  SearchData.wordSeparators searchData = None
  /\ matches_literally (matcher (SearchData.regex searchData)) p
  /\ (SearchData.simpleSearch searchData = Some p
      \/ SearchData.simpleSearch searchData = None).

(** The number of line feeds in a string. *)
Definition count_line_feeds (s : jsstring) : Z :=
  len (filter (fun c => c = CharCode.LineFeed) s).

(** The range of a match at index [idx] of the line-feed-joined [text] in
    a buffer that ends its lines with a carriage return and a line feed: the
    start offset takes one more character for every line feed before the
    match, the end offset one more for every line feed in the match. *)
Definition crlf_match_range (model : TextModel) (deltaOffset : Z) (text : jsstring)
    (idx : Z) (match0 : jsstring) : Range :=
  let startOffset :=
    deltaOffset + idx + count_line_feeds (take (Z.to_nat idx) text) in
  let endOffset :=
    startOffset + len match0
    + count_line_feeds (take (length match0) (drop (Z.to_nat idx) text)) in
  new_Range (lineNumber (getPositionAt model startOffset))
            (column (getPositionAt model startOffset))
            (lineNumber (getPositionAt model endOffset))
            (column (getPositionAt model endOffset)).

(** [found] is the report of a match of [m] in [text], the text read from
    offset [deltaOffset] of the buffer on, with the range of
    [crlf_match_range]. *)
Definition crlf_report (m : Matcher) (model : TextModel) (deltaOffset : Z)
    (text : jsstring) (found : FindMatch) : Prop :=
  exists idx match0 gs,
    0 <= idx <= len text
    /\ m text idx = Some (match0, gs)
    /\ range found = crlf_match_range model deltaOffset text idx match0.

(** The report of a match in the text of a range of the buffer. *)
Definition crlf_report_in (m : Matcher) (model : TextModel) (searchRange : Range)
    (found : FindMatch) : Prop :=
  crlf_report m model (getOffsetAt model (getStartPosition searchRange))
    (getValueInRange_LF model searchRange) found.

(** The range from the start of line [lineNumber] to the end of the buffer. *)
Definition rest_of_buffer (model : TextModel) (lineNumber : Z) : Range :=
  new_Range lineNumber 1 (getLineCount model)
    (getLineMaxColumn model (getLineCount model)).

(** The end of the buffer. *)
Definition end_of_buffer (model : TextModel) : Position :=
  {| lineNumber := getLineCount model;
     column := getLineMaxColumn model (getLineCount model) |}.

(** Two searchers that search with the same classifier and pattern. *)
Definition same_search (a b : Searcher) : Prop :=
  _wordSeparators a = _wordSeparators b
  /\ matcher (_searchRegex a) = matcher (_searchRegex b)
  /\ multiline (_searchRegex a) = multiline (_searchRegex b).

(** The first result among the candidates, in their order. *)
Fixpoint first_some {A B : Type} (f : A -> option B) (candidates : list A) : option B :=
  match candidates with
  | [] => None
  | x :: candidates' =>
      match f x with
      | Some y => Some y
      | None => first_some f candidates'
      end
  end.

(** The lines after line [start], cyclically: to the end of the buffer,
    then from its first line up to line [start] itself. *)
Definition lines_after_cyclically (lineCount start : Z) : list Z :=
  seqZ (start + 1) (lineCount - start) ++ seqZ 1 start.

(** The lines before line [start], cyclically and backward: down to the
    first line, then from the last line of the buffer down to line [start]
    itself. *)
Definition lines_before_cyclically (lineCount start : Z) : list Z :=
  reverse (seqZ 1 (start - 1)) ++ reverse (seqZ start (lineCount - start + 1)).

(** The first accepted match of line [lineNumber] at or after [fromColumn]. *)
Definition first_match_in_line (model : TextModel) (searcher : Searcher)
    (captureMatches : bool) (lineNumber fromColumn : Z) : option FindMatch :=
  fst (_findFirstMatchInLine searcher (getLineContent model lineNumber) lineNumber
         fromColumn captureMatches).

(** One pass of the multiline search forward: the first accepted match at
    or after [searchStart] in the text from the start of its line to the
    end of the buffer. *)
Definition multiline_pass (model : TextModel) (searcher : Searcher)
    (captureMatches : bool) (searchStart : Position) : option FindMatch :=
  let text := getValueInRange_LF model (rest_of_buffer model (lineNumber searchStart)) in
  match fst (Searcher_next text (Searcher_reset (column searchStart - 1) searcher)) with
  | Some m =>
      Some (createFindMatch
              (_getMultilineMatchRange model
                 (getOffsetAt model {| lineNumber := lineNumber searchStart; column := 1 |})
                 text (index m) (m0 m))
              m captureMatches)
  | None => None
  end.

Definition is_start_of_buffer (position : Position) : bool :=
  (lineNumber position =? 1) && (column position =? 1).

Definition is_end_of_buffer (model : TextModel) (position : Position) : bool :=
  (lineNumber position =? getLineCount model)
  && (column position =? getLineMaxColumn model (getLineCount model)).

(** The accepted matches of a text, scanned from its start: what [next]
    returns, call after call, until it returns null. *)
Definition line_scan (searcher : Searcher) (text : jsstring) : list RegExpExecArray :=
  default [] (scan_text (scan_fuel text) text (Searcher_reset 0 searcher)).

(** The match reported for [m] found in line [lineNumber]. *)
Definition match_in_line (lineNumber : Z) (captureMatches : bool) (m : RegExpExecArray)
    : FindMatch :=
  createFindMatch
    (new_Range lineNumber (index m + 1) lineNumber (index m + 1 + len (m0 m)))
    m captureMatches.

(** The rightmost accepted match of [text], taken as line [lineNumber]. *)
Definition last_match_in (searcher : Searcher) (captureMatches : bool)
    (lineNumber : Z) (text : jsstring) : option FindMatch :=
  last (match_in_line lineNumber captureMatches <$> line_scan searcher text).

(** Position [a] is at or before position [b]. *)
Definition position_le (a b : Position) : Prop :=
  lineNumber a < lineNumber b
  \/ (lineNumber a = lineNumber b /\ column a <= column b).


(** The matches of the pattern lie inside the text they are found in. *)
Definition matches_inside_text (m : Matcher) : Prop :=
  forall t i a gs, m t i = Some (a, gs) -> i + len a <= len t.

(** ** Sample buffers and queries *)

(** The buffer of the lines ["foo bar"] and ["bar foo"]. *)
Definition foo_bar_buffer : TextModel :=
  {| lines := [codes "foo bar"; codes "bar foo"]; EOL := LF |}.

(** The buffer ["a\r\nb"]: the lines ["a"] and ["b"], ended by CRLF. *)
Definition a_b_CRLF_buffer : TextModel :=
  {| lines := [codes "a"; codes "b"]; EOL := CRLF |}.

(** The buffer of the one line ["concatenate cat scatter"]. *)
Definition cat_buffer : TextModel :=
  {| lines := [codes "concatenate cat scatter"]; EOL := LF |}.

(** A literal, case-sensitive query. *)
Definition literal_query (pattern separators : string) : SearchParams :=
  {| searchString := codes pattern; isRegex := false; matchCase := true;
     wordSeparators := codes separators |}.

(** A regular expression, case-sensitive and without separators. *)
Definition regex_query (pattern : string) : SearchParams :=
  {| searchString := codes pattern; isRegex := true; matchCase := true;
     wordSeparators := [] |}.

Definition position (lineNumber column : Z) : Position :=
  {| lineNumber := lineNumber; column := column |}.

Definition plain_range (startLineNumber startColumn endLineNumber endColumn : Z) : Range :=
  {| startLineNumber := startLineNumber; startColumn := startColumn;
     endLineNumber := endLineNumber; endColumn := endColumn |}.

Definition plain_match (startLineNumber startColumn endLineNumber endColumn : Z)
    : FindMatch :=
  {| range := plain_range startLineNumber startColumn endLineNumber endColumn;
     matches := None |}.

(** A searcher for the empty pattern, which matches at every index with
    length zero. *)
Definition empty_pattern_searcher : Searcher :=
  new_Searcher None {| matcher := literal_matcher []; multiline := false; lastIndex := 0 |}.

(** A searcher for the literal pattern ["b"]. *)
Definition b_searcher : Searcher :=
  new_Searcher None
    {| matcher := literal_matcher (codes "b"); multiline := false; lastIndex := 0 |}.

(** The buffer of the lines ["bar foo"] and ["baz"]. *)
Definition one_match_buffer : TextModel :=
  {| lines := [codes "bar foo"; codes "baz"]; EOL := LF |}.

(** The compiled request of the literal [foo] on the small engine. *)
Definition foo_request : SearchData.t :=
  {| SearchData.regex :=
       {| matcher := literal_matcher (codes "foo"); multiline := false; lastIndex := 0 |};
     SearchData.wordSeparators := None;
     SearchData.simpleSearch := Some (codes "foo") |}.

(** The compiled request of the regular expression [a\nb] on the small
    engine: the literal of [a], a line feed and [b]. *)
Definition a_b_request : SearchData.t :=
  {| SearchData.regex :=
       {| matcher := literal_matcher [97; CharCode.LineFeed; 98];
          multiline := true; lastIndex := 0 |};
     SearchData.wordSeparators := None;
     SearchData.simpleSearch := None |}.

(** A buffer has at least one line, and no line contains a line feed. *)
Definition well_formed_buffer (model : TextModel) : Prop :=
  lines model <> []
  /\ Forall (fun l => ~ In CharCode.LineFeed l) (lines model).

(** A position of the buffer: on one of its lines, at one of its
    characters or right behind the last. *)
Definition valid_position (model : TextModel) (position : Position) : Prop :=
  1 <= lineNumber position <= getLineCount model
  /\ 1 <= column position <= getLineMaxColumn model (lineNumber position).

(** A range of the buffer, from a position to one at or behind it. *)
Definition valid_range (model : TextModel) (r : Range) : Prop :=
  valid_position model (getStartPosition r)
  /\ valid_position model (getEndPosition r)
  /\ position_le (getStartPosition r) (getEndPosition r).

(** The engine returns the matched substring as [m[0]]. *)
Definition returns_matched_text (m : Matcher) : Prop :=
  forall t i a gs,
    0 <= i -> m t i = Some (a, gs) ->
    i + len a <= len t /\ a = take (length a) (drop (Z.to_nat i) t).

(** The offset of a position in the text of the buffer joined by line
    feeds. *)
Definition lf_offset (model : TextModel) (position : Position) : Z :=
  offsetOfLine 1 (lines model) (Z.to_nat (lineNumber position - 1))
  + (column position - 1).

(** ** Notions of the further properties *)

(** A text the search runs the pattern on: the text of a range of the
    buffer joined by line feeds, or a stretch of one of its lines. *)
Definition searched_text (model : TextModel) (text : jsstring) : Prop :=
  (exists searchRange, text = getValueInRange_LF model searchRange)
  \/ (exists lineNumber a b, text = substring (getLineContent model lineNumber) a b).

(** A reported match carries the captured strings exactly when the search
    was asked to capture.  It then carries what the engine returned for a
    match of the pattern at an index of a text of the buffer: the whole
    match first and then the groups as the engine gave them, those that took
    no part in the match included.  Otherwise it carries nothing at all. *)
Definition captures_as (model : TextModel) (m : Matcher) (captureMatches : bool)
    (f : FindMatch) : Prop :=
  if captureMatches
  then exists text k a gs,
         searched_text model text
         /\ 0 <= k <= len text
         /\ m text k = Some (a, gs)
         /\ matches f = Some (Some a :: gs)
  else matches f = None.

(** The report of a match the searcher found in a piece of line
    [lineNumber] that starts [deltaOffset] characters into the line. *)
Definition regex_report (lineNumber deltaOffset : Z) (captureMatches : bool)
    (m : RegExpExecArray) : FindMatch :=
  createFindMatch
    (new_Range lineNumber (index m + 1 + deltaOffset)
       lineNumber (index m + 1 + len (m0 m) + deltaOffset))
    m captureMatches.

(** The report of an occurrence of the literal [p] at index [k] of such a
    piece. *)
Definition simple_report (p : jsstring) (lineNumber deltaOffset k : Z) : FindMatch :=
  {| range := new_Range lineNumber (k + 1 + deltaOffset)
                lineNumber (k + 1 + len p + deltaOffset);
     matches := None |}.

(** The report of a match the searcher found in the joined text of a
    range. *)
Definition multiline_report (model : TextModel) (deltaOffset : Z) (text : jsstring)
    (captureMatches : bool) (m : RegExpExecArray) : FindMatch :=
  createFindMatch (_getMultilineMatchRange model deltaOffset text (index m) (m0 m))
    m captureMatches.

(** The occurrences of the literal [p] in [text] that the classifier
    accepts. *)
Definition accepted_occurrences (wordSeparators : option WordCharacterClassifier)
    (p text : jsstring) (from : Z) : list Z :=
  filter (fun k => accepts wordSeparators text (len text) k (len p) = true)
    (occurrences p (drop (Z.to_nat from) text) from O).

(** Everything the search of one piece of a line reports when no limit
    stops it: the accepted occurrences of the literal search string, or the
    matches the searcher returns call after call. *)
Definition piece_reports (searchData : SearchData.t) (captureMatches : bool)
    (piece : Z * Z * jsstring) : list FindMatch :=
  let lineNumber := fst (fst piece) in
  let deltaOffset := snd (fst piece) in
  let text := snd piece in
  match (if negb captureMatches then simpleSearch_of searchData else None) with
  | Some p =>
      simple_report p lineNumber deltaOffset
      <$> accepted_occurrences (SearchData.wordSeparators searchData) p text 0
  | None =>
      regex_report lineNumber deltaOffset captureMatches
      <$> line_scan (new_Searcher (SearchData.wordSeparators searchData)
                       (SearchData.regex searchData)) text
  end.

(** Everything the multiline search of a range reports when no limit stops
    it. *)
Definition multiline_reports (model : TextModel) (searchRange : Range)
    (searcher : Searcher) (captureMatches : bool) : list FindMatch :=
  multiline_report model (getOffsetAt model (getStartPosition searchRange))
    (getValueInRange_LF model searchRange) captureMatches
  <$> line_scan searcher (getValueInRange_LF model searchRange).

(** Match [m1] lies before match [m2]: it ends at or before the start of
    [m2] and starts before it. *)
Definition match_before (m1 m2 : RegExpExecArray) : Prop :=
  index m1 + len (m0 m1) <= index m2 /\ index m1 < index m2.

(** The range of [L] characters from index [k] of a piece of a line; a
    piece is its line number, the offset of its first character in the line
    and its text. *)
Definition span_in_piece (piece : Z * Z * jsstring) (k L : Z) : Range :=
  plain_range (fst (fst piece)) (k + 1 + snd (fst piece))
    (fst (fst piece)) (k + 1 + L + snd (fst piece)).

(** [f] reports something the search found in the piece: at an index [k]
    of its text, a match [a] of the regular expression (when the search
    captures or has no literal search string) or an occurrence of the
    literal search string [a], accepted by the classifier, with the range of
    [a] in the line, and with the strings captured when the search
    captures. *)
Definition found_in_piece (searchData : SearchData.t) (captureMatches : bool)
    (piece : Z * Z * jsstring) (f : FindMatch) : Prop :=
  exists k a,
    0 <= k <= len (snd piece)
    /\ range f = span_in_piece piece k (len a)
    /\ accepts (SearchData.wordSeparators searchData) (snd piece) (len (snd piece))
         k (len a) = true
    /\ ((exists gs,
            matcher (SearchData.regex searchData) (snd piece) k = Some (a, gs)
            /\ matches f = (if captureMatches then Some (Some a :: gs) else None)
            /\ (captureMatches = true \/ simpleSearch_of searchData = None))
        \/ (captureMatches = false
            /\ SearchData.simpleSearch searchData = Some a
            /\ k + len a <= len (snd piece)
            /\ starts_with a (drop (Z.to_nat k) (snd piece)) = true
            /\ matches f = None)).

(** Report [f] lies before report [g] in the buffer: it ends at or before
    the start of [g], and it starts before [g] starts. *)
Definition report_before (f g : FindMatch) : Prop :=
  position_le (getEndPosition (range f)) (getStartPosition (range g))
  /\ (lineNumber (getStartPosition (range f)) < lineNumber (getStartPosition (range g))
      \/ (lineNumber (getStartPosition (range f)) = lineNumber (getStartPosition (range g))
          /\ column (getStartPosition (range f)) < column (getStartPosition (range g)))).

(** The part of a search range on its first line: the range itself when it
    lies in one line, and the range from its start to the end of its first
    line otherwise. *)
Definition first_line_of (model : TextModel) (searchRange : Range) : Range :=
  if startLineNumber searchRange =? endLineNumber searchRange then searchRange
  else plain_range (startLineNumber searchRange) (startColumn searchRange)
         (startLineNumber searchRange)
         (getLineMaxColumn model (startLineNumber searchRange)).

(** ** More sample buffers and requests *)

(** The buffer of the lines ["a"], ["b"], ["a"] and ["b"]. *)
Definition a_b_a_b_buffer : TextModel :=
  {| lines := [codes "a"; codes "b"; codes "a"; codes "b"]; EOL := LF |}.

(** The compiled request of the literal [cat] searched as a whole word
    with the space as separator, on the small engine. *)
Definition cat_request : SearchData.t :=
  {| SearchData.regex :=
       {| matcher := literal_matcher (codes "cat"); multiline := false; lastIndex := 0 |};
     SearchData.wordSeparators := Some (getMapForWordSeparators (codes " "));
     SearchData.simpleSearch := Some (codes "cat") |}.

(** ** The matches of a text

    The matches of a text, said without the searcher.  The engine gives the
    leftmost match of the pattern from an index on.  The matches of a text
    are found one after the other, the first from the start of the text and
    each next one from the end of the one before; a match that is empty or
    that ends the text is the last one: the engine would give the empty
    match again, and nothing is looked for behind the end of the text.  The
    accepted matches are those that pass the word test, when the search has
    one. *)

(** The leftmost match of the pattern at or after index [p] of [t]. *)
Definition leftmost_match (m : Matcher) (t : jsstring) (p : Z) : option RegExpExecArray :=
  if p >? len t then None else exec_scan m t p (Z.to_nat (len t - p + 1)).

(** The matches of [t] from index [p] on, at most [rounds] of them. *)
Fixpoint match_chain (m : Matcher) (t : jsstring) (rounds : nat) (p : Z)
    : list RegExpExecArray :=
  match rounds with
  | O => []
  | S rounds' =>
      match leftmost_match m t p with
      | None => []
      | Some r =>
          r :: (if (len (m0 r) =? 0) || (index r + len (m0 r) =? len t) then []
                else match_chain m t rounds' (index r + len (m0 r)))
      end
  end.

(** The matches of [t] from index [p] on: a text has no more of them than
    it has characters, and one. *)
Definition matches_from (m : Matcher) (t : jsstring) (p : Z) : list RegExpExecArray :=
  match_chain m t (S (length t)) p.

(** The accepted matches of [t] from index [p] on. *)
Definition accepted_matches_from (wordSeparators : option WordCharacterClassifier)
    (m : Matcher) (t : jsstring) (p : Z) : list RegExpExecArray :=
  filter (fun r => accepts wordSeparators t (len t) (index r) (len (m0 r)) = true)
    (matches_from m t p).

(** The accepted matches of [t]. *)
Definition accepted_matches (wordSeparators : option WordCharacterClassifier)
    (m : Matcher) (t : jsstring) : list RegExpExecArray :=
  accepted_matches_from wordSeparators m t 0.



(** What is reported for a match [r] of the joined text of a range that
    starts at offset [deltaOffset] of the buffer. *)
Definition report_in_range (model : TextModel) (deltaOffset : Z) (text : jsstring)
    (captureMatches : bool) (r : RegExpExecArray) : FindMatch :=
  {| range := _getMultilineMatchRange model deltaOffset text (index r) (m0 r);
     matches := if captureMatches then Some (Some (m0 r) :: groups r) else None |}.

(** The same in a buffer whose lines end with a carriage return and a line
    feed, with the range the claim gives. *)
Definition crlf_report_of (model : TextModel) (deltaOffset : Z) (text : jsstring)
    (captureMatches : bool) (r : RegExpExecArray) : FindMatch :=
  {| range := crlf_match_range model deltaOffset text (index r) (m0 r);
     matches := if captureMatches then Some (Some (m0 r) :: groups r) else None |}.




(** The matches [next] returns call after call, from a searcher in any
    state. *)
Definition full_scan (text : jsstring) (this : Searcher) : list RegExpExecArray :=
  default [] (scan_text (scan_fuel text) text this).

(** The searcher stands at [p]: its expression looks from [p] on, and the
    match it remembers starts before [p] and does not end the text.  This
    is its state after a reset to [p], and after a match that is not empty,
    ends at [p] and does not end the text. *)
Definition stands_at (text : jsstring) (this : Searcher) (p : Z) : Prop :=
  lastIndex (_searchRegex this) = p
  /\ 0 <= p
  /\ _prevMatchStartIndex this < p
  /\ _prevMatchStartIndex this + _prevMatchLength this <> len text.

(** An engine for the one pattern [(a)|b]: at an index that holds [a] it
    matches [a], and the group captures [a]; at an index that holds [b] it
    matches [b], and the group took no part in the match. *)
Definition a_or_b_matcher : Matcher :=
  fun s i =>
    match charCodeAt s i with
    | Some c =>
        if c =? 97 then Some ([97], [Some [97]])
        else if c =? 98 then Some ([98], [None])
        else None
    | None => None
    end.

Definition a_or_b_compile : jsstring -> bool -> RegExpOptions -> option Matcher :=
  fun _ _ _ => Some a_or_b_matcher.

(** The compiled request of the regular expression [(a)|b] on that
    engine. *)
Definition a_or_b_request : SearchData.t :=
  {| SearchData.regex := {| matcher := a_or_b_matcher; multiline := false; lastIndex := 0 |};
     SearchData.wordSeparators := None;
     SearchData.simpleSearch := None |}.

(** The buffer of the one line ["ab"]. *)
Definition ab_buffer : TextModel :=
  {| lines := [codes "ab"]; EOL := LF |}.

(** * Properties *)

(** ** Loops *)

Lemma loop_mono {S R} (body : S -> S + R) fuel fuel' s r :
  loop body fuel s = Some r -> (fuel <= fuel')%nat -> loop body fuel' s = Some r.
Proof.
  revert fuel' s. induction fuel as [|fuel IH]; intros fuel' s H Hle; [discriminate|].
  destruct fuel' as [|fuel']; [lia|]. simpl in *.
  destruct (body s); [apply IH; [assumption|lia]|assumption].
Qed.

(** A loop whose rounds lower a rank ends within the budget. *)
Lemma loop_total {S R} (body : S -> S + R) (rank : S -> nat) :
  (forall s s', body s = inl s' -> (rank s' < rank s)%nat) ->
  forall fuel s, (rank s < fuel)%nat -> is_Some (loop body fuel s).
Proof.
  intros Hdec. induction fuel as [|fuel IH]; intros s Hlt; [lia|]. simpl.
  destruct (body s) as [s'|r] eqn:E; [|eauto].
  apply IH. specialize (Hdec _ _ E). lia.
Qed.

(** Invariant rule: what every round keeps and the leaving round
    establishes holds of the result. *)
Lemma loop_inv {S R} (body : S -> S + R) (P : S -> Prop) (Q : R -> Prop) :
  (forall s s', P s -> body s = inl s' -> P s') ->
  (forall s r, P s -> body s = inr r -> Q r) ->
  forall fuel s r, P s -> loop body fuel s = Some r -> Q r.
Proof.
  intros Hstep Hexit. induction fuel as [|fuel IH]; intros s r HP H; [discriminate|].
  simpl in H. destruct (body s) as [s'|r'] eqn:E.
  - eapply IH; [eapply Hstep|]; eassumption.
  - inversion H; subst. eapply Hexit; eassumption.
Qed.

(** ** The engine *)

Lemma len_nonneg {A} (l : list A) : 0 <= len l.
Proof. unfold len. lia. Qed.

Lemma exec_scan_Some m s p positions r :
  exec_scan m s p positions = Some r ->
  p <= index r < p + Z.of_nat positions
  /\ m s (index r) = Some (m0 r, groups r)
  /\ (forall q, p <= q < index r -> m s q = None).
Proof.
  revert p. induction positions as [|k IH]; intros p H; [discriminate|].
  simpl in H. destruct (m s p) as [[a gs]|] eqn:E.
  - inversion H; subst; simpl. repeat split; try lia. congruence.
  - destruct (IH _ H) as (Hr & Hm & Hn). repeat split; try lia; [assumption|].
    intros q Hq. destruct (decide (q = p)) as [->|]; [assumption|apply Hn; lia].
Qed.

Lemma exec_scan_first m s p positions a gs :
  m s p = Some (a, gs) -> (0 < positions)%nat ->
  exec_scan m s p positions = Some {| index := p; m0 := a; groups := gs |}.
Proof. intros H Hpos. destruct positions; [lia|]. simpl. rewrite H. reflexivity. Qed.

Lemma RegExp_exec_Some re s r re' :
  RegExp_exec re s = (Some r, re') ->
  Z.max 0 (lastIndex re) <= index r <= len s
  /\ matcher re s (index r) = Some (m0 r, groups r)
  /\ (forall q, Z.max 0 (lastIndex re) <= q < index r -> matcher re s q = None)
  /\ re' = set_lastIndex re (index r + len (m0 r)).
Proof.
  unfold RegExp_exec. intros H.
  destruct (Z.max 0 (lastIndex re) >? len s) eqn:Hgt; [discriminate|].
  destruct (exec_scan _ _ _ _) as [m|] eqn:E; [|discriminate].
  inversion H; subst. apply exec_scan_Some in E. destruct E as (Hr & Hm & Hn).
  repeat split; try assumption; lia.
Qed.

Lemma RegExp_exec_regex re s r re' :
  RegExp_exec re s = (r, re') ->
  matcher re' = matcher re /\ multiline re' = multiline re.
Proof.
  unfold RegExp_exec. intros H.
  destruct (_ >? _); [inversion H; subst; auto|].
  destruct (exec_scan _ _ _ _); inversion H; subst; auto.
Qed.

(** ** Searcher.next *)

(** The three ways a round of [Searcher.next] ends. *)
Lemma next_body_cases text this :
  match next_body text this with
  | inl this' =>
      exists m re,
        _prevMatchStartIndex this + _prevMatchLength this <> len text
        /\ RegExp_exec (_searchRegex this) text = (Some m, re)
        /\ ~ (index m = _prevMatchStartIndex this /\ len (m0 m) = _prevMatchLength this)
        /\ accepts (_wordSeparators this) text (len text) (index m) (len (m0 m)) = false
        /\ this' = set_prev (set_regex this re) (index m) (len (m0 m))
  | inr (Some m, this') =>
      exists re,
        _prevMatchStartIndex this + _prevMatchLength this <> len text
        /\ RegExp_exec (_searchRegex this) text = (Some m, re)
        /\ ~ (index m = _prevMatchStartIndex this /\ len (m0 m) = _prevMatchLength this)
        /\ accepts (_wordSeparators this) text (len text) (index m) (len (m0 m)) = true
        /\ this' = set_prev (set_regex this re) (index m) (len (m0 m))
  | inr (None, this') =>
      (_prevMatchStartIndex this + _prevMatchLength this = len text /\ this' = this)
      \/ (_prevMatchStartIndex this + _prevMatchLength this <> len text
          /\ exists re, this' = set_regex this re
             /\ (RegExp_exec (_searchRegex this) text = (None, re)
                 \/ exists m, RegExp_exec (_searchRegex this) text = (Some m, re)
                      /\ index m = _prevMatchStartIndex this
                      /\ len (m0 m) = _prevMatchLength this))
  end.
Proof.
  unfold next_body.
  destruct (_ + _ =? len text) eqn:Hend; [left; split; [lia|reflexivity]|].
  destruct (RegExp_exec _ text) as [[m|] re] eqn:E; simpl.
  - destruct ((index m =? _) && (len (m0 m) =? _)) eqn:Hsame.
    + right. split; [lia|]. exists re. split; [reflexivity|]. right. exists m.
      apply andb_true_iff in Hsame. destruct Hsame. repeat split; try lia.
    + assert (~ (index m = _prevMatchStartIndex this
                 /\ len (m0 m) = _prevMatchLength this)) as Hne.
      { intros [H1 H2]. rewrite H1, H2, !Z.eqb_refl in Hsame. discriminate. }
      destruct (accepts _ _ _ _ _) eqn:Hacc.
      * exists re. repeat split; try assumption; lia.
      * exists m, re. repeat split; try assumption; lia.
  - right. split; [lia|]. exists re. split; [reflexivity|]. left. reflexivity.
Qed.

Lemma in_step_set_prev text this re m :
  RegExp_exec (_searchRegex this) text = (Some m, re) ->
  in_step text (set_prev (set_regex this re) (index m) (len (m0 m))) = true.
Proof.
  intros E. apply RegExp_exec_Some in E. destruct E as (Hi & _ & _ & ->).
  unfold in_step. simpl. pose proof (len_nonneg (m0 m)).
  repeat (apply andb_true_iff; split); lia.
Qed.

(** A match seen lowers the rank, whether it is accepted or not. *)
Lemma rank_set_prev text this re m :
  RegExp_exec (_searchRegex this) text = (Some m, re) ->
  ~ (index m = _prevMatchStartIndex this /\ len (m0 m) = _prevMatchLength this) ->
  (rank text (set_prev (set_regex this re) (index m) (len (m0 m))) < rank text this)%nat.
Proof.
  intros E Hne. unfold rank. rewrite (in_step_set_prev _ _ _ _ E).
  apply RegExp_exec_Some in E. destruct E as (Hi & _ & _ & _).
  pose proof (len_nonneg (m0 m)). pose proof (len_nonneg text). simpl.
  destruct (in_step text this) eqn:Hs.
  - unfold in_step in Hs. repeat (apply andb_true_iff in Hs; destruct Hs as [Hs ?]).
    destruct (len (m0 m) =? 0) eqn:Hz; destruct (_prevMatchLength this =? 0) eqn:Hz'; lia.
  - destruct (len (m0 m) =? 0); lia.
Qed.

Lemma next_body_rank text this this' :
  next_body text this = inl this' -> (rank text this' < rank text this)%nat.
Proof.
  intros H. pose proof (next_body_cases text this) as Hc. rewrite H in Hc.
  destruct Hc as (m & re & _ & E & Hne & _ & ->). apply rank_set_prev; assumption.
Qed.

Lemma rank_bound text this : (rank text this < scan_fuel text)%nat.
Proof.
  unfold rank, scan_fuel, in_step, len.
  destruct (_ && _) eqn:Hs; [|lia].
  repeat (apply andb_true_iff in Hs; destruct Hs as [Hs ?]).
  destruct (_prevMatchLength this =? 0); lia.
Qed.

(** [Searcher.next] returns: its loop ends within the budget. *)
Lemma next_loop_total text this :
  is_Some (loop (next_body text) (scan_fuel text) this).
Proof. apply (loop_total _ (rank text)); [apply next_body_rank|apply rank_bound]. Qed.

Lemma Searcher_next_loop text this r :
  Searcher_next text this = r <-> loop (next_body text) (scan_fuel text) this = Some r.
Proof.
  unfold Searcher_next. destruct (next_loop_total text this) as [r' ->].
  split; congruence.
Qed.

(** More rounds do not change the result of [Searcher.next]. *)
Lemma Searcher_next_fuel text this fuel :
  (scan_fuel text <= fuel)%nat ->
  loop (next_body text) fuel this = Some (Searcher_next text this).
Proof.
  intros Hle. eapply loop_mono; [|eassumption]. apply Searcher_next_loop. reflexivity.
Qed.

Lemma Searcher_next_post text this : next_post text this (Searcher_next text this).
Proof.
  pose proof (proj1 (Searcher_next_loop text this _) eq_refl) as Hloop.
  revert Hloop. generalize (Searcher_next text this) as r. intros r.
  apply (loop_inv (next_body text)
    (fun s => (rank text s <= rank text this)%nat
              /\ _wordSeparators s = _wordSeparators this
              /\ matcher (_searchRegex s) = matcher (_searchRegex this)
              /\ multiline (_searchRegex s) = multiline (_searchRegex this)
              /\ Z.max 0 (lastIndex (_searchRegex this))
                 <= Z.max 0 (lastIndex (_searchRegex s)))).
  - intros s s' (Hr & Hw & Hm & Hml & Hli) Hb.
    pose proof (next_body_cases text s) as Hc. rewrite Hb in Hc.
    destruct Hc as (m & re & _ & E & Hne & _ & ->).
    pose proof (rank_set_prev _ _ _ _ E Hne).
    destruct (RegExp_exec_regex _ _ _ _ E) as [Hm' Hml'].
    apply RegExp_exec_Some in E. destruct E as (Hi & _ & _ & ->).
    simpl in *. pose proof (len_nonneg (m0 m)). repeat split; try congruence; lia.
  - intros s [[m|] s'] (Hr & Hw & Hm & Hml & Hli) Hb;
      pose proof (next_body_cases text s) as Hc; rewrite Hb in Hc.
    + destruct Hc as (re & _ & E & Hne & Hacc & ->).
      pose proof (rank_set_prev _ _ _ _ E Hne).
      pose proof (in_step_set_prev _ _ _ _ E).
      destruct (RegExp_exec_regex _ _ _ _ E) as [Hm' Hml'].
      apply RegExp_exec_Some in E. destruct E as (Hi & Hmt & _ & ->).
      unfold next_post. simpl in *. rewrite <- Hw, <- Hm.
      repeat split; try congruence; try lia.
    + unfold next_post. simpl.
      destruct Hc as [[_ ->]|(_ & re & -> & [E|(m & E & _)])]; simpl;
        try (destruct (RegExp_exec_regex _ _ _ _ E) as [Hm' Hml']);
        repeat split; congruence.
  - repeat split; lia.
Qed.

(** When the remembered match ends at the end of the text, [next] returns
    null and changes nothing. *)
Lemma Searcher_next_at_end text this :
  _prevMatchStartIndex this + _prevMatchLength this = len text ->
  Searcher_next text this = (None, this).
Proof.
  intros H. apply Searcher_next_loop. unfold scan_fuel.
  replace (2 * length text + 4)%nat with (S (2 * length text + 3)) by lia.
  simpl. unfold next_body. rewrite (proj2 (Z.eqb_eq _ _) H). reflexivity.
Qed.

(** ** Word boundaries *)

Lemma charCodeAt_char_at t k :
  0 <= k < len t -> exists c, charCodeAt t k = Some c /\ char_at t k c.
Proof.
  intros Hk. unfold charCodeAt, char_at, len in *.
  destruct (k <? 0) eqn:E; [lia|].
  destruct (lookup_lt_is_Some_2 t (Z.to_nat k)) as [c Hc]; [lia|].
  exists c. rewrite Hc. repeat split; lia.
Qed.

Lemma char_at_inj t k c d : char_at t k c -> char_at t k d -> c = d.
Proof. intros [_ H1] [_ H2]. congruence. Qed.

Lemma not_regular_true ws ch : not_regular ws ch = true <-> ws ch <> Regular.
Proof. unfold not_regular. destruct (ws ch); simpl; split; congruence. Qed.

Lemma not_regular_char_at ws t k :
  0 <= k < len t ->
  not_regular ws (charCodeAt t k) = true
  <-> exists c, char_at t k c /\ ws (Some c) <> Regular.
Proof.
  intros Hk. destruct (charCodeAt_char_at t k Hk) as (c & -> & Hc).
  rewrite not_regular_true. split; [eauto|].
  intros (d & Hd & Hne). rewrite (char_at_inj _ _ _ _ Hc Hd). assumption.
Qed.

Lemma leftIsWordBounday_spec ws t i L :
  0 <= i -> 0 <= L -> i + L <= len t ->
  leftIsWordBounday ws t (len t) i L = true <-> left_edge_is_boundary ws t i L.
Proof.
  intros Hi HL Hn. unfold leftIsWordBounday, left_edge_is_boundary.
  destruct (i =? 0) eqn:E0; [split; [left; lia|reflexivity]|].
  destruct (not_regular ws (charCodeAt t (i - 1))) eqn:E1.
  { split; [|reflexivity]. intros _. right. left.
    apply not_regular_char_at; [lia|assumption]. }
  destruct (L >? 0) eqn:EL; simpl.
  - destruct (not_regular ws (charCodeAt t i)) eqn:E2.
    + split; [|reflexivity]. intros _. right. right. split; [lia|].
      apply not_regular_char_at; [lia|assumption].
    + split; [discriminate|]. intros [H|[H|[_ H]]]; [lia| |].
      * apply not_regular_char_at in H; [congruence|lia].
      * apply not_regular_char_at in H; [congruence|lia].
  - split; [discriminate|]. intros [H|[H|[H _]]]; [lia| |lia].
    apply not_regular_char_at in H; [congruence|lia].
Qed.

Lemma rightIsWordBounday_spec ws t i L :
  0 <= i -> 0 <= L -> i + L <= len t ->
  rightIsWordBounday ws t (len t) i L = true <-> right_edge_is_boundary ws t i L.
Proof.
  intros Hi HL Hn. unfold rightIsWordBounday, right_edge_is_boundary.
  destruct (i + L =? len t) eqn:E0; [split; [left; lia|reflexivity]|].
  destruct (not_regular ws (charCodeAt t (i + L))) eqn:E1.
  { split; [|reflexivity]. intros _. right. left.
    apply not_regular_char_at; [lia|assumption]. }
  destruct (L >? 0) eqn:EL; simpl.
  - destruct (not_regular ws (charCodeAt t (i + L - 1))) eqn:E2.
    + split; [|reflexivity]. intros _. right. right. split; [lia|].
      apply not_regular_char_at; [lia|assumption].
    + split; [discriminate|]. intros [H|[H|[_ H]]]; [lia| |].
      * apply not_regular_char_at in H; [congruence|lia].
      * apply not_regular_char_at in H; [congruence|lia].
  - split; [discriminate|]. intros [H|[H|[H _]]]; [lia| |lia].
    apply not_regular_char_at in H; [congruence|lia].
Qed.

(** C2: with a word classifier configured, a raw match at index [i] of
    length [L] inside a text of length [n] is accepted if and only if both
    its edges are word boundaries as the claim spells them out; a
    zero-length match at the very start of the text has a left boundary and
    one at the very end has a right boundary. *)
Theorem C2_word_boundary_test ws t i L :
  0 <= i -> 0 <= L -> i + L <= len t ->
  (accepts (Some ws) t (len t) i L = true
   <-> left_edge_is_boundary ws t i L /\ right_edge_is_boundary ws t i L)
  /\ leftIsWordBounday ws t (len t) 0 0 = true
  /\ rightIsWordBounday ws t (len t) (len t) 0 = true.
Proof.
  intros Hi HL Hn. split; [|split].
  - simpl. unfold isValidMatch. rewrite andb_true_iff.
    rewrite leftIsWordBounday_spec, rightIsWordBounday_spec by assumption.
    reflexivity.
  - reflexivity.
  - unfold rightIsWordBounday. rewrite Z.add_0_r, Z.eqb_refl. reflexivity.
Qed.

(** ** The multiline flag *)

Lemma charCodeAt_nat s (k : nat) : charCodeAt s (Z.of_nat k) = s !! k.
Proof.
  unfold charCodeAt. destruct (Z.ltb_spec (Z.of_nat k) 0); [lia|].
  rewrite Nat2Z.id. reflexivity.
Qed.

Lemma backslashes_before_after_backslash s k :
  s !! k = Some CharCode.Backslash ->
  backslashes_before s (S k) = S (backslashes_before s k).
Proof. intros H. simpl. rewrite H. reflexivity. Qed.

Lemma backslashes_before_after_other s k c :
  s !! k = Some c -> c <> CharCode.Backslash -> backslashes_before s (S k) = O.
Proof.
  intros H Hc. simpl. rewrite H.
  destruct (c =? CharCode.Backslash) eqn:E; [lia|reflexivity].
Qed.

Lemma Even_not_succ n : Nat.Even n -> ~ Nat.Even (S n).
Proof. intros [a Ha] [b Hb]. lia. Qed.

(** The loop, standing at an index not inside an escape, finds exactly the
    line break escapes from that index on. *)
Lemma isMultilineRegexSource_for_spec s rounds (k : nat) :
  Nat.Even (backslashes_before s k) ->
  (length s <= rounds + k)%nat ->
  isMultilineRegexSource_for rounds s (len s) (Z.of_nat k) = true
  <-> exists j c, (k <= j)%nat /\ unescaped_backslash_at s j
                  /\ s !! S j = Some c /\ (c = CharCode.n \/ c = CharCode.r).
Proof.
  revert k. induction rounds as [|rounds IH]; intros k Hev Hlen.
  - simpl. split; [discriminate|]. intros (j & c & Hj & _ & Hc & _).
    apply lookup_lt_Some in Hc. lia.
  - simpl. unfold len. destruct (Z.of_nat k <? Z.of_nat (length s)) eqn:Hk.
    2:{ split; [discriminate|]. intros (j & c & Hj & _ & Hc & _).
        apply lookup_lt_Some in Hc. lia. }
    rewrite charCodeAt_nat.
    destruct (lookup_lt_is_Some_2 s k) as [ch Hch]; [lia|]. rewrite Hch. simpl.
    destruct (ch =? CharCode.Backslash) eqn:Hbs.
    + assert (ch = CharCode.Backslash) as -> by lia.
      destruct (Z.of_nat k + 1 >=? Z.of_nat (length s)) eqn:Hk1.
      { split; [discriminate|]. intros (j & c & Hj & _ & Hc & _).
        apply lookup_lt_Some in Hc. lia. }
      replace (Z.of_nat k + 1) with (Z.of_nat (S k)) by lia.
      rewrite charCodeAt_nat.
      destruct (lookup_lt_is_Some_2 s (S k)) as [d Hd]; [lia|]. rewrite Hd. simpl.
      destruct ((d =? CharCode.n) || (d =? CharCode.r)) eqn:Hnr.
      * split; [|reflexivity]. intros _. exists k, d.
        split; [lia|]. split; [split; assumption|]. split; [assumption|].
        apply orb_true_iff in Hnr. lia.
      * replace (Z.of_nat (S k) + 1) with (Z.of_nat (S (S k))) by lia.
        rewrite IH; [| |lia].
        -- split; intros (j & c & Hj & Hu & Hc & Hcn); exists j, c;
             (split; [|auto]); [lia|].
           destruct (decide (j = k)) as [->|Hjk].
           { rewrite Hd in Hc. inversion Hc; subst.
             apply orb_false_iff in Hnr. lia. }
           destruct (decide (j = S k)) as [->|Hjk']; [|lia].
           destruct Hu as [_ Hu].
           rewrite (backslashes_before_after_backslash _ _ Hch) in Hu.
           exfalso. revert Hu. apply Even_not_succ. assumption.
        -- destruct (decide (d = CharCode.Backslash)) as [->|Hdb].
           ++ rewrite (backslashes_before_after_backslash _ _ Hd).
              rewrite (backslashes_before_after_backslash _ _ Hch).
              destruct Hev as [a Ha]. exists (S a). lia.
           ++ rewrite (backslashes_before_after_other _ _ _ Hd Hdb). exists O. lia.
    + replace (Z.of_nat k + 1) with (Z.of_nat (S k)) by lia.
      rewrite IH; [| |lia].
      * split; intros (j & c & Hj & Hu & Hc & Hcn); exists j, c;
          (split; [|auto]); [lia|].
        destruct (decide (j = k)) as [->|Hjk]; [|lia].
        destruct Hu as [Hu _]. rewrite Hch in Hu. inversion Hu; subst.
        rewrite Z.eqb_refl in Hbs. discriminate.
      * rewrite (backslashes_before_after_other _ _ _ Hch) by lia. exists O. lia.
Qed.

Lemma _isMultilineRegexSource_spec s :
  _isMultilineRegexSource s = true <-> has_line_break_escape s.
Proof.
  unfold _isMultilineRegexSource, has_line_break_escape.
  destruct s as [|c s].
  - simpl. split; [discriminate|]. intros (i & c & [H _] & _). discriminate.
  - replace (negb (truthy (c :: s)) || (len (c :: s) =? 0)) with false
      by (unfold len; simpl; reflexivity).
    change 0 with (Z.of_nat O).
    rewrite isMultilineRegexSource_for_spec; [| exists O; reflexivity | lia].
    split.
    + intros (j & d & _ & H). exists j, d. exact H.
    + intros (j & d & H). exists j, d. split; [lia|exact H].
Qed.

(** ** indexOf *)

Lemma indexOf_scan_range p s k :
  indexOf_scan p s k = -1 \/ k <= indexOf_scan p s k <= k + len s.
Proof.
  revert k. induction s as [|c s IH]; intros k; simpl.
  - destruct (starts_with p []); [right; unfold len; simpl; lia|left; reflexivity].
  - destruct (starts_with p (c :: s)); [right; unfold len; simpl; lia|].
    destruct (IH (k + 1)) as [->|H]; [left; reflexivity|right].
    unfold len in *. simpl. lia.
Qed.

(** [indexOf_scan] finds the first occurrence. *)
Lemma indexOf_scan_found p s k (j : nat) :
  0 <= k ->
  indexOf_scan p s k = k + Z.of_nat j
  <-> (j <= length s)%nat /\ starts_with p (drop j s) = true
      /\ forall j', (j' < j)%nat -> starts_with p (drop j' s) = false.
Proof.
  revert k j. induction s as [|c s IH]; intros k j Hk; simpl.
  - destruct (starts_with p []) eqn:E.
    + split.
      * intros H. assert (j = O) as -> by lia. repeat split; [lia|assumption|lia].
      * intros (Hj & _ & _). assert (j = O) as -> by lia. lia.
    + split; [lia|]. intros (Hj & Hs & _). assert (j = O) as -> by lia.
      simpl in Hs. congruence.
  - destruct (starts_with p (c :: s)) eqn:E.
    + split.
      * intros H. assert (j = O) as -> by lia. repeat split; [lia|assumption|lia].
      * intros (_ & _ & Hf). destruct j; [lia|]. specialize (Hf O ltac:(lia)).
        simpl in Hf. congruence.
    + destruct j as [|j].
      * split.
        -- intros H. destruct (indexOf_scan_range p s (k + 1)); lia.
        -- intros (_ & Hs & _). simpl in Hs. congruence.
      * replace (k + Z.of_nat (S j)) with (k + 1 + Z.of_nat j) by lia.
        rewrite IH by lia. simpl. split.
        -- intros (Hj & Hs & Hf). repeat split; [lia|assumption|].
           intros [|j'] Hj'; [assumption|apply Hf; lia].
        -- intros (Hj & Hs & Hf). repeat split; [lia|assumption|].
           intros j' Hj'. apply (Hf (S j')). lia.
Qed.

Lemma indexOf_scan_none p s k :
  0 <= k ->
  indexOf_scan p s k = -1
  <-> forall j, (j <= length s)%nat -> starts_with p (drop j s) = false.
Proof.
  revert k. induction s as [|c s IH]; intros k Hk; simpl.
  - destruct (starts_with p []) eqn:E.
    + split; [lia|]. intros H. specialize (H O ltac:(lia)). simpl in H. congruence.
    + split; [|reflexivity]. intros _ j Hj. assert (j = O) as -> by lia. assumption.
  - destruct (starts_with p (c :: s)) eqn:E.
    + split; [lia|]. intros H. specialize (H O ltac:(lia)). simpl in H. congruence.
    + rewrite IH by lia. split.
      * intros H [|j] Hj; [assumption|]. simpl. apply H. lia.
      * intros H j Hj. apply (H (S j)). lia.
Qed.

Lemma indexOf_scan_single c s k :
  0 <= k -> (indexOf_scan [c] s k >=? 0) = true <-> In c s.
Proof.
  revert k. induction s as [|d s IH]; intros k Hk; simpl.
  - split; [discriminate|tauto].
  - destruct (Z.eqb_spec c d) as [->|Hne]; simpl.
    + split; [auto|]. intros _. apply Z.geb_le. lia.
    + rewrite IH by lia. split; [auto|]. intros [?|?]; [congruence|assumption].
Qed.

Lemma indexOf_single c s : (indexOf s [c] 0 >=? 0) = true <-> In c s.
Proof.
  unfold indexOf. assert (clamp 0 (len s) 0 = 0) as -> by (unfold clamp, len; lia).
  simpl. apply indexOf_scan_single. lia.
Qed.

(** What [parseSearchRequest] returns, field by field. *)
Lemma parseSearchRequest_Some params data :
  parseSearchRequest params = Some data ->
  searchString params <> []
  /\ multiline (SearchData.regex data)
     = (if isRegex params then _isMultilineRegexSource (searchString params)
        else (indexOf (searchString params) [CharCode.LineFeed] 0 >=? 0))
  /\ lastIndex (SearchData.regex data) = 0
  /\ RegExp_compile (searchString params) (isRegex params)
       {| opt_matchCase := matchCase params; opt_wholeWord := false;
          opt_multiline := multiline (SearchData.regex data); opt_global := true |}
     = Some (matcher (SearchData.regex data))
  /\ SearchData.wordSeparators data
     = (if truthy (wordSeparators params)
        then Some (getMapForWordSeparators (wordSeparators params)) else None).
Proof.
  unfold parseSearchRequest, createRegExp. intros H.
  destruct (searchString params) as [|c s] eqn:Hs; [discriminate|]. simpl in H.
  destruct (RegExp_compile _ _ _) as [m|] eqn:Hc; [|discriminate].
  inversion H; subst; clear H. simpl. repeat split; try assumption. discriminate.
Qed.

(** C6: the multiline flag of the compiled request: for a regular
    expression it is set exactly when the pattern has [n] or [r]
    immediately after a backslash that is not itself escaped (one at an
    odd position of its run of backslashes), for a literal pattern exactly
    when the pattern contains a line feed. *)
Theorem C6_multiline_flag params data :
  parseSearchRequest params = Some data ->
  (isRegex params = true ->
   (multiline (SearchData.regex data) = true
    <-> has_line_break_escape (searchString params)))
  /\ (isRegex params = false ->
      (multiline (SearchData.regex data) = true
       <-> In CharCode.LineFeed (searchString params))).
Proof.
  intros H. apply parseSearchRequest_Some in H. destruct H as (_ & -> & _).
  split; intros ->.
  - apply _isMultilineRegexSource_spec.
  - apply indexOf_single.
Qed.

(** ** Repeats and the end of the text *)

(** A call of [next] that starts with the engine giving the remembered
    match again returns null. *)
Lemma Searcher_next_repeat text this m re :
  RegExp_exec (_searchRegex this) text = (Some m, re) ->
  index m = _prevMatchStartIndex this ->
  len (m0 m) = _prevMatchLength this ->
  fst (Searcher_next text this) = None.
Proof.
  intros E Hi Hl.
  assert (exists this', next_body text this = inr (None, this')) as [this' Hb].
  { unfold next_body. destruct (_ =? len text); [eauto|]. rewrite E. simpl.
    rewrite Hi, Hl, !Z.eqb_refl. simpl. eauto. }
  assert (Searcher_next text this = (None, this')) as ->; [|reflexivity].
  apply Searcher_next_loop. unfold scan_fuel.
  replace (2 * length text + 4)%nat with (S (2 * length text + 3)) by lia.
  simpl. rewrite Hb. reflexivity.
Qed.

(** The rank of a searcher in step is a function of the match it
    remembers. *)
Lemma rank_in_step text this :
  in_step text this = true ->
  rank text this
  = Z.to_nat (2 * (len text - _prevMatchStartIndex this)
              + (if _prevMatchLength this =? 0 then 1 else 0)).
Proof. intros H. unfold rank. rewrite H. reflexivity. Qed.

Lemma Searcher_next_twice text this m1 this1 m2 this2 :
  Searcher_next text this = (Some m1, this1) ->
  Searcher_next text this1 = (Some m2, this2) ->
  ~ (index m2 = index m1 /\ len (m0 m2) = len (m0 m1)).
Proof.
  intros H1 H2 [Hi Hl].
  pose proof (Searcher_next_post text this) as P1. rewrite H1 in P1.
  pose proof (Searcher_next_post text this1) as P2. rewrite H2 in P2.
  destruct P1 as (_ & _ & _ & S1 & _ & I1 & L1 & _).
  destruct P2 as (_ & _ & _ & S2 & R2 & I2 & L2 & _). simpl in *.
  rewrite (rank_in_step _ _ S1), (rank_in_step _ _ S2) in R2.
  rewrite I1, L1, I2, L2, Hi, Hl in R2. lia.
Qed.

(** Every scan of a text ends: [next] returns null within
    [scan_fuel text] calls, whatever the pattern. *)
Lemma scan_text_total text this calls :
  (rank text this < calls)%nat -> is_Some (scan_text calls text this).
Proof.
  revert this. induction calls as [|calls IH]; intros this Hr; [lia|]. simpl.
  pose proof (Searcher_next_post text this) as P.
  destruct (Searcher_next text this) as [[m|] this']; [|eauto].
  destruct P as (_ & _ & _ & _ & R & _). simpl in R.
  destruct (IH this') as [l ->]; [lia|]. simpl. eauto.
Qed.

(** C5: [next] returns null when the engine gives again the match it
    remembers, the one seen last and accepted or rejected; two matches
    returned one after the other never have the same start and length;
    and the scan of a text, [next] called until it returns null, ends
    within [scan_fuel text] calls from any state of the searcher. *)
Theorem C5_no_repeat_and_scan_ends text this :
  (forall m re,
      RegExp_exec (_searchRegex this) text = (Some m, re) ->
      index m = _prevMatchStartIndex this ->
      len (m0 m) = _prevMatchLength this ->
      fst (Searcher_next text this) = None)
  /\ (forall m1 this1 m2 this2,
         Searcher_next text this = (Some m1, this1) ->
         Searcher_next text this1 = (Some m2, this2) ->
         ~ (index m2 = index m1 /\ len (m0 m2) = len (m0 m1)))
  /\ is_Some (scan_text (scan_fuel text) text this).
Proof.
  split; [|split].
  - apply Searcher_next_repeat.
  - apply Searcher_next_twice.
  - apply scan_text_total, rank_bound.
Qed.

Lemma after_calls_at_end text this calls :
  _prevMatchStartIndex this + _prevMatchLength this = len text ->
  after_calls calls text this = this.
Proof.
  intros H. induction calls as [|calls IH]; [reflexivity|]. simpl.
  rewrite (Searcher_next_at_end _ _ H). exact IH.
Qed.

(** The round of [next] that takes a match from the engine leaves it
    remembered, whether the round returns it, rejects it or gives up on
    a repeat. *)
Lemma after_round_remembers text this m re :
  _prevMatchStartIndex this + _prevMatchLength this <> len text ->
  RegExp_exec (_searchRegex this) text = (Some m, re) ->
  _prevMatchStartIndex (after_round text this) = index m
  /\ _prevMatchLength (after_round text this) = len (m0 m).
Proof.
  intros Hend E. unfold after_round.
  pose proof (next_body_cases text this) as Hc.
  destruct (next_body text this) as [this'|[[m'|] this']].
  - destruct Hc as (m1 & re1 & _ & E1 & _ & _ & ->). rewrite E in E1.
    inversion E1; subst. simpl. auto.
  - destruct Hc as (re1 & _ & E1 & _ & _ & ->). rewrite E in E1.
    inversion E1; subst. simpl. auto.
  - destruct Hc as [[? _]|(_ & re1 & -> & [E1|(m1 & E1 & Hi & Hl)])];
      [contradiction|congruence|].
    rewrite E in E1. inversion E1; subst. simpl. auto.
Qed.

(** C10: the round of [next] in which the engine gives a match that ends
    at the end of the text leaves the searcher remembering it, and from
    then every call of [next] on that text returns null and changes
    nothing, however many calls are made; so a match returned that ends
    at the end of the text is the last one of the scan, and [next] returns
    nothing after it, a zero-width match at the end of the text
    included. *)
Theorem C10_end_of_text_stops_scan text this :
  (forall m re,
      _prevMatchStartIndex this + _prevMatchLength this <> len text ->
      RegExp_exec (_searchRegex this) text = (Some m, re) ->
      index m + len (m0 m) = len text ->
      forall calls,
        Searcher_next text (after_calls calls text (after_round text this))
        = (None, after_round text this))
  /\ (forall m this',
         Searcher_next text this = (Some m, this') ->
         index m + len (m0 m) = len text ->
         forall calls,
           Searcher_next text (after_calls calls text this') = (None, this'))
  /\ (forall m1 this1 m2 this2,
         Searcher_next text this = (Some m1, this1) ->
         Searcher_next text this1 = (Some m2, this2) ->
         index m1 + len (m0 m1) <> len text).
Proof.
  split; [|split].
  - intros m re Hend E He calls.
    destruct (after_round_remembers _ _ _ _ Hend E) as [Hi Hl].
    rewrite after_calls_at_end by lia. apply Searcher_next_at_end. lia.
  - intros m this' H He calls.
    pose proof (Searcher_next_post text this) as P. rewrite H in P.
    destruct P as (_ & _ & _ & _ & _ & Hi & Hl & _). simpl in *.
    rewrite after_calls_at_end by lia. apply Searcher_next_at_end. lia.
  - intros m1 this1 m2 this2 H1 H2 He.
    pose proof (Searcher_next_post text this) as P. rewrite H1 in P.
    destruct P as (_ & _ & _ & _ & _ & Hi & Hl & _). simpl in *.
    rewrite Searcher_next_at_end in H2 by lia. discriminate.
Qed.

(** ** The result limit *)

Lemma len_app_one {A} (l : list A) x : len (l ++ [x]) = len l + 1.
Proof. unfold len. rewrite length_app. simpl. lia. Qed.

Lemma geb_false a b : (a >=? b) = false -> a < b.
Proof. rewrite Z.geb_leb, Z.leb_gt. trivial. Qed.

(** A line adds matches until the limit is reached; it adds at least
    the first one it finds. *)
Lemma _findMatchesInLine_limit searchData text lineNumber deltaOffset result
    captureMatches limitResultCount :
  len (_findMatchesInLine searchData text lineNumber deltaOffset result
         captureMatches limitResultCount)
  <= Z.max (len result + 1) limitResultCount.
Proof.
  unfold _findMatchesInLine.
  destruct (if negb captureMatches then simpleSearch_of searchData else None)
    as [searchString|].
  - destruct (loop _ _ _) as [r|] eqn:E; [|lia].
    revert E. apply (loop_inv _
      (fun st : Z * list FindMatch =>
         len (snd st) = len result \/ len (snd st) < limitResultCount)
      (fun r => len r <= Z.max (len result + 1) limitResultCount)); [| |left; reflexivity].
    + intros [i res] [i' res'] HP Hb. unfold simple_body in Hb. simpl in *.
      destruct (_ =? -1); [discriminate|].
      destruct (accepts _ _ _ _ _).
      * destruct (_ >=? _) eqn:Hlt; [discriminate|]. apply geb_false in Hlt.
        inversion Hb; subst. right. exact Hlt.
      * inversion Hb; subst. exact HP.
    + intros [i res] r' HP Hb. unfold simple_body in Hb. simpl in *.
      destruct (_ =? -1); [inversion Hb; subst; lia|].
      destruct (accepts _ _ _ _ _); [|discriminate].
      destruct (_ >=? _); [|discriminate].
      inversion Hb; subst. rewrite len_app_one. lia.
  - destruct (loop _ _ _) as [r|] eqn:E; [|lia].
    revert E. apply (loop_inv _
      (fun st : Searcher * list FindMatch =>
         len (snd st) = len result \/ len (snd st) < limitResultCount)
      (fun r => len r <= Z.max (len result + 1) limitResultCount)); [| |left; reflexivity].
    + intros [s res] [s' res'] HP Hb. unfold regex_body in Hb. simpl in *.
      destruct (Searcher_next text s) as [[m|] s1]; [|discriminate].
      destruct (_ >=? _) eqn:Hlt; [discriminate|]. apply geb_false in Hlt.
      inversion Hb; subst. right. exact Hlt.
    + intros [s res] r' HP Hb. unfold regex_body in Hb. simpl in *.
      destruct (Searcher_next text s) as [[m|] s1]; [|inversion Hb; subst; lia].
      destruct (_ >=? _); [|discriminate].
      inversion Hb; subst. rewrite len_app_one. lia.
Qed.

Lemma middleLines_limit rounds model searchRange searchData captureMatches
    limitResultCount lineNumber result :
  len result <= Z.max 1 limitResultCount ->
  len (middleLines rounds model searchRange searchData captureMatches
         limitResultCount lineNumber result)
  <= Z.max 1 limitResultCount.
Proof.
  revert lineNumber result. induction rounds as [|rounds IH];
    intros lineNumber result H; simpl; [assumption|].
  destruct (lineNumber <? _); simpl; [|assumption].
  destruct (Z.ltb_spec (len result) limitResultCount); [|assumption].
  apply IH.
  pose proof (_findMatchesInLine_limit searchData (getLineContent model lineNumber)
                lineNumber 0 result captureMatches limitResultCount). lia.
Qed.

Lemma _doFindMatchesLineByLine_limit model searchRange searchData captureMatches
    limitResultCount :
  len (_doFindMatchesLineByLine model searchRange searchData captureMatches
         limitResultCount)
  <= Z.max 1 limitResultCount.
Proof.
  unfold _doFindMatchesLineByLine.
  destruct (startLineNumber searchRange =? endLineNumber searchRange).
  - apply _findMatchesInLine_limit.
  - match goal with
    | |- context [middleLines ?n ?m ?r ?d ?c ?l ?k ?res] =>
        pose proof (middleLines_limit n m r d c l k res
                      (_findMatchesInLine_limit _ _ _ _ _ _ _)) as Hmid;
        set (mid := middleLines n m r d c l k res) in *
    end.
    destruct (Z.ltb_spec (len mid) limitResultCount); [|assumption].
    match goal with
    | |- len (_findMatchesInLine ?d ?t ?l ?o ?res ?c ?lim) <= _ =>
        pose proof (_findMatchesInLine_limit d t l o res c lim)
    end. lia.
Qed.

Lemma _doFindMatchesMultiline_limit model searchRange searcher captureMatches
    limitResultCount :
  len (fst (_doFindMatchesMultiline model searchRange searcher captureMatches
              limitResultCount))
  <= Z.max 1 limitResultCount.
Proof.
  unfold _doFindMatchesMultiline.
  destruct (loop _ _ _) as [r|] eqn:E; [|simpl; unfold len; simpl; lia].
  revert E. apply (loop_inv _
    (fun st : Searcher * list FindMatch =>
       snd st = [] \/ len (snd st) < limitResultCount)
    (fun r => len (fst r) <= Z.max 1 limitResultCount)); [| |left; reflexivity].
  - intros [s res] [s' res'] HP Hb. unfold multiline_body in Hb. simpl in *.
    destruct (Searcher_next _ s) as [[m|] s1]; [|discriminate].
    destruct (_ >=? _) eqn:Hlt; [discriminate|]. apply geb_false in Hlt.
    inversion Hb; subst. right. exact Hlt.
  - intros [s res] r' HP Hb. unfold multiline_body in Hb. simpl in *.
    destruct (Searcher_next _ s) as [[m|] s1].
    + destruct (_ >=? _); [|discriminate].
      inversion Hb; subst. simpl. rewrite len_app_one.
      destruct HP as [->|]; [unfold len; simpl|]; lia.
    + inversion Hb; subst. simpl. destruct HP as [->|]; [unfold len; simpl|]; lia.
Qed.

(** C7, as the code has it: [findMatches] returns at most
    [limitResultCount] entries when the limit is at least one; the limit
    is looked at after an entry is added, so a limit of zero or less
    still lets one entry through.  In both strategies the result has at
    most [max 1 limitResultCount] entries. *)
Theorem C7_result_limit model searchParams searchRange captureMatches limitResultCount :
  len (findMatches model searchParams searchRange captureMatches limitResultCount)
  <= Z.max 1 limitResultCount.
Proof.
  unfold findMatches. destruct (parseSearchRequest searchParams) as [searchData|].
  - destruct (multiline _).
    + apply _doFindMatchesMultiline_limit.
    + apply _doFindMatchesLineByLine_limit.
  - unfold len. simpl. lia.
Qed.

(** ** The literal search and the regex search *)

Lemma exec_scan_None m s p positions :
  (forall q, p <= q < p + Z.of_nat positions -> m s q = None) ->
  exec_scan m s p positions = None.
Proof.
  revert p. induction positions as [|n IH]; intros p H; [reflexivity|]. simpl.
  rewrite (H p) by lia. apply IH. intros q Hq. apply H. lia.
Qed.

Lemma exec_scan_at m s p positions q a gs :
  p <= q < p + Z.of_nat positions ->
  m s q = Some (a, gs) ->
  (forall q', p <= q' < q -> m s q' = None) ->
  exec_scan m s p positions = Some {| index := q; m0 := a; groups := gs |}.
Proof.
  revert p. induction positions as [|n IH]; intros p Hq Hm Hn; [lia|]. simpl.
  destruct (decide (p = q)) as [->|Hne]; [rewrite Hm; reflexivity|].
  rewrite (Hn p) by lia. apply IH; [lia|assumption|]. intros q' Hq'. apply Hn. lia.
Qed.

Lemma starts_with_nil_false p : p <> [] -> starts_with p [] = false.
Proof. destruct p; [congruence|reflexivity]. Qed.

Lemma starts_with_length p t : starts_with p t = true -> (length p <= length t)%nat.
Proof.
  revert t. induction p as [|c p IH]; intros [|d t] H; simpl in *;
    try lia; try discriminate.
  apply andb_true_iff in H. destruct H as [_ H]. apply IH in H. lia.
Qed.

(** On a literal pattern, [exec] from [lastIndex] and [indexOf] from the
    same position find the same occurrence. *)
Lemma exec_literal re p t :
  matches_literally (matcher re) p -> p <> [] -> 0 <= lastIndex re ->
  match RegExp_exec re t with
  | (Some m, re') =>
      index m = indexOf t p (lastIndex re) /\ m0 m = p
      /\ 0 <= index m /\ index m + len p <= len t
      /\ re' = set_lastIndex re (index m + len p)
  | (None, _) => indexOf t p (lastIndex re) = -1
  end.
Proof.
  intros Hlit Hp Hk. unfold RegExp_exec, indexOf.
  rewrite Z.max_r by assumption.
  destruct (Z.gtb_spec (lastIndex re) (len t)) as [Hgt|Hle].
  - assert (clamp 0 (len t) (lastIndex re) = len t) as ->
      by (unfold clamp; pose proof (len_nonneg t); lia).
    unfold len. rewrite Nat2Z.id, drop_all. simpl.
    rewrite starts_with_nil_false by assumption. reflexivity.
  - assert (clamp 0 (len t) (lastIndex re) = lastIndex re) as ->
      by (unfold clamp; lia).
    set (k := lastIndex re) in *. set (d := drop (Z.to_nat k) t).
    assert (len d = len t - k) as Hd
        by (unfold d, len in *; rewrite length_drop; lia).
    destruct (indexOf_scan_range p d k) as [Hnone|Hin].
    + rewrite exec_scan_None; [assumption|].
      intros q Hq. pose proof (Hlit t q ltac:(lia)) as Hm.
      destruct (matcher re t q) as [[a gs]|]; [|reflexivity]. destruct Hm as [_ Hm].
      pose proof (proj1 (indexOf_scan_none p d k Hk) Hnone) as Hall.
      specialize (Hall (Z.to_nat (q - k))). unfold d in Hall at 2.
      rewrite drop_drop in Hall. replace (Z.to_nat k + Z.to_nat (q - k))%nat
        with (Z.to_nat q) in Hall by lia.
      rewrite Hall in Hm; [discriminate|]. unfold len in *. lia.
    + set (i := indexOf_scan p d k) in *.
      assert (i = k + Z.of_nat (Z.to_nat (i - k))) as Hi by lia.
      apply indexOf_scan_found in Hi; [|assumption].
      destruct Hi as (Hj & Hs & Hf). unfold d in Hs, Hf.
      rewrite drop_drop in Hs. replace (Z.to_nat k + Z.to_nat (i - k))%nat
        with (Z.to_nat i) in Hs by lia.
      pose proof (Hlit t i ltac:(lia)) as Hm.
      destruct (matcher re t i) as [[a gs]|] eqn:Em; [|congruence].
      destruct Hm as [-> _].
      rewrite (exec_scan_at _ _ _ _ i p gs); [|lia|assumption|].
      * simpl. apply starts_with_length in Hs. rewrite length_drop in Hs.
        unfold len in *. repeat split; try lia.
      * intros q Hq. pose proof (Hlit t q ltac:(lia)) as Hm.
        destruct (matcher re t q) as [[a gs']|]; [|reflexivity]. destruct Hm as [_ Hm].
        specialize (Hf (Z.to_nat (q - k)) ltac:(lia)).
        rewrite drop_drop in Hf. replace (Z.to_nat k + Z.to_nat (q - k))%nat
          with (Z.to_nat q) in Hf by lia.
        congruence.
Qed.

Lemma occurrences_skip p t k (n : nat) :
  (n <= length t)%nat ->
  occurrences p t k n = occurrences p (drop n t) (k + Z.of_nat n) O.
Proof.
  revert t k. induction n as [|n IH]; intros t k Hn.
  - rewrite drop_0, Z.add_0_r. reflexivity.
  - destruct t as [|c t]; simpl in *; [lia|].
    rewrite IH by lia. f_equal. lia.
Qed.

Lemma occurrences_scan p d k :
  p <> [] -> 0 <= k ->
  occurrences p d k O
  = if indexOf_scan p d k =? -1 then []
    else indexOf_scan p d k
         :: occurrences p (drop (Z.to_nat (indexOf_scan p d k - k) + length p) d)
              (indexOf_scan p d k + len p) O.
Proof.
  intros Hp. revert k. induction d as [|c d IH]; intros k Hk.
  - simpl. rewrite starts_with_nil_false by assumption. reflexivity.
  - cbn [occurrences indexOf_scan]. destruct (starts_with p (c :: d)) eqn:Hs.
    + destruct (Z.eqb_spec k (-1)); [lia|]. f_equal.
      pose proof (starts_with_length _ _ Hs) as Hl. simpl in Hl.
      destruct p as [|a p]; [congruence|]. simpl in Hl |- *.
      rewrite Nat.sub_0_r, occurrences_skip by lia.
      replace (Z.to_nat (k - k)) with O by lia. simpl.
      f_equal. unfold len. simpl. lia.
    + rewrite IH by lia.
      destruct (indexOf_scan_range p d (k + 1)) as [->|Hr]; [reflexivity|].
      destruct (Z.eqb_spec (indexOf_scan p d (k + 1)) (-1)); [lia|].
      replace (Z.to_nat (indexOf_scan p d (k + 1) - k))
        with (S (Z.to_nat (indexOf_scan p d (k + 1) - (k + 1)))) by lia.
      reflexivity.
Qed.

(** The occurrences from index [k] on: the first one, found by
    [indexOf], and those behind it. *)
Lemma occurrences_indexOf p t k :
  p <> [] -> 0 <= k ->
  occurrences p (drop (Z.to_nat k) t) k O
  = if indexOf t p k =? -1 then []
    else indexOf t p k
         :: occurrences p (drop (Z.to_nat (indexOf t p k + len p)) t)
              (indexOf t p k + len p) O.
Proof.
  intros Hp Hk. destruct (Z.le_gt_cases k (len t)) as [Hle|Hgt].
  - unfold indexOf. assert (clamp 0 (len t) k = k) as -> by (unfold clamp; lia).
    rewrite occurrences_scan by assumption.
    set (i := indexOf_scan p (drop (Z.to_nat k) t) k).
    destruct (indexOf_scan_range p (drop (Z.to_nat k) t) k) as [Hn|Hr].
    + fold i in Hn. rewrite Hn. reflexivity.
    + fold i in Hr. destruct (Z.eqb_spec i (-1)); [lia|]. rewrite drop_drop.
      replace (Z.to_nat k + (Z.to_nat (i - k) + length p))%nat
        with (Z.to_nat (i + len p)) by (unfold len; lia).
      reflexivity.
  - rewrite drop_ge by (unfold len in *; lia). simpl.
    unfold indexOf. assert (clamp 0 (len t) k = len t) as ->
      by (unfold clamp; pose proof (len_nonneg t); lia).
    unfold len. rewrite Nat2Z.id, drop_all. simpl.
    rewrite starts_with_nil_false by assumption. reflexivity.
Qed.

Lemma indexOf_bounds t p k :
  p <> [] -> 0 <= k -> indexOf t p k <> -1 ->
  k <= indexOf t p k /\ indexOf t p k + len p <= len t.
Proof.
  intros Hp Hk Hne. unfold indexOf in *.
  destruct (Z.le_gt_cases k (len t)) as [Hle|Hgt].
  - assert (clamp 0 (len t) k = k) as Hc by (unfold clamp; lia).
    rewrite Hc in *. set (d := drop (Z.to_nat k) t) in *.
    destruct (indexOf_scan_range p d k) as [|Hr]; [contradiction|].
    set (i := indexOf_scan p d k) in *.
    assert (i = k + Z.of_nat (Z.to_nat (i - k))) as Hi by lia.
    apply indexOf_scan_found in Hi; [|assumption]. destruct Hi as (_ & Hs & _).
    apply starts_with_length in Hs. unfold d in Hs, Hr. rewrite !length_drop in Hs.
    unfold len in *. rewrite length_drop in Hr. lia.
  - exfalso. apply Hne.
    assert (clamp 0 (len t) k = len t) as ->
      by (unfold clamp; pose proof (len_nonneg t); lia).
    unfold len. rewrite Nat2Z.id, drop_all. simpl.
    rewrite starts_with_nil_false by assumption. reflexivity.
Qed.

Lemma len_pos {A} (l : list A) : l <> [] -> 0 < len l.
Proof. destruct l; [congruence|]. unfold len. simpl. lia. Qed.

(** The literal search of a line: from index [k] on it adds the
    occurrences of [p], one after the other, up to the limit. *)
Lemma simple_loop_spec p t lineNumber deltaOffset limitResultCount :
  p <> [] ->
  forall fuel k result,
    0 <= k -> (Z.to_nat (len t - k) < fuel)%nat ->
    loop (simple_body None t (len t) p (len p) lineNumber deltaOffset limitResultCount)
      fuel (k - len p, result)
    = Some (result
            ++ take (Z.to_nat (Z.max 1 (limitResultCount - len result)))
                 ((fun i => {| range := occurrence_range p lineNumber deltaOffset i;
                               matches := None |})
                  <$> occurrences p (drop (Z.to_nat k) t) k O)).
Proof.
  intros Hp. pose proof (len_pos p Hp) as Hlp.
  induction fuel as [|fuel IH]; intros k result Hk Hfuel; [lia|].
  cbn [loop]. unfold simple_body at 1.
  replace (k - len p + len p) with k by lia.
  rewrite (occurrences_indexOf p t k Hp Hk).
  destruct (Z.eqb_spec (indexOf t p k) (-1)) as [|Hne].
  { rewrite fmap_nil, take_nil, app_nil_r. reflexivity. }
  destruct (indexOf_bounds t p k Hp Hk Hne) as [Hi1 Hi2].
  cbn [accepts]. rewrite fmap_cons. fold (occurrence_range p lineNumber deltaOffset).
  rewrite len_app_one.
  destruct (len result + 1 >=? limitResultCount) eqn:Hge.
  - apply Z.geb_le in Hge.
    replace (Z.to_nat (Z.max 1 (limitResultCount - len result))) with 1%nat by lia.
    simpl. rewrite take_0. reflexivity.
  - apply geb_false in Hge.
    specialize (IH (indexOf t p k + len p) (result ++ [
      {| range := occurrence_range p lineNumber deltaOffset (indexOf t p k);
         matches := None |}])).
    replace (indexOf t p k + len p - len p) with (indexOf t p k) in IH by lia.
    unfold occurrence_range in IH at 1. rewrite IH by lia.
    rewrite len_app_one, <- app_assoc. do 2 f_equal.
    replace (Z.to_nat (Z.max 1 (limitResultCount - len result)))
      with (S (Z.to_nat (Z.max 1 (limitResultCount - (len result + 1))))) by lia.
    reflexivity.
Qed.

Lemma next_body_return text this r :
  next_body text this = inr r -> Searcher_next text this = r.
Proof.
  intros H. apply Searcher_next_loop. unfold scan_fuel.
  replace (2 * length text + 4)%nat with (S (2 * length text + 3)) by lia.
  simpl. rewrite H. reflexivity.
Qed.

(** A call of [next] on a literal pattern finds what [indexOf] finds. *)
Lemma next_literal p t k this :
  p <> [] -> at_index p t k this ->
  match Searcher_next t this with
  | (Some m, this') =>
      indexOf t p k <> -1
      /\ m = {| index := indexOf t p k; m0 := p;
                groups := groups_at (matcher (_searchRegex this)) t (indexOf t p k) |}
      /\ at_index p t (indexOf t p k + len p) this'
      /\ matcher (_searchRegex this') = matcher (_searchRegex this)
  | (None, _) => indexOf t p k = -1
  end.
Proof.
  intros Hp (Hws & Hlit & Hli & Hk & Hprev & Hend).
  pose proof (len_pos p Hp) as Hlp. pose proof (len_nonneg t) as Ht.
  destruct (next_body t this) as [this'|r] eqn:Hb.
  { exfalso. pose proof (next_body_cases t this) as Hc. rewrite Hb in Hc.
    destruct Hc as (m & re & _ & _ & _ & Hacc & _). rewrite Hws in Hacc.
    discriminate. }
  rewrite (next_body_return _ _ _ Hb).
  pose proof (next_body_cases t this) as Hc. rewrite Hb in Hc.
  pose proof (exec_literal (_searchRegex this) p t Hlit Hp ltac:(lia)) as He.
  rewrite Hli in He.
  destruct r as [[m|] this'].
  - destruct Hc as (re & Hne & E & _ & _ & ->). rewrite E in He.
    destruct He as (Hi & Hm & Hi0 & Hil & ->).
    pose proof (RegExp_exec_Some _ _ _ _ E) as (Hr & Hmt & _ & _).
    rewrite Hli in Hr.
    destruct (Z.eq_dec (indexOf t p k) (-1)) as [Heq|Hneq]; [lia|].
    split; [assumption|]. split; [|split].
    + destruct m as [i a gs]. simpl in *. subst. unfold groups_at. rewrite Hmt.
      reflexivity.
    + unfold at_index. simpl. rewrite Hm, <- Hi.
      repeat split; try assumption; try lia.
    + reflexivity.
  - destruct Hc as [[Hat ->]|(_ & re & -> & [E|(m & E & Hi & Hl)])].
    + destruct (Z.eq_dec (indexOf t p k) (-1)) as [|Hneq]; [assumption|].
      destruct (indexOf_bounds t p k Hp Hk Hneq). lia.
    + rewrite E in He. exact He.
    + rewrite E in He. destruct He as (Hi' & _). 
      pose proof (RegExp_exec_Some _ _ _ _ E) as (Hr & _). rewrite Hli in Hr. lia.
Qed.

(** The regex search of a line for a literal pattern adds the same
    occurrences. *)
Lemma regex_loop_spec p t lineNumber deltaOffset captureMatches limitResultCount m :
  p <> [] ->
  forall fuel k this result,
    at_index p t k this -> matcher (_searchRegex this) = m ->
    (Z.to_nat (len t - k) < fuel)%nat ->
    loop (regex_body t lineNumber deltaOffset captureMatches limitResultCount)
      fuel (this, result)
    = Some (result
            ++ take (Z.to_nat (Z.max 1 (limitResultCount - len result)))
                 (literal_match m p t lineNumber deltaOffset captureMatches
                  <$> occurrences p (drop (Z.to_nat k) t) k O)).
Proof.
  intros Hp. pose proof (len_pos p Hp) as Hlp.
  induction fuel as [|fuel IH]; intros k this result Hat Hm Hfuel; [lia|].
  assert (0 <= k) as Hk by (destruct Hat as (_ & _ & _ & ? & _); assumption).
  cbn [loop]. unfold regex_body at 1.
  pose proof (next_literal p t k this Hp Hat) as Hn.
  rewrite (occurrences_indexOf p t k Hp Hk).
  destruct (Searcher_next t this) as [[r|] this'].
  - destruct Hn as (Hne & -> & Hat' & Hm').
    destruct (indexOf_bounds t p k Hp Hk Hne) as [Hi1 Hi2].
    destruct (Z.eqb_spec (indexOf t p k) (-1)) as [|_]; [contradiction|].
    rewrite fmap_cons. cbn [index m0 groups]. rewrite Hm.
    fold (occurrence_range p lineNumber deltaOffset (indexOf t p k)).
    fold (literal_match m p t lineNumber deltaOffset captureMatches (indexOf t p k)).
    rewrite len_app_one.
    destruct (len result + 1 >=? limitResultCount) eqn:Hge.
    + apply Z.geb_le in Hge.
      replace (Z.to_nat (Z.max 1 (limitResultCount - len result))) with 1%nat by lia.
      simpl. rewrite take_0. reflexivity.
    + apply geb_false in Hge.
      rewrite (IH _ _ _ Hat') by (congruence || lia).
      rewrite len_app_one, <- app_assoc. do 2 f_equal.
      replace (Z.to_nat (Z.max 1 (limitResultCount - len result)))
        with (S (Z.to_nat (Z.max 1 (limitResultCount - (len result + 1))))) by lia.
      reflexivity.
  - rewrite Hn. simpl. rewrite take_nil, app_nil_r. reflexivity.
Qed.

(** Both searches of a line add, to the matches found so far, the
    occurrences of the pattern in the line up to the limit, and at least
    the first of them. *)
Lemma _findMatchesInLine_literal searchData p text lineNumber deltaOffset result
    captureMatches limitResultCount :
  p <> [] -> literal_request searchData p ->
  _findMatchesInLine searchData text lineNumber deltaOffset result captureMatches
    limitResultCount
  = result
    ++ take (Z.to_nat (Z.max 1 (limitResultCount - len result)))
         (line_matches (matcher (SearchData.regex searchData)) p text
            lineNumber deltaOffset captureMatches).
Proof.
  intros Hp (Hws & Hlit & Hss). unfold _findMatchesInLine, line_matches.
  assert (forall fuel, (scan_fuel text <= fuel)%nat ->
            (Z.to_nat (len text - 0) < fuel)%nat) as Hfuel
      by (unfold scan_fuel, len; lia).
  assert (loop (regex_body text lineNumber deltaOffset captureMatches limitResultCount)
            (scan_fuel text)
            (Searcher_reset 0
               (new_Searcher (SearchData.wordSeparators searchData)
                  (SearchData.regex searchData)), result)
          = Some (result
                  ++ take (Z.to_nat (Z.max 1 (limitResultCount - len result)))
                       (literal_match (matcher (SearchData.regex searchData)) p text
                          lineNumber deltaOffset captureMatches
                        <$> occurrences p text 0 O))) as Hregex.
  { rewrite (regex_loop_spec p text lineNumber deltaOffset captureMatches
               limitResultCount (matcher (SearchData.regex searchData)) Hp
               (scan_fuel text) 0); [reflexivity| |reflexivity|apply Hfuel; lia].
    unfold at_index. simpl. repeat split; try assumption; try lia. }
  destruct captureMatches; simpl.
  - rewrite Hregex. reflexivity.
  - unfold simpleSearch_of. destruct Hss as [-> | ->].
    + destruct p as [|c p]; [congruence|]. cbn [truthy].
      rewrite Hws.
      pose proof (simple_loop_spec (c :: p) text lineNumber deltaOffset
                    limitResultCount Hp (scan_fuel text) 0 result ltac:(lia)
                    ltac:(apply Hfuel; lia)) as Hs.
      replace (0 - len (c :: p)) with (- len (c :: p)) in Hs by lia.
      rewrite Hs. reflexivity.
    + rewrite Hregex. reflexivity.
Qed.

Lemma take_limit_app {A} (limit : Z) (x y : list A) :
  0 <= limit ->
  take (Z.to_nat limit) (x ++ y)
  = take (Z.to_nat limit) x
    ++ take (Z.to_nat (limit - len (take (Z.to_nat limit) x))) y.
Proof.
  intros H. rewrite take_app. f_equal. f_equal. unfold len. rewrite length_take. lia.
Qed.

Lemma take_take_app {A} (a : Z) (res x y : list A) :
  (res ++ take (Z.to_nat (a - len res)) x)
  ++ take (Z.to_nat (a - len (res ++ take (Z.to_nat (a - len res)) x))) y
  = res ++ take (Z.to_nat (a - len res)) (x ++ y).
Proof.
  rewrite <- app_assoc. f_equal. rewrite take_app. f_equal. f_equal.
  unfold len. rewrite length_app, length_take. lia.
Qed.

Section Lines.

Variables (searchData : SearchData.t) (p : jsstring).
Variables (model : TextModel) (captureMatches : bool) (limitResultCount : Z).
Hypothesis p_not_empty : p <> [].
Hypothesis request : literal_request searchData p.

Lemma line_within_limit text lineNumber deltaOffset result :
  len result < limitResultCount ->
  _findMatchesInLine searchData text lineNumber deltaOffset result captureMatches
    limitResultCount
  = result ++ take (Z.to_nat (limitResultCount - len result))
                (piece_matches (matcher (SearchData.regex searchData)) p captureMatches
                   (lineNumber, deltaOffset, text)).
Proof.
  intros H. rewrite (_findMatchesInLine_literal _ p) by assumption.
  rewrite Z.max_r by lia. reflexivity.
Qed.

Lemma middleLines_literal searchRange rounds lineNumber result pieces :
  ((0 < rounds)%nat -> lineNumber + Z.of_nat rounds <= endLineNumber searchRange) ->
  len result <= limitResultCount ->
  middleLines rounds model searchRange searchData captureMatches limitResultCount
    lineNumber
    (result ++ take (Z.to_nat (limitResultCount - len result)) pieces)
  = result
    ++ take (Z.to_nat (limitResultCount - len result))
         (pieces ++ concat (piece_matches (matcher (SearchData.regex searchData)) p captureMatches
                            <$> whole_lines rounds model lineNumber)).
Proof.
  revert lineNumber pieces. induction rounds as [|rounds IH];
    intros lineNumber pieces Hend Hlen.
  - simpl. rewrite app_nil_r. reflexivity.
  - cbn [middleLines whole_lines]. rewrite fmap_cons, concat_cons.
    destruct (Z.ltb_spec lineNumber (endLineNumber searchRange)); [|lia].
    cbn [andb].
    set (acc := result ++ take (Z.to_nat (limitResultCount - len result)) pieces).
    destruct (Z.ltb_spec (len acc) limitResultCount) as [Hlt|Hge].
    + rewrite line_within_limit by assumption. unfold acc.
      rewrite take_take_app, IH by lia. rewrite <- app_assoc. reflexivity.
    + unfold acc in *. f_equal. rewrite !take_app.
      assert (Z.to_nat (limitResultCount - len result) <= length pieces)%nat as Hl.
      { unfold len in *. rewrite length_app, length_take in Hge. lia. }
      replace (Z.to_nat (limitResultCount - len result) - length pieces)%nat
        with O by lia.
      rewrite take_0, app_nil_r. reflexivity.
Qed.

(** The line-by-line search of a range for a literal pattern. *)
Lemma _doFindMatchesLineByLine_literal searchRange :
  1 <= limitResultCount ->
  _doFindMatchesLineByLine model searchRange searchData captureMatches
    limitResultCount
  = take (Z.to_nat limitResultCount)
      (concat (piece_matches (matcher (SearchData.regex searchData)) p captureMatches
                 <$> range_pieces model searchRange)).
Proof.
  intros Hlim. unfold _doFindMatchesLineByLine, range_pieces.
  assert (len (@nil FindMatch) = 0) as Hnil by reflexivity.
  destruct (startLineNumber searchRange =? endLineNumber searchRange).
  - rewrite line_within_limit by (rewrite Hnil; lia).
    rewrite Hnil, Z.sub_0_r. simpl. rewrite app_nil_r. reflexivity.
  - rewrite fmap_cons, fmap_app, concat_cons, concat_app.
    cbn [fmap list_fmap concat]. rewrite app_nil_r.
    rewrite (line_within_limit _ _ _ []) by (rewrite Hnil; lia).
    rewrite middleLines_literal by (rewrite ?Hnil; lia).
    rewrite Hnil, Z.sub_0_r. cbn [app].
    match goal with
    | |- context [take ?n (?a ++ ?b ++ ?c)] =>
        rewrite (app_assoc a b c); set (ab := a ++ b);
        rewrite (take_limit_app limitResultCount ab) by lia;
        set (acc := take n ab)
    end.
    destruct (Z.ltb_spec (len acc) limitResultCount) as [Hlt|Hge].
    + rewrite line_within_limit by assumption. reflexivity.
    + replace (Z.to_nat (limitResultCount - len acc)) with O by lia.
      rewrite take_0, app_nil_r. reflexivity.
Qed.

End Lines.

Lemma middleLines_ext rounds model searchRange sd1 sd2 captureMatches limitResultCount
    lineNumber result :
  (forall text lineNumber deltaOffset result,
      _findMatchesInLine sd1 text lineNumber deltaOffset result captureMatches
        limitResultCount
      = _findMatchesInLine sd2 text lineNumber deltaOffset result captureMatches
          limitResultCount) ->
  middleLines rounds model searchRange sd1 captureMatches limitResultCount lineNumber result
  = middleLines rounds model searchRange sd2 captureMatches limitResultCount lineNumber
      result.
Proof.
  intros H. revert lineNumber result. induction rounds as [|rounds IH];
    intros lineNumber result; simpl; [reflexivity|].
  destruct (_ && _); [|reflexivity]. rewrite H. apply IH.
Qed.

Lemma _doFindMatchesLineByLine_ext model searchRange sd1 sd2 captureMatches
    limitResultCount :
  (forall text lineNumber deltaOffset result,
      _findMatchesInLine sd1 text lineNumber deltaOffset result captureMatches
        limitResultCount
      = _findMatchesInLine sd2 text lineNumber deltaOffset result captureMatches
          limitResultCount) ->
  _doFindMatchesLineByLine model searchRange sd1 captureMatches limitResultCount
  = _doFindMatchesLineByLine model searchRange sd2 captureMatches limitResultCount.
Proof.
  intros H. unfold _doFindMatchesLineByLine.
  destruct (_ =? _); [apply H|].
  rewrite !H, (middleLines_ext _ _ _ sd1 sd2) by exact H. reflexivity.
Qed.

Lemma range_line_matches m p t lineNumber deltaOffset captureMatches :
  range <$> line_matches m p t lineNumber deltaOffset captureMatches
  = line_ranges p t lineNumber deltaOffset.
Proof.
  unfold line_matches, line_ranges. rewrite <- list_fmap_compose.
  apply list_fmap_ext. intros i k _. unfold literal_match, createFindMatch. simpl.
  destruct captureMatches; reflexivity.
Qed.

Lemma range_scan_matches m p model searchRange captureMatches :
  range <$> scan_matches m p model searchRange captureMatches
  = scan_ranges p model searchRange.
Proof.
  unfold scan_matches, scan_ranges.
  induction (range_pieces model searchRange) as [|piece pieces IH]; [reflexivity|].
  rewrite !fmap_cons, !concat_cons, fmap_app, IH. unfold piece_matches.
  rewrite range_line_matches. reflexivity.
Qed.

(** The compiled request of a literal, case-sensitive, single-line pattern
    searched without separators. *)
Lemma parseSearchRequest_literal params :
  isRegex params = false -> matchCase params = true -> wordSeparators params = [] ->
  searchString params <> [] -> ~ In CharCode.LineFeed (searchString params) ->
  (exists m,
      RegExp_compile (searchString params) false
        {| opt_matchCase := true; opt_wholeWord := false;
           opt_multiline := false; opt_global := true |} = Some m
      /\ matches_literally m (searchString params)) ->
  exists searchData,
    parseSearchRequest params = Some searchData
    /\ multiline (SearchData.regex searchData) = false
    /\ SearchData.simpleSearch searchData = Some (searchString params)
    /\ literal_request searchData (searchString params).
Proof.
  intros Hre Hcase Hws Hp Hlf (m & Hc & Hlit).
  unfold parseSearchRequest, createRegExp. rewrite Hre, Hcase, Hws.
  destruct (searchString params) as [|c p] eqn:Hs; [congruence|]. cbn [truthy negb].
  assert ((indexOf (c :: p) [CharCode.LineFeed] 0 >=? 0) = false) as ->.
  { destruct (indexOf (c :: p) [CharCode.LineFeed] 0 >=? 0) eqn:E; [|reflexivity].
    apply indexOf_single in E. contradiction. }
  rewrite Hc. cbn [negb andb].
  eexists. split; [reflexivity|]. simpl.
  replace (if negb (bool_decide (toLowerCase (c :: p) = toUpperCase (c :: p)))
           then true else true) with true by (destruct (negb _); reflexivity).
  repeat split; try assumption. left. reflexivity.
Qed.

(** C8: for a literal pattern that is not empty and has no line feed,
    searched case-sensitively and without word separators, on an engine
    whose compiled literal matches the literal, [findMatches] returns, up
    to the limit, exactly the ranges of exact left-to-right substring
    scanning without overlap of the pieces of lines in the range; and the
    literal search, taken when no captures are asked for, returns the same
    sequence as the search through the regular expression. *)
Theorem C8_literal_search_is_substring_scanning model params searchRange
    captureMatches limitResultCount :
  isRegex params = false -> matchCase params = true -> wordSeparators params = [] ->
  searchString params <> [] -> ~ In CharCode.LineFeed (searchString params) ->
  (exists m,
      RegExp_compile (searchString params) false
        {| opt_matchCase := true; opt_wholeWord := false;
           opt_multiline := false; opt_global := true |} = Some m
      /\ matches_literally m (searchString params)) ->
  (1 <= limitResultCount ->
   range <$> findMatches model params searchRange captureMatches limitResultCount
   = take (Z.to_nat limitResultCount)
       (scan_ranges (searchString params) model searchRange))
  /\ exists searchData,
       parseSearchRequest params = Some searchData
       /\ simpleSearch_of searchData = Some (searchString params)
       /\ findMatches model params searchRange false limitResultCount
          = _doFindMatchesLineByLine model searchRange
              (without_simpleSearch searchData) false limitResultCount.
Proof.
  intros Hre Hcase Hws Hp Hlf Hc.
  destruct (parseSearchRequest_literal params Hre Hcase Hws Hp Hlf Hc)
    as (searchData & Hparse & Hml & Hss & Hreq).
  unfold findMatches. rewrite Hparse, Hml. split.
  - intros Hlim.
    rewrite (_doFindMatchesLineByLine_literal searchData (searchString params))
      by assumption.
    rewrite fmap_take. f_equal.
    apply (range_scan_matches (matcher (SearchData.regex searchData))).
  - exists searchData. split; [reflexivity|]. split.
    + unfold simpleSearch_of. rewrite Hss.
      destruct (searchString params); [congruence|reflexivity].
    + apply _doFindMatchesLineByLine_ext. intros text lineNumber deltaOffset result.
      rewrite !(_findMatchesInLine_literal _ (searchString params)); try assumption.
      * reflexivity.
      * destruct Hreq as (H1 & H2 & _). repeat split; try assumption. right. reflexivity.
Qed.

(** ** Multiline matches in a CRLF buffer *)

Lemma lineFeedCount_spec rounds text (i : nat) :
  lineFeedCount rounds text (Z.of_nat i)
  = count_line_feeds (take rounds (drop i text)).
Proof.
  revert i. induction rounds as [|rounds IH]; intros i; [reflexivity|].
  cbn [lineFeedCount]. replace (Z.of_nat i + 1) with (Z.of_nat (S i)) by lia.
  rewrite IH, charCodeAt_nat. unfold count_line_feeds.
  destruct (text !! i) as [c|] eqn:E.
  - rewrite (drop_S _ _ _ E). cbn [take code_is]. rewrite filter_cons.
    destruct (Z.eqb_spec c CharCode.LineFeed) as [->|Hne].
    + rewrite decide_True by reflexivity. unfold len. simpl. lia.
    + rewrite decide_False by assumption. lia.
  - apply lookup_ge_None in E. rewrite !drop_ge by lia. rewrite !take_nil. reflexivity.
Qed.

Lemma _getMultilineMatchRange_CRLF model deltaOffset text matchIndex match0 :
  EOL model = CRLF -> 0 <= matchIndex ->
  _getMultilineMatchRange model deltaOffset text matchIndex match0
  = crlf_match_range model deltaOffset text matchIndex match0.
Proof.
  intros Heol Hi. unfold _getMultilineMatchRange, crlf_match_range,
    multilineStartOffset, multilineEndOffset. rewrite Heol.
  assert (lineFeedCount (Z.to_nat matchIndex) text 0
          = count_line_feeds (take (Z.to_nat matchIndex) text)) as ->
    by apply (lineFeedCount_spec _ _ O).
  assert (lineFeedCount (length match0) text matchIndex
          = count_line_feeds (take (length match0) (drop (Z.to_nat matchIndex) text)))
    as ->
    by (rewrite <- (Z2Nat.id matchIndex) at 1 by assumption;
        apply lineFeedCount_spec).
  reflexivity.
Qed.

(** Every match the multiline search of a range collects in a CRLF buffer
    is reported with the range of [crlf_match_range]. *)
Lemma _doFindMatchesMultiline_CRLF model searchRange searcher captureMatches
    limitResultCount :
  EOL model = CRLF ->
  Forall (crlf_report_in (matcher (_searchRegex searcher)) model searchRange)
    (fst (_doFindMatchesMultiline model searchRange searcher captureMatches
            limitResultCount))
  /\ matcher (_searchRegex
                (snd (_doFindMatchesMultiline model searchRange searcher captureMatches
                        limitResultCount)))
     = matcher (_searchRegex searcher).
Proof.
  intros Heol. unfold _doFindMatchesMultiline.
  set (text := getValueInRange_LF model searchRange).
  set (delta := getOffsetAt model (getStartPosition searchRange)).
  set (M := matcher (_searchRegex searcher)).
  destruct (loop _ _ _) as [r|] eqn:E; [|simpl; split; [constructor|reflexivity]].
  revert E. apply (loop_inv _
    (fun st : Searcher * list FindMatch =>
       matcher (_searchRegex (fst st)) = M
       /\ Forall (crlf_report_in M model searchRange) (snd st))
    (fun r : list FindMatch * Searcher =>
       Forall (crlf_report_in M model searchRange) (fst r)
       /\ matcher (_searchRegex (snd r)) = M)).
  - intros [s res] [s' res'] [Hm HF] Hb. unfold multiline_body in Hb.
    pose proof (Searcher_next_post text s) as P.
    destruct (Searcher_next text s) as [[m|] s1]; [|discriminate].
    destruct (_ >=? _); [discriminate|]. inversion Hb; subst; clear Hb.
    destruct P as (_ & Hm1 & _ & _ & _ & _ & _ & _ & Hi & Hmt & _). simpl in *.
    split; [congruence|]. apply Forall_app. split; [assumption|].
    constructor; [|constructor]. exists (index m), (m0 m), (groups m).
    fold text. split; [lia|]. split; [congruence|].
    unfold createFindMatch. destruct (negb captureMatches); simpl;
      apply _getMultilineMatchRange_CRLF; (assumption || lia).
  - intros [s res] [res' s'] [Hm HF] Hb. unfold multiline_body in Hb.
    pose proof (Searcher_next_post text s) as P.
    destruct (Searcher_next text s) as [[m|] s1].
    + destruct (_ >=? _); [|discriminate]. inversion Hb; subst; clear Hb.
      destruct P as (_ & Hm1 & _ & _ & _ & _ & _ & _ & Hi & Hmt & _). simpl in *.
      split; [|congruence]. apply Forall_app. split; [assumption|].
      constructor; [|constructor]. exists (index m), (m0 m), (groups m).
      fold text. split; [lia|]. split; [congruence|].
      unfold createFindMatch. destruct (negb captureMatches); simpl;
        apply _getMultilineMatchRange_CRLF; (assumption || lia).
    + inversion Hb; subst; clear Hb. destruct P as (_ & Hm1 & _). simpl in *.
      split; [assumption|congruence].
  - simpl. split; [reflexivity|constructor].
Qed.

(** ** Searching forward *)

Lemma same_search_refl a : same_search a a.
Proof. repeat split. Qed.

Lemma same_search_trans a b c : same_search a b -> same_search b c -> same_search a c.
Proof. intros (? & ? & ?) (? & ? & ?). repeat split; congruence. Qed.

Lemma Searcher_reset_same k a b :
  same_search a b -> Searcher_reset k a = Searcher_reset k b.
Proof.
  intros (Hw & Hm & Hml). unfold Searcher_reset, set_lastIndex.
  rewrite Hw, Hm, Hml. reflexivity.
Qed.

Lemma same_search_reset k a : same_search (Searcher_reset k a) a.
Proof. repeat split. Qed.

Lemma Searcher_next_same text this :
  same_search (snd (Searcher_next text this)) this.
Proof.
  pose proof (Searcher_next_post text this) as (Hw & Hm & Hml & _).
  repeat split; assumption.
Qed.

Lemma _findFirstMatchInLine_same a b text lineNumber fromColumn captureMatches :
  same_search a b ->
  _findFirstMatchInLine a text lineNumber fromColumn captureMatches
  = _findFirstMatchInLine b text lineNumber fromColumn captureMatches.
Proof.
  intros H. unfold _findFirstMatchInLine. rewrite (Searcher_reset_same _ _ _ H).
  reflexivity.
Qed.

Lemma _findFirstMatchInLine_searcher a text lineNumber fromColumn captureMatches :
  same_search (snd (_findFirstMatchInLine a text lineNumber fromColumn captureMatches)) a.
Proof.
  unfold _findFirstMatchInLine.
  pose proof (Searcher_next_same text (Searcher_reset (fromColumn - 1) a)) as H.
  destruct (Searcher_next text _) as [[m|] s]; simpl in *;
    (eapply same_search_trans; [exact H|apply same_search_reset]).
Qed.

(** The loop over the lines tries them one after the other, each from its
    first column. *)
Lemma nextMatch_for_first_some model searcher captureMatches lineCount startLineNumber
    rounds i searcher' :
  same_search searcher' searcher ->
  nextMatch_for rounds model lineCount startLineNumber captureMatches i searcher'
  = first_some (fun lineNumber => first_match_in_line model searcher captureMatches
                                    lineNumber 1)
      ((fun i => Z.rem (startLineNumber + i - 1) lineCount + 1)
       <$> seqZ i (Z.of_nat rounds)).
Proof.
  revert i searcher'. induction rounds as [|rounds IH]; intros i searcher' Hs.
  - reflexivity.
  - rewrite seqZ_cons by lia. rewrite fmap_cons. cbn [nextMatch_for first_some].
    unfold first_match_in_line at 1.
    rewrite <- (_findFirstMatchInLine_same searcher' searcher) by assumption.
    pose proof (_findFirstMatchInLine_searcher searcher'
                  (getLineContent model (Z.rem (startLineNumber + i - 1) lineCount + 1))
                  (Z.rem (startLineNumber + i - 1) lineCount + 1) 1 captureMatches) as Hs'.
    destruct (_findFirstMatchInLine searcher' _ _ _ _) as [[r|] s1]; [reflexivity|].
    simpl in *. rewrite (IH (i + 1) s1) by (eapply same_search_trans; eassumption).
    replace (Z.pred (Z.of_nat (S rounds))) with (Z.of_nat rounds) by lia.
    reflexivity.
Qed.

(** The lines the loop visits are the lines after the starting line,
    cyclically. *)
Lemma cyclic_lines_after lineCount startLineNumber :
  1 <= startLineNumber <= lineCount ->
  (fun i => Z.rem (startLineNumber + i - 1) lineCount + 1) <$> seqZ 1 lineCount
  = lines_after_cyclically lineCount startLineNumber.
Proof.
  intros H. unfold lines_after_cyclically.
  assert (seqZ 1 lineCount
          = seqZ 1 (lineCount - startLineNumber)
            ++ seqZ (1 + (lineCount - startLineNumber)) startLineNumber) as ->
    by (rewrite <- seqZ_app by lia; f_equal; lia).
  rewrite fmap_app. f_equal.
  - rewrite <- (fmap_add_seqZ startLineNumber 1). apply list_fmap_ext.
    intros k i Hi. apply lookup_seqZ in Hi. destruct Hi as [-> Hk].
    rewrite Z.rem_small by lia. lia.
  - replace (1 + (lineCount - startLineNumber))
      with (lineCount - startLineNumber + 1) by lia.
    rewrite <- (fmap_add_seqZ (lineCount - startLineNumber) 1).
    rewrite <- list_fmap_compose.
    rewrite <- (list_fmap_id (seqZ 1 startLineNumber)) at 2. apply list_fmap_ext.
    intros k i Hi. apply lookup_seqZ in Hi. destruct Hi as [-> Hk]. simpl.
    replace (startLineNumber + (lineCount - startLineNumber + (1 + Z.of_nat k)) - 1)
      with (Z.of_nat k + 1 * lineCount) by lia.
    rewrite Z.rem_mod_nonneg, Z.mod_add, Z.mod_small by lia. lia.
Qed.

Lemma _doFindNextMatchLineByLine_spec model searchStart searcher captureMatches :
  1 <= lineNumber searchStart <= getLineCount model ->
  _doFindNextMatchLineByLine model searchStart searcher captureMatches
  = match first_match_in_line model searcher captureMatches
            (lineNumber searchStart) (column searchStart) with
    | Some r => Some r
    | None =>
        first_some (fun lineNumber => first_match_in_line model searcher captureMatches
                                        lineNumber 1)
          (lines_after_cyclically (getLineCount model) (lineNumber searchStart))
    end.
Proof.
  intros H. unfold _doFindNextMatchLineByLine, first_match_in_line at 1.
  pose proof (_findFirstMatchInLine_searcher searcher
                (getLineContent model (lineNumber searchStart))
                (lineNumber searchStart) (column searchStart) captureMatches) as Hs.
  destruct (_findFirstMatchInLine searcher _ _ _ _) as [[r|] s1]; [reflexivity|].
  simpl in *. rewrite (nextMatch_for_first_some model searcher) by assumption.
  rewrite Z2Nat.id by lia. rewrite cyclic_lines_after by assumption. reflexivity.
Qed.

(** The multiline search forward: one pass, and one more from the top of
    the buffer when the first fails and did not start there; two nested
    calls are all it takes. *)
Lemma _doFindNextMatchMultiline_rec_spec depth model searchStart searcher searcher'
    captureMatches :
  (2 <= depth)%nat -> same_search searcher' searcher ->
  fst <$> _doFindNextMatchMultiline_rec depth model searchStart searcher' captureMatches
  = Some (match multiline_pass model searcher captureMatches searchStart with
          | Some r => Some r
          | None =>
              if is_start_of_buffer searchStart then None
              else multiline_pass model searcher captureMatches
                     {| lineNumber := 1; column := 1 |}
          end).
Proof.
  intros Hd Hs. destruct depth as [|[|depth]]; try lia.
  cbn [_doFindNextMatchMultiline_rec]. unfold multiline_pass at 1, rest_of_buffer.
  cbn [lineNumber column].
  rewrite (Searcher_reset_same _ _ _ Hs).
  match goal with
  | |- context [Searcher_next ?t ?s] =>
      pose proof (Searcher_next_same t s) as Hs1; destruct (Searcher_next t s) as [[m|] s1]
  end; [reflexivity|].
  cbn [fst snd] in *. unfold is_start_of_buffer.
  destruct (lineNumber searchStart =? 1) eqn:E1; destruct (column searchStart =? 1) eqn:E2;
    cbn [negb orb andb]; try reflexivity;
    unfold multiline_pass, rest_of_buffer; cbn [lineNumber column];
    rewrite (Searcher_reset_same _ s1 searcher)
      by (eapply same_search_trans; [exact Hs1|apply same_search_reset]);
    match goal with
    | |- context [Searcher_next ?t ?s] => destruct (Searcher_next t s) as [[m|] s2]
    end; reflexivity.
Qed.


Lemma In_lines_after_cyclically lineCount start j :
  1 <= start <= lineCount -> 1 <= j <= lineCount ->
  In j (lines_after_cyclically lineCount start).
Proof.
  intros Hs Hj. unfold lines_after_cyclically. apply list_elem_of_In.
  apply elem_of_app. rewrite !elem_of_seqZ. lia.
Qed.


(** ** Searching backward *)

Lemma lastMatch_last matches : lastMatch matches = last matches.
Proof.
  unfold lastMatch, len. destruct matches as [|x l] using rev_ind; [reflexivity|].
  rewrite last_snoc, length_app. simpl.
  destruct (Z.gtb_spec (Z.of_nat (length l + 1)) 0); [|lia].
  replace (Z.to_nat (Z.of_nat (length l + 1) - 1)) with (length l) by lia.
  apply list_lookup_middle. reflexivity.
Qed.

(** The loop of [_findLastMatchInLine] keeps the last match of the scan. *)
Lemma lastMatch_loop text lineNumber captureMatches fuel :
  forall this bestResult,
    (rank text this < fuel)%nat ->
    exists l this',
      scan_text fuel text this = Some l
      /\ same_search this' this
      /\ loop (lastMatch_body text lineNumber captureMatches) fuel (this, bestResult)
         = Some (match last (match_in_line lineNumber captureMatches <$> l) with
                 | Some r => Some r
                 | None => bestResult
                 end, this').
Proof.
  induction fuel as [|fuel IH]; intros this bestResult Hr; [lia|].
  cbn [loop scan_text]. unfold lastMatch_body at 1.
  pose proof (Searcher_next_post text this) as P.
  pose proof (Searcher_next_same text this) as Hs.
  destruct (Searcher_next text this) as [[m|] this1].
  - destruct P as (_ & _ & _ & _ & R & _). simpl in R, Hs.
    fold (match_in_line lineNumber captureMatches m).
    destruct (IH this1 (Some (match_in_line lineNumber captureMatches m))
                ltac:(lia)) as (l & this' & -> & Hs' & ->).
    exists (m :: l), this'. split; [reflexivity|].
    split; [eapply same_search_trans; eassumption|].
    rewrite fmap_cons, last_cons.
    destruct (last (match_in_line lineNumber captureMatches <$> l)); reflexivity.
  - exists [], this1. repeat split; apply Hs.
Qed.

Lemma _findLastMatchInLine_spec searcher text lineNumber captureMatches :
  fst (_findLastMatchInLine searcher text lineNumber captureMatches)
  = last_match_in searcher captureMatches lineNumber text
  /\ same_search (snd (_findLastMatchInLine searcher text lineNumber captureMatches))
       searcher.
Proof.
  unfold _findLastMatchInLine, last_match_in, line_scan.
  destruct (lastMatch_loop text lineNumber captureMatches (scan_fuel text)
              (Searcher_reset 0 searcher) None (rank_bound _ _))
    as (l & this' & -> & Hs & ->).
  simpl. split.
  - destruct (last _); reflexivity.
  - eapply same_search_trans; [exact Hs|apply same_search_reset].
Qed.

Lemma _findLastMatchInLine_same a b text lineNumber captureMatches :
  same_search a b ->
  _findLastMatchInLine a text lineNumber captureMatches
  = _findLastMatchInLine b text lineNumber captureMatches.
Proof.
  intros H. unfold _findLastMatchInLine. rewrite (Searcher_reset_same _ _ _ H).
  reflexivity.
Qed.

Lemma previousMatch_for_first_some model searcher captureMatches lineCount
    startLineNumber rounds i searcher' :
  same_search searcher' searcher ->
  previousMatch_for rounds model lineCount startLineNumber captureMatches i searcher'
  = first_some (fun lineNumber =>
                  last_match_in searcher captureMatches lineNumber
                    (getLineContent model lineNumber))
      ((fun i => Z.rem (lineCount + startLineNumber - i - 1) lineCount + 1)
       <$> seqZ i (Z.of_nat rounds)).
Proof.
  revert i searcher'. induction rounds as [|rounds IH]; intros i searcher' Hs.
  - reflexivity.
  - rewrite seqZ_cons by lia. rewrite fmap_cons. cbn [previousMatch_for first_some].
    rewrite (_findLastMatchInLine_same searcher' searcher) by assumption.
    match goal with
    | |- context [_findLastMatchInLine searcher ?t ?l ?c] =>
        destruct (_findLastMatchInLine_spec searcher t l c) as [Hf Hs'];
        destruct (_findLastMatchInLine searcher t l c) as [[r|] s1]
    end; simpl in Hf, Hs'; rewrite <- Hf; [reflexivity|].
    rewrite (IH (i + 1) s1) by assumption.
    replace (Z.pred (Z.of_nat (S rounds))) with (Z.of_nat rounds) by lia.
    reflexivity.
Qed.

Lemma lookup_reverse_seqZ m k (i : nat) :
  Z.of_nat i < k -> reverse (seqZ m k) !! i = Some (m + k - 1 - Z.of_nat i).
Proof.
  intros H. rewrite reverse_lookup by (rewrite length_seqZ; lia).
  rewrite length_seqZ, lookup_seqZ_lt by lia. f_equal. lia.
Qed.

(** The lines the loop visits are the lines before the starting line,
    cyclically and backward. *)
Lemma cyclic_lines_before lineCount startLineNumber :
  1 <= startLineNumber <= lineCount ->
  (fun i => Z.rem (lineCount + startLineNumber - i - 1) lineCount + 1)
  <$> seqZ 1 lineCount
  = lines_before_cyclically lineCount startLineNumber.
Proof.
  intros H. unfold lines_before_cyclically. apply list_eq. intros i.
  rewrite list_lookup_fmap.
  destruct (Z.lt_ge_cases (Z.of_nat i) lineCount) as [Hlt|Hge].
  - rewrite lookup_seqZ_lt by assumption. simpl.
    destruct (Z.lt_ge_cases (Z.of_nat i) (startLineNumber - 1)) as [Hi|Hi].
    + rewrite lookup_app_l by (rewrite length_reverse, length_seqZ; lia).
      rewrite lookup_reverse_seqZ by assumption. f_equal.
      replace (lineCount + startLineNumber - (1 + Z.of_nat i) - 1)
        with (startLineNumber - 2 - Z.of_nat i + 1 * lineCount) by lia.
      rewrite Z.rem_mod_nonneg, Z.mod_add, Z.mod_small by lia. lia.
    + rewrite lookup_app_r by (rewrite length_reverse, length_seqZ; lia).
      rewrite length_reverse, length_seqZ.
      rewrite lookup_reverse_seqZ by lia. f_equal.
      rewrite Z.rem_small by lia. lia.
  - rewrite lookup_seqZ_ge by assumption. simpl. symmetry.
    apply lookup_ge_None.
    rewrite length_app, !length_reverse, !length_seqZ. lia.
Qed.

Lemma _doFindPreviousMatchLineByLine_spec model searchStart searcher captureMatches :
  1 <= lineNumber searchStart <= getLineCount model ->
  _doFindPreviousMatchLineByLine model searchStart searcher captureMatches
  = match last_match_in searcher captureMatches (lineNumber searchStart)
            (substring (getLineContent model (lineNumber searchStart)) 0
               (column searchStart - 1)) with
    | Some r => Some r
    | None =>
        first_some (fun lineNumber =>
                      last_match_in searcher captureMatches lineNumber
                        (getLineContent model lineNumber))
          (lines_before_cyclically (getLineCount model) (lineNumber searchStart))
    end.
Proof.
  intros H. unfold _doFindPreviousMatchLineByLine.
  match goal with
  | |- context [_findLastMatchInLine searcher ?t ?l ?c] =>
      destruct (_findLastMatchInLine_spec searcher t l c) as [Hf Hs];
      destruct (_findLastMatchInLine searcher t l c) as [[r|] s1]
  end; simpl in Hf, Hs; rewrite <- Hf; [reflexivity|].
  rewrite (previousMatch_for_first_some model searcher) by assumption.
  rewrite Z2Nat.id by lia. rewrite cyclic_lines_before by assumption. reflexivity.
Qed.

Lemma _doFindMatchesMultiline_same a b model searchRange captureMatches limitResultCount :
  same_search a b ->
  _doFindMatchesMultiline model searchRange a captureMatches limitResultCount
  = _doFindMatchesMultiline model searchRange b captureMatches limitResultCount.
Proof.
  intros H. unfold _doFindMatchesMultiline. rewrite (Searcher_reset_same _ _ _ H).
  reflexivity.
Qed.

Lemma _doFindMatchesMultiline_searcher model searchRange searcher captureMatches
    limitResultCount :
  same_search
    (snd (_doFindMatchesMultiline model searchRange searcher captureMatches
            limitResultCount))
    searcher.
Proof.
  unfold _doFindMatchesMultiline.
  destruct (loop _ _ _) as [r|] eqn:E; [|apply same_search_reset].
  revert E. apply (loop_inv _
    (fun st : Searcher * list FindMatch => same_search (fst st) searcher)
    (fun r : list FindMatch * Searcher => same_search (snd r) searcher)).
  - intros [s res] [s' res'] Hs Hb. unfold multiline_body in Hb.
    match type of Hb with
    | context [Searcher_next ?t s] =>
        pose proof (Searcher_next_same t s) as Hn; destruct (Searcher_next t s) as [[m|] s1]
    end; [|discriminate].
    destruct (_ >=? _); [discriminate|]. inversion Hb; subst.
    eapply same_search_trans; eassumption.
  - intros [s res] [res' s'] Hs Hb. unfold multiline_body in Hb.
    match type of Hb with
    | context [Searcher_next ?t s] =>
        pose proof (Searcher_next_same t s) as Hn; destruct (Searcher_next t s) as [[m|] s1]
    end.
    + destruct (_ >=? _); [|discriminate]. inversion Hb; subst.
      eapply same_search_trans; eassumption.
    + inversion Hb; subst. eapply same_search_trans; eassumption.
  - apply same_search_reset.
Qed.

(** The multiline search backward: the last of the matches collected from
    the top of the buffer to the starting position, and when there is none,
    the last of those collected over the whole buffer, unless the search
    started at its end; two nested calls are all it takes. *)
Lemma _doFindPreviousMatchMultiline_rec_spec depth model searchStart searcher searcher'
    captureMatches :
  (2 <= depth)%nat -> same_search searcher' searcher ->
  let collected (upTo : Position) :=
    fst (_doFindMatchesMultiline model
           (new_Range 1 1 (lineNumber upTo) (column upTo))
           searcher captureMatches (10 * LIMIT_FIND_COUNT)) in
  fst <$> _doFindPreviousMatchMultiline_rec depth model searchStart searcher'
            captureMatches
  = Some (match last (collected searchStart) with
          | Some r => Some r
          | None =>
              if is_end_of_buffer model searchStart then None
              else last (collected (end_of_buffer model))
          end).
Proof.
  intros Hd Hs collected. destruct depth as [|[|depth]]; try lia.
  cbn [_doFindPreviousMatchMultiline_rec]. unfold collected.
  rewrite (_doFindMatchesMultiline_same searcher' searcher) by assumption.
  match goal with
  | |- context [_doFindMatchesMultiline ?m ?r searcher ?c ?l] =>
      pose proof (_doFindMatchesMultiline_searcher m r searcher c l) as Hs1;
      destruct (_doFindMatchesMultiline m r searcher c l) as [matches s1]
  end.
  cbn [fst snd] in *. rewrite lastMatch_last.
  destruct (last matches) as [r|]; [reflexivity|].
  unfold is_end_of_buffer.
  destruct (lineNumber searchStart =? getLineCount model);
    destruct (column searchStart =? getLineMaxColumn model (getLineCount model));
    cbn [negb orb andb]; try reflexivity;
    unfold end_of_buffer; cbn [lineNumber column];
    rewrite (_doFindMatchesMultiline_same s1 searcher) by assumption;
    match goal with
    | |- context [_doFindMatchesMultiline ?m ?r searcher ?c ?l] =>
        destruct (_doFindMatchesMultiline m r searcher c l) as [matches2 s2]
    end; cbn [fst snd]; rewrite lastMatch_last;
    destruct (last matches2); rewrite ?Z.eqb_refl; reflexivity.
Qed.

Lemma multiline_pass_CRLF model searcher captureMatches searchStart found :
  EOL model = CRLF ->
  multiline_pass model searcher captureMatches searchStart = Some found ->
  crlf_report (matcher (_searchRegex searcher)) model
    (getOffsetAt model {| lineNumber := lineNumber searchStart; column := 1 |})
    (getValueInRange_LF model (rest_of_buffer model (lineNumber searchStart)))
    found.
Proof.
  intros Heol H. unfold multiline_pass in H.
  match type of H with
  | context [Searcher_next ?t ?s] =>
      pose proof (Searcher_next_post t s) as P; destruct (Searcher_next t s) as [[m|] s1]
  end; [|discriminate].
  cbn [fst snd] in *. inversion H; subst; clear H.
  destruct P as (_ & _ & _ & _ & _ & _ & _ & _ & Hi & Hmt & _).
  exists (index m), (m0 m), (groups m). split; [lia|]. split; [exact Hmt|].
  unfold createFindMatch. destruct (negb captureMatches); simpl;
    apply _getMultilineMatchRange_CRLF; (assumption || lia).
Qed.

Lemma Forall_last {A} (P : A -> Prop) (l : list A) x :
  Forall P l -> last l = Some x -> P x.
Proof.
  intros HF Hl. apply last_Some in Hl. destruct Hl as [l' ->].
  apply Forall_app in HF. destruct HF as [_ HF]. inversion HF. assumption.
Qed.

(** ** Matches in a line *)

Lemma new_Range_in_line lineNumber startColumn endColumn :
  startColumn <= endColumn ->
  new_Range lineNumber startColumn lineNumber endColumn
  = {| startLineNumber := lineNumber; startColumn := startColumn;
       endLineNumber := lineNumber; endColumn := endColumn |}.
Proof.
  intros H. unfold new_Range.
  destruct (Z.gtb_spec lineNumber lineNumber); [lia|].
  destruct (Z.gtb_spec startColumn endColumn); [lia|].
  rewrite andb_false_r. reflexivity.
Qed.

Lemma range_match_in_line lineNumber captureMatches m :
  range (match_in_line lineNumber captureMatches m)
  = {| startLineNumber := lineNumber; startColumn := index m + 1;
       endLineNumber := lineNumber; endColumn := index m + 1 + len (m0 m) |}.
Proof.
  unfold match_in_line, createFindMatch. pose proof (len_nonneg (m0 m)).
  destruct (negb captureMatches); simpl; apply new_Range_in_line; lia.
Qed.


Lemma first_some_Some {A B} (f : A -> option B) (l : list A) y :
  first_some f l = Some y -> exists x, In x l /\ f x = Some y.
Proof.
  induction l as [|a l IH]; intros H; [discriminate|]. simpl in H.
  destruct (f a) as [b|] eqn:E.
  - inversion H; subst. exists a. split; [left; reflexivity|assumption].
  - destruct (IH H) as (x & Hx & Hf). exists x. split; [right|]; assumption.
Qed.

Lemma substring_0 t e :
  0 <= e <= len t -> substring t 0 e = take (Z.to_nat e) t.
Proof.
  intros H. unfold substring.
  assert (clamp 0 (len t) 0 = 0) as -> by (unfold clamp; lia).
  assert (clamp 0 (len t) e = e) as -> by (unfold clamp; lia).
  rewrite Z.min_l, Z.max_r by lia. rewrite Z.sub_0_r. reflexivity.
Qed.

(** ** The small engine *)

Lemma literal_matcher_Some p t i a gs :
  literal_matcher p t i = Some (a, gs) ->
  a = p /\ gs = [] /\ 0 <= i <= len t /\ starts_with p (drop (Z.to_nat i) t) = true.
Proof.
  unfold literal_matcher. intros H.
  destruct (Z.leb_spec 0 i); [|discriminate].
  destruct (Z.leb_spec i (len t)); [|discriminate].
  destruct (starts_with p (drop (Z.to_nat i) t)) eqn:E; [|discriminate].
  inversion H; subst. repeat split; try lia.
Qed.

Lemma literal_matcher_literally p : matches_literally (literal_matcher p) p.
Proof.
  intros t k Hk. unfold literal_matcher.
  destruct (Z.leb_spec 0 k); [|lia]. destruct (Z.leb_spec k (len t)); [|lia].
  simpl. destruct (starts_with p (drop (Z.to_nat k) t)); auto.
Qed.

Lemma literal_matcher_inside p : matches_inside_text (literal_matcher p).
Proof.
  intros t i a gs H. apply literal_matcher_Some in H.
  destruct H as (-> & _ & Hi & Hs). apply starts_with_length in Hs.
  rewrite length_drop in Hs. unfold len in *. lia.
Qed.

(** ** Every loop returns

    The loops of the search end within the budget [scan_fuel] of the text
    they scan: the fallback of an exhausted budget is never taken. *)

Lemma multiline_loop_total model deltaOffset text captureMatches limitResultCount
    searcher result :
  is_Some (loop (multiline_body model deltaOffset text captureMatches limitResultCount)
             (scan_fuel text) (searcher, result)).
Proof.
  apply (loop_total _ (fun st => rank text (fst st))); [|apply rank_bound].
  intros [s res] [s' res'] Hb. unfold multiline_body in Hb.
  pose proof (Searcher_next_post text s) as P.
  destruct (Searcher_next text s) as [[m|] s1]; [|discriminate].
  destruct (_ >=? _); [discriminate|]. inversion Hb; subst.
  destruct P as (_ & _ & _ & _ & R & _). exact R.
Qed.

Lemma regex_loop_total text lineNumber deltaOffset captureMatches limitResultCount
    searcher result :
  is_Some (loop (regex_body text lineNumber deltaOffset captureMatches limitResultCount)
             (scan_fuel text) (searcher, result)).
Proof.
  apply (loop_total _ (fun st => rank text (fst st))); [|apply rank_bound].
  intros [s res] [s' res'] Hb. unfold regex_body in Hb.
  pose proof (Searcher_next_post text s) as P.
  destruct (Searcher_next text s) as [[m|] s1]; [|discriminate].
  destruct (_ >=? _); [discriminate|]. inversion Hb; subst.
  destruct P as (_ & _ & _ & _ & R & _). exact R.
Qed.

Lemma simple_loop_total wordSeparators text p lineNumber deltaOffset limitResultCount
    result :
  p <> [] ->
  is_Some (loop (simple_body wordSeparators text (len text) p (len p) lineNumber
                   deltaOffset limitResultCount)
             (scan_fuel text) (- len p, result)).
Proof.
  intros Hp. pose proof (len_pos p Hp) as Hlp.
  apply (loop_total _ (fun st => Z.to_nat (len text + 1 - (fst st + len p))));
    [|unfold scan_fuel, len; simpl; lia].
  intros [i res] [i' res'] Hb. unfold simple_body in Hb. cbn [fst].
  destruct (Z.eqb_spec (indexOf text p (i + len p)) (-1)) as [|Hne]; [discriminate|].
  assert (i' = indexOf text p (i + len p)) as ->
      by (destruct (accepts _ _ _ _ _); [destruct (_ >=? _)|]; congruence).
  clear Hb. revert Hne. unfold indexOf.
  set (k := clamp 0 (len text) (i + len p)).
  assert (0 <= k <= len text) as Hk by (unfold k, clamp; pose proof (len_nonneg text); lia).
  intros Hne.
  destruct (indexOf_scan_range p (drop (Z.to_nat k) text) k) as [|Hr]; [contradiction|].
  set (j := indexOf_scan p (drop (Z.to_nat k) text) k) in *.
  assert (j = k + Z.of_nat (Z.to_nat (j - k))) as Hj by lia.
  apply indexOf_scan_found in Hj; [|lia]. destruct Hj as (_ & Hs & _).
  apply starts_with_length in Hs. rewrite !length_drop in Hs.
  unfold len in Hr. rewrite length_drop in Hr.
  assert (i + len p <= len text \/ len text < i + len p) as [Hle|Hgt] by lia.
  - assert (i + len p <= k) by (unfold k, clamp; lia). unfold len in *. lia.
  - assert (k = len text) as Hkl by (unfold k, clamp; lia).
    unfold len in *. lia.
Qed.

(** ** Reading a range back *)

Lemma join_LF_cons l ls :
  ls <> [] -> join_LF (l :: ls) = l ++ CharCode.LineFeed :: join_LF ls.
Proof. destruct ls; [congruence|reflexivity]. Qed.

Lemma offsetOfLine_nonneg e ls j : 0 <= e -> 0 <= offsetOfLine e ls j.
Proof.
  intros He. revert ls. induction j as [|j IH]; intros [|l ls]; simpl; try lia.
  specialize (IH ls). pose proof (len_nonneg l). lia.
Qed.

(** Dropping the first [j] lines of the joined text. *)
Lemma drop_join_LF ls (j : nat) :
  (j < length ls)%nat ->
  drop (Z.to_nat (offsetOfLine 1 ls j)) (join_LF ls) = join_LF (drop j ls).
Proof.
  revert ls. induction j as [|j IH]; intros [|l ls] Hj; simpl in Hj; try lia.
  - reflexivity.
  - assert (ls <> []) as Hne by (destruct ls; [simpl in Hj; lia|discriminate]).
    cbn [offsetOfLine drop]. rewrite join_LF_cons by assumption.
    pose proof (offsetOfLine_nonneg 1 ls j ltac:(lia)). pose proof (len_nonneg l).
    replace (Z.to_nat (len l + 1 + offsetOfLine 1 ls j))
      with (length l + S (Z.to_nat (offsetOfLine 1 ls j)))%nat by (unfold len in *; lia).
    rewrite drop_app_add'. 1: apply IH; lia. reflexivity.
Qed.

(** Dropping characters of the first line of the joined text. *)
Lemma drop_join_LF_first l ls (c : nat) :
  (c <= length l)%nat -> drop c (join_LF (l :: ls)) = join_LF (drop c l :: ls).
Proof.
  intros Hc. destruct ls as [|l' ls]; [reflexivity|].
  rewrite !join_LF_cons by congruence. rewrite drop_app_le by assumption. reflexivity.
Qed.

(** The joined text up to character [c] of line [j]. *)
Lemma take_join_LF ls (j : nat) l (c : nat) :
  ls !! j = Some l -> (c <= length l)%nat ->
  take (Z.to_nat (offsetOfLine 1 ls j) + c) (join_LF ls)
  = join_LF (take j ls ++ [take c l]).
Proof.
  revert ls. induction j as [|j IH]; intros [|l0 ls] Hl Hc; try discriminate.
  - simpl in Hl. inversion Hl; subst. cbn [offsetOfLine take app]. simpl.
    destruct ls as [|l' ls]; [reflexivity|].
    rewrite take_app_le by assumption. reflexivity.
  - simpl in Hl. cbn [offsetOfLine take app].
    assert (ls <> []) as Hne by (intros ->; discriminate).
    rewrite join_LF_cons by assumption.
    rewrite (join_LF_cons l0) by (destruct (take j ls); discriminate).
    pose proof (offsetOfLine_nonneg 1 ls j ltac:(lia)). pose proof (len_nonneg l0).
    replace (Z.to_nat (len l0 + 1 + offsetOfLine 1 ls j) + c)%nat
      with (length l0 + S (Z.to_nat (offsetOfLine 1 ls j) + c))%nat
      by (unfold len in *; lia).
    rewrite take_app_add'. 2: reflexivity.
    cbn [take]. rewrite (IH ls) by assumption. reflexivity.
Qed.

Lemma substring_spec s a b :
  0 <= a <= b -> b <= len s ->
  substring s a b = take (Z.to_nat (b - a)) (drop (Z.to_nat a) s).
Proof.
  intros Ha Hb. unfold substring.
  assert (clamp 0 (len s) a = a) as -> by (unfold clamp; lia).
  assert (clamp 0 (len s) b = b) as -> by (unfold clamp; lia).
  rewrite Z.min_l, Z.max_r by lia. reflexivity.
Qed.

Lemma substring_from_spec s a :
  0 <= a <= len s -> substring_from s a = drop (Z.to_nat a) s.
Proof.
  intros Ha. unfold substring_from. rewrite substring_spec by lia.
  apply take_ge. rewrite length_drop. unfold len in *. lia.
Qed.

Lemma getLineContent_lookup model lineNumber :
  1 <= lineNumber <= getLineCount model ->
  lines model !! Z.to_nat (lineNumber - 1) = Some (getLineContent model lineNumber).
Proof.
  intros H. unfold getLineContent, getLineCount, len in *.
  destruct (Z.ltb_spec lineNumber 1); [lia|].
  destruct (lookup_lt_is_Some_2 (lines model) (Z.to_nat (lineNumber - 1))) as [l Hl];
    [lia|].
  rewrite Hl. reflexivity.
Qed.

Lemma offsetOfLine_app e pre post (j : nat) :
  (j <= length pre)%nat -> offsetOfLine e (pre ++ post) j = offsetOfLine e pre j.
Proof.
  revert pre. induction j as [|j IH]; intros [|l pre] Hj; simpl in *; try lia.
  - destruct post; reflexivity.
  - rewrite IH by lia. reflexivity.
Qed.

Lemma offsetOfLine_take e ls (m j : nat) :
  (j <= m)%nat -> (m <= length ls)%nat ->
  offsetOfLine e (take m ls) j = offsetOfLine e ls j.
Proof.
  intros Hj Hm. rewrite <- (take_drop m ls) at 2.
  rewrite offsetOfLine_app; [reflexivity|]. rewrite length_take. lia.
Qed.

(** The text of a range of the buffer is the part of the joined text
    between the offsets of its ends. *)
Lemma getValueInRange_LF_spec model r :
  valid_range model r ->
  getValueInRange_LF model r
  = drop (Z.to_nat (lf_offset model (getStartPosition r)))
      (take (Z.to_nat (lf_offset model (getEndPosition r))) (join_LF (lines model))).
Proof.
  intros ([Hsl Hsc] & [Hel Hec] & Hle). destruct r as [sl sc el ec].
  unfold position_le, getLineMaxColumn in *. cbn in Hsl, Hsc, Hel, Hec, Hle.
  unfold getValueInRange_LF, lf_offset.
  cbn [getStartPosition getEndPosition lineNumber column startLineNumber startColumn
       endLineNumber endColumn].
  pose proof (getLineContent_lookup model sl Hsl) as Hls.
  pose proof (getLineContent_lookup model el Hel) as Hle'.
  set (ls := lines model) in *. set (ls_ := getLineContent model sl) in *.
  set (le_ := getLineContent model el) in *.
  assert (length ls = Z.to_nat (getLineCount model)) as Hn
      by (unfold getLineCount, len; fold ls; lia).
  pose proof (offsetOfLine_nonneg 1 ls (Z.to_nat (sl - 1)) ltac:(lia)) as Hos.
  pose proof (offsetOfLine_nonneg 1 ls (Z.to_nat (el - 1)) ltac:(lia)) as Hoe.
  rewrite !Z2Nat.inj_add by lia.
  rewrite (take_join_LF ls _ le_) by (assumption || (unfold len in *; lia)).
  set (X := take (Z.to_nat (el - 1)) ls ++ [take (Z.to_nat (ec - 1)) le_]).
  assert (length X = Z.to_nat el) as HX
      by (unfold X; rewrite length_app, length_take; simpl; lia).
  rewrite <- drop_drop.
  assert (offsetOfLine 1 ls (Z.to_nat (sl - 1)) = offsetOfLine 1 X (Z.to_nat (sl - 1)))
    as ->.
  { unfold X. rewrite offsetOfLine_app by (rewrite length_take; lia).
    rewrite offsetOfLine_take by lia. reflexivity. }
  rewrite drop_join_LF by lia.
  destruct (Z.eqb_spec sl el) as [->|Hne].
  - unfold X. rewrite drop_app_length'. 2: rewrite length_take; lia.
    simpl (join_LF [_]). subst ls_ le_. set (l := getLineContent model el) in *.
    rewrite substring_spec by lia.
    replace (Z.to_nat (ec - 1)) with (Z.to_nat (sc - 1) + Z.to_nat (ec - 1 - (sc - 1)))%nat
      by lia.
    rewrite <- take_drop_commute. reflexivity.
  - assert (sl < el) as Hlt by lia.
    unfold X. rewrite drop_app_le by (rewrite length_take; lia).
    rewrite (drop_S _ ls_ (Z.to_nat (sl - 1))).
    2:{ rewrite lookup_take_lt by lia. exact Hls. }
    rewrite <- app_comm_cons. rewrite drop_join_LF_first by (unfold len in *; lia).
    rewrite substring_from_spec, substring_0 by lia.
    unfold linesBetween. fold ls. do 3 f_equal.
    rewrite take_drop_commute. do 2 f_equal; lia.
Qed.

Lemma count_line_feeds_app a b :
  count_line_feeds (a ++ b) = count_line_feeds a + count_line_feeds b.
Proof.
  unfold count_line_feeds, len. rewrite filter_app, length_app. lia.
Qed.

Lemma count_line_feeds_cons c s :
  count_line_feeds (c :: s)
  = (if c =? CharCode.LineFeed then 1 else 0) + count_line_feeds s.
Proof.
  unfold count_line_feeds, len. rewrite filter_cons.
  destruct (Z.eqb_spec c CharCode.LineFeed).
  - rewrite decide_True by assumption. simpl. lia.
  - rewrite decide_False by assumption. lia.
Qed.

Lemma count_line_feeds_none s :
  ~ In CharCode.LineFeed s -> count_line_feeds s = 0.
Proof.
  induction s as [|c s IH]; intros H; [reflexivity|].
  rewrite count_line_feeds_cons.
  destruct (Z.eqb_spec c CharCode.LineFeed) as [->|_]; [exfalso; apply H; left; reflexivity|].
  rewrite IH; [reflexivity|]. intros Hin. apply H. right. exact Hin.
Qed.

Lemma not_In_take {A} (x : A) n l : ~ In x l -> ~ In x (take n l).
Proof.
  intros H Hin. apply H. rewrite <- (take_drop n l). apply in_or_app. left. exact Hin.
Qed.

Lemma len_join_LF_cons l ls :
  ls <> [] -> len (join_LF (l :: ls)) = len l + 1 + len (join_LF ls).
Proof.
  intros H. rewrite join_LF_cons by assumption. unfold len.
  rewrite length_app. simpl. lia.
Qed.

Lemma positionAt_cons e l ls lineNumber offset :
  ls <> [] ->
  positionAt e (l :: ls) lineNumber offset
  = if offset <? len l + e
    then {| lineNumber := lineNumber; column := Z.min (offset + 1) (len l + 1) |}
    else positionAt e ls (lineNumber + 1) (offset - (len l + e)).
Proof. destruct ls; [congruence|reflexivity]. Qed.

(** In a buffer whose lines have no line feed, an offset of the joined
    text and the same offset with one more character for every line feed
    before it are the same position, the first read with line ends of one
    character and the second with line ends of two. *)
Lemma positionAt_CRLF ls lineNumber k :
  ls <> [] -> Forall (fun l => ~ In CharCode.LineFeed l) ls ->
  0 <= k <= len (join_LF ls) ->
  positionAt 2 ls lineNumber
    (k + count_line_feeds (take (Z.to_nat k) (join_LF ls)))
  = positionAt 1 ls lineNumber k.
Proof.
  intros Hne HF. revert lineNumber k Hne.
  induction HF as [|l ls Hl HF IH]; intros lineNumber k Hne Hk; [congruence|].
  destruct ls as [|l' ls].
  - simpl. simpl in Hk.
    rewrite count_line_feeds_none by (apply not_In_take; assumption).
    rewrite Z.add_0_r. reflexivity.
  - rewrite !(positionAt_cons _ l) by congruence.
    rewrite len_join_LF_cons in Hk by congruence.
    rewrite join_LF_cons by congruence.
    pose proof (len_nonneg l) as Hll. pose proof (len_nonneg (join_LF (l' :: ls))).
    destruct (Z.ltb_spec k (len l + 1)) as [Hlt|Hge].
    + rewrite take_app_le by (unfold len in *; lia).
      rewrite count_line_feeds_none by (apply not_In_take; assumption).
      rewrite Z.add_0_r.
      destruct (Z.ltb_spec k (len l + 2)); [reflexivity|lia].
    + replace (Z.to_nat k) with (length l + S (Z.to_nat (k - (len l + 1))))%nat
        by (unfold len in *; lia).
      rewrite take_app_add'. 2: reflexivity.
      cbn [take]. rewrite count_line_feeds_app, count_line_feeds_cons.
      rewrite count_line_feeds_none by assumption.
      change (CharCode.LineFeed =? CharCode.LineFeed) with true. cbn iota.
      set (c := count_line_feeds _).
      assert (0 <= c) as Hc by (unfold c, count_line_feeds; apply len_nonneg).
      destruct (Z.ltb_spec (k + (0 + (1 + c))) (len l + 2)); [lia|].
      rewrite <- (IH (lineNumber + 1) (k - (len l + 1))) by (congruence || lia).
      f_equal. fold c. lia.
Qed.

(** The position of an offset of the joined text lies in the buffer and
    has that offset. *)
Lemma positionAt_offset ls lineNumber0 k :
  ls <> [] -> 0 <= k <= len (join_LF ls) ->
  exists (j : nat) l,
    lineNumber (positionAt 1 ls lineNumber0 k) = lineNumber0 + Z.of_nat j
    /\ ls !! j = Some l
    /\ 1 <= column (positionAt 1 ls lineNumber0 k) <= len l + 1
    /\ offsetOfLine 1 ls j + (column (positionAt 1 ls lineNumber0 k) - 1) = k.
Proof.
  revert lineNumber0 k. induction ls as [|l ls IH]; intros lineNumber0 k Hne Hk;
    [congruence|].
  destruct ls as [|l' ls].
  - simpl in *. exists O, l. simpl. repeat split; lia.
  - rewrite positionAt_cons by congruence.
    rewrite len_join_LF_cons in Hk by congruence.
    pose proof (len_nonneg l).
    destruct (Z.ltb_spec k (len l + 1)).
    + exists O, l. simpl. repeat split; lia.
    + destruct (IH (lineNumber0 + 1) (k - (len l + 1)) ltac:(congruence) ltac:(lia))
        as (j & lj & Hline & Hlook & Hcol & Hoff).
      exists (S j), lj. rewrite Hline.
      change (offsetOfLine 1 (l :: l' :: ls) (S j))
        with (len l + 1 + offsetOfLine 1 (l' :: ls) j).
      repeat split; try assumption; lia.
Qed.

Lemma positionAt_line_ge e ls lineNumber0 k :
  lineNumber0 <= lineNumber (positionAt e ls lineNumber0 k).
Proof.
  revert lineNumber0 k. induction ls as [|l ls IH]; intros lineNumber0 k; simpl; [lia|].
  destruct ls as [|l' ls]; [simpl; lia|].
  destruct (_ <? _); [simpl; lia|]. specialize (IH (lineNumber0 + 1) (k - (len l + e))).
  lia.
Qed.

Lemma positionAt_mono ls lineNumber0 a b :
  a <= b ->
  position_le (positionAt 1 ls lineNumber0 a) (positionAt 1 ls lineNumber0 b).
Proof.
  revert lineNumber0 a b. induction ls as [|l ls IH]; intros lineNumber0 a b Hab.
  - right. simpl. lia.
  - destruct ls as [|l' ls].
    + right. simpl. lia.
    + rewrite !(positionAt_cons _ l) by congruence.
      destruct (Z.ltb_spec a (len l + 1)); destruct (Z.ltb_spec b (len l + 1)).
      * right. simpl. lia.
      * left. cbn [lineNumber].
        pose proof (positionAt_line_ge 1 (l' :: ls) (lineNumber0 + 1) (b - (len l + 1))).
        lia.
      * lia.
      * apply IH. lia.
Qed.

Lemma offset_le_len ls (j : nat) l c :
  ls !! j = Some l -> 0 <= c <= len l ->
  offsetOfLine 1 ls j + c <= len (join_LF ls).
Proof.
  revert ls. induction j as [|j IH]; intros [|l0 ls] Hl Hc; try discriminate.
  - simpl in Hl. inversion Hl; subst. cbn [offsetOfLine].
    destruct ls as [|l' ls]; [simpl; lia|].
    rewrite len_join_LF_cons by congruence. pose proof (len_nonneg (join_LF (l' :: ls))).
    lia.
  - simpl in Hl. cbn [offsetOfLine].
    assert (ls <> []) as Hne by (intros ->; discriminate).
    rewrite len_join_LF_cons by assumption. specialize (IH ls Hl Hc). lia.
Qed.

Lemma count_line_feeds_join ls :
  ls <> [] -> Forall (fun l => ~ In CharCode.LineFeed l) ls ->
  count_line_feeds (join_LF ls) = len ls - 1.
Proof.
  intros Hne HF. induction HF as [|l ls Hl HF IH]; [congruence|].
  destruct ls as [|l' ls].
  - simpl. rewrite count_line_feeds_none by assumption. reflexivity.
  - rewrite join_LF_cons by congruence.
    rewrite count_line_feeds_app, count_line_feeds_cons, IH by congruence.
    rewrite count_line_feeds_none by assumption.
    change (CharCode.LineFeed =? CharCode.LineFeed) with true. unfold len. simpl. lia.
Qed.

Lemma offsetOfLine_CRLF ls (j : nat) :
  (j <= length ls)%nat -> offsetOfLine 2 ls j = offsetOfLine 1 ls j + Z.of_nat j.
Proof.
  revert ls. induction j as [|j IH]; intros [|l ls] Hj; simpl in *; try lia.
  rewrite IH by lia. lia.
Qed.

(** In a buffer with CRLF line ends, the offset of a position is its
    offset in the joined text and one more character for every line feed
    before it. *)
Lemma getOffsetAt_CRLF model position :
  EOL model = CRLF -> well_formed_buffer model -> valid_position model position ->
  getOffsetAt model position
  = lf_offset model position
    + count_line_feeds (take (Z.to_nat (lf_offset model position))
                          (join_LF (lines model))).
Proof.
  intros Heol [Hne HF] [Hline Hcol]. unfold getOffsetAt, lf_offset, eolLength.
  rewrite Heol. unfold getLineMaxColumn in Hcol.
  pose proof (getLineContent_lookup model _ Hline) as Hl.
  set (l := getLineContent model (lineNumber position)) in *.
  set (j := Z.to_nat (lineNumber position - 1)) in *.
  pose proof (offsetOfLine_nonneg 1 (lines model) j ltac:(lia)).
  rewrite Z2Nat.inj_add by lia.
  rewrite (take_join_LF _ _ l) by (assumption || (unfold len in *; lia)).
  rewrite count_line_feeds_join.
  - unfold getLineCount, len in *. rewrite length_app, length_take. simpl.
    rewrite offsetOfLine_CRLF by lia. lia.
  - destruct (take j (lines model)); discriminate.
  - apply Forall_app. split.
    + apply Forall_take. assumption.
    + constructor; [|constructor]. apply not_In_take.
      eapply (proj1 (Forall_forall _ _) HF). apply list_elem_of_lookup. eauto.
Qed.

Lemma offsetOfLine_next ls (j j' : nat) l :
  ls !! j = Some l -> (j < j')%nat -> (j' <= length ls)%nat ->
  offsetOfLine 1 ls j + len l + 1 <= offsetOfLine 1 ls j'.
Proof.
  revert ls j'. induction j as [|j IH]; intros [|l0 ls] [|j'] Hl Hlt Hle;
    try discriminate; try lia; simpl in Hl, Hle.
  - inversion Hl; subst. cbn [offsetOfLine].
    pose proof (offsetOfLine_nonneg 1 ls j' ltac:(lia)). lia.
  - cbn [offsetOfLine]. specialize (IH ls j' Hl ltac:(lia) ltac:(lia)). lia.
Qed.

Lemma lf_offset_mono model p q :
  valid_position model p -> valid_position model q -> position_le p q ->
  lf_offset model p <= lf_offset model q.
Proof.
  intros [Hpl Hpc] [Hql Hqc] Hle. unfold lf_offset.
  unfold getLineMaxColumn in *. destruct Hle as [Hlt|[Heq Hc]].
  - pose proof (offsetOfLine_next (lines model) (Z.to_nat (lineNumber p - 1))
                  (Z.to_nat (lineNumber q - 1)) _
                  (getLineContent_lookup model _ Hpl) ltac:(lia)
                  ltac:(unfold getLineCount, len in *; lia)).
    lia.
  - rewrite Heq. lia.
Qed.

Lemma lf_offset_bounds model p :
  valid_position model p ->
  0 <= lf_offset model p <= len (join_LF (lines model)).
Proof.
  intros [Hl Hc]. unfold lf_offset, getLineMaxColumn in *. split.
  - pose proof (offsetOfLine_nonneg 1 (lines model)
                  (Z.to_nat (lineNumber p - 1)) ltac:(lia)). lia.
  - apply (offset_le_len _ _ _ _ (getLineContent_lookup model _ Hl)). lia.
Qed.

(** The position of an offset [k] of the joined text is a position of the
    buffer, and its offset in the joined text is [k]. *)
Lemma positionAt_valid model k :
  lines model <> [] -> 0 <= k <= len (join_LF (lines model)) ->
  valid_position model (positionAt 1 (lines model) 1 k)
  /\ lf_offset model (positionAt 1 (lines model) 1 k) = k.
Proof.
  intros Hne Hk.
  destruct (positionAt_offset (lines model) 1 k Hne Hk)
    as (j & l & Hline & Hlook & Hcol & Hoff).
  pose proof (lookup_lt_Some _ _ _ Hlook) as Hj.
  assert (Z.to_nat (lineNumber (positionAt 1 (lines model) 1 k) - 1) = j) as Hj'
    by lia.
  assert (getLineContent model (lineNumber (positionAt 1 (lines model) 1 k)) = l)
    as Hcontent.
  { unfold getLineContent. destruct (Z.ltb_spec (lineNumber (positionAt 1 (lines model) 1 k)) 1);
      [lia|]. rewrite Hj', Hlook. reflexivity. }
  split.
  - split; [unfold getLineCount, len; lia|].
    unfold getLineMaxColumn. rewrite Hcontent. exact Hcol.
  - unfold lf_offset. rewrite Hj'. exact Hoff.
Qed.

Lemma new_Range_ordered p q :
  position_le p q ->
  new_Range (lineNumber p) (column p) (lineNumber q) (column q)
  = {| startLineNumber := lineNumber p; startColumn := column p;
       endLineNumber := lineNumber q; endColumn := column q |}.
Proof.
  intros Hle. unfold new_Range.
  destruct (Z.gtb_spec (lineNumber p) (lineNumber q));
    destruct (Z.eqb_spec (lineNumber p) (lineNumber q));
    destruct (Z.gtb_spec (column p) (column q)); simpl; try reflexivity;
    destruct Hle as [?|[? ?]]; lia.
Qed.

Lemma count_line_feeds_take_drop (T : jsstring) (a i : nat) :
  count_line_feeds (take (a + i) T)
  = count_line_feeds (take a T) + count_line_feeds (take i (drop a T)).
Proof. rewrite <- count_line_feeds_app, take_take_drop. reflexivity. Qed.

Lemma count_line_feeds_nonneg s : 0 <= count_line_feeds s.
Proof. apply len_nonneg. Qed.

Lemma take_drop_take (T : jsstring) (nS nE n i : nat) :
  (nS + i + n <= nE)%nat ->
  take n (drop i (drop nS (take nE T))) = take n (drop (nS + i) T).
Proof.
  intros H. rewrite drop_drop, !take_drop_commute, take_take.
  do 2 f_equal. lia.
Qed.

(** The range [_getMultilineMatchRange] gives for a match at index [idx] of
    the text of a range is a range of the buffer: it starts [idx] characters
    of the joined text behind the start of the searched range, and it is as
    long as the match. *)
Lemma _getMultilineMatchRange_offsets model r idx match0 :
  well_formed_buffer model -> valid_range model r ->
  0 <= idx -> idx + len match0 <= len (getValueInRange_LF model r) ->
  let found :=
    _getMultilineMatchRange model (getOffsetAt model (getStartPosition r))
      (getValueInRange_LF model r) idx match0 in
  valid_range model found
  /\ lf_offset model (getStartPosition found)
     = lf_offset model (getStartPosition r) + idx
  /\ lf_offset model (getEndPosition found)
     = lf_offset model (getStartPosition r) + idx + len match0.
Proof.
  intros Hwf Hr Hidx Hlen found. set (text := getValueInRange_LF model r) in *.
  pose proof Hwf as [Hne HF]. pose proof Hr as (Hs & He & Hle).
  pose proof (lf_offset_bounds model _ Hs) as HoS.
  pose proof (lf_offset_bounds model _ He) as HoE.
  pose proof (lf_offset_mono model _ _ Hs He Hle) as HoSE.
  pose proof (getValueInRange_LF_spec model r Hr) as Htext. fold text in Htext, Hlen.
  set (T := join_LF (lines model)) in *.
  set (oS := lf_offset model (getStartPosition r)) in *.
  set (oE := lf_offset model (getEndPosition r)) in *.
  pose proof (len_nonneg match0) as Hm0.
  assert (len text = oE - oS) as Hlt.
  { rewrite Htext. unfold len in *. rewrite length_drop, length_take. lia. }
  set (nS := Z.to_nat oS). set (nE := Z.to_nat oE). set (ni := Z.to_nat idx).
  set (nm := length match0).
  assert (nS + ni + nm <= nE)%nat as Hn by (unfold len in *; lia).
  fold nS nE in Htext.
  assert (take ni text = take ni (drop (nS + 0) T)) as Ht1.
  { rewrite Htext. apply (take_drop_take T nS nE ni 0). lia. }
  assert (take nm (drop ni text) = take nm (drop (nS + ni) T)) as Ht2.
  { rewrite Htext. apply (take_drop_take T nS nE nm ni). lia. }
  rewrite Nat.add_0_r in Ht1.
  set (a := oS + idx). set (b := a + len match0).
  assert (Z.to_nat a = (nS + ni)%nat) as Ha by lia.
  assert (Z.to_nat b = (nS + ni + nm)%nat) as Hb by (unfold len in *; lia).
  set (Pa := positionAt 1 (lines model) 1 a).
  set (Pb := positionAt 1 (lines model) 1 b).
  assert (found = new_Range (lineNumber Pa) (column Pa) (lineNumber Pb) (column Pb))
    as Hfound.
  { unfold found, _getMultilineMatchRange, multilineStartOffset, multilineEndOffset,
      getPositionAt, eolLength.
    destruct (EOL model) eqn:Heol.
    - assert (getOffsetAt model (getStartPosition r) = oS) as ->
        by (unfold getOffsetAt, eolLength, oS, lf_offset; rewrite Heol; reflexivity).
      rewrite !Z.max_r by (unfold len in *; lia). reflexivity.
    - rewrite (getOffsetAt_CRLF model _ Heol Hwf Hs). fold T oS nS.
      assert (lineFeedCount (Z.to_nat idx) text 0 = count_line_feeds (take ni text))
        as -> by apply (lineFeedCount_spec _ _ O).
      assert (lineFeedCount (length match0) text idx
              = count_line_feeds (take nm (drop ni text))) as ->
        by (rewrite <- (Z2Nat.id idx) at 1 by assumption; apply lineFeedCount_spec).
      rewrite Ht1, Ht2.
      pose proof (count_line_feeds_take_drop T nS ni) as Hc1.
      pose proof (count_line_feeds_take_drop T (nS + ni) nm) as Hc2.
      pose proof (count_line_feeds_nonneg (take nS T)).
      pose proof (count_line_feeds_nonneg (take ni (drop nS T))).
      pose proof (count_line_feeds_nonneg (take nm (drop (nS + ni) T))).
      rewrite !Z.max_r by (unfold len in *; lia).
      replace (oS + count_line_feeds (take nS T) + idx
               + count_line_feeds (take ni (drop nS T)))
        with (a + count_line_feeds (take (Z.to_nat a) T))
        by (rewrite Ha, Hc1; unfold a; lia).
      replace (a + count_line_feeds (take (Z.to_nat a) T) + len match0
               + count_line_feeds (take nm (drop (nS + ni) T)))
        with (b + count_line_feeds (take (Z.to_nat b) T))
        by (rewrite Ha, Hb, Hc2; unfold b; lia).
      unfold T. rewrite !positionAt_CRLF by (assumption || (fold T; unfold len in *; lia)).
      reflexivity. }
  destruct (positionAt_valid model a Hne ltac:(fold T; unfold len in *; lia))
    as [HPa HoPa].
  destruct (positionAt_valid model b Hne ltac:(fold T; unfold len in *; lia))
    as [HPb HoPb].
  fold Pa in HPa, HoPa. fold Pb in HPb, HoPb.
  assert (position_le Pa Pb) as HPle by (apply positionAt_mono; unfold b; lia).
  rewrite (new_Range_ordered _ _ HPle) in Hfound.
  assert (getStartPosition found = Pa) as HfS
    by (rewrite Hfound; destruct Pa; reflexivity).
  assert (getEndPosition found = Pb) as HfE
    by (rewrite Hfound; destruct Pb; reflexivity).
  assert (valid_range model found) as Hvalid.
  { unfold valid_range. rewrite HfS, HfE. auto. }
  split; [exact Hvalid|]. rewrite HfS, HfE, HoPa, HoPb. unfold a, b, a. split; reflexivity.
Qed.

(** No drift: for a buffer of either end-of-line style, the range
    [_getMultilineMatchRange] gives for a match at index [idx] of the text
    of a range is a range of the buffer, and the text of the buffer in it is
    the part of the searched text from [idx] on that is as long as the
    match. *)
Theorem _getMultilineMatchRange_reads_back model r idx match0 :
  well_formed_buffer model -> valid_range model r ->
  0 <= idx -> idx + len match0 <= len (getValueInRange_LF model r) ->
  let text := getValueInRange_LF model r in
  let found :=
    _getMultilineMatchRange model (getOffsetAt model (getStartPosition r)) text idx
      match0 in
  valid_range model found
  /\ getValueInRange_LF model found
     = take (length match0) (drop (Z.to_nat idx) text).
Proof.
  intros Hwf Hr Hidx Hlen text found.
  destruct (_getMultilineMatchRange_offsets model r idx match0 Hwf Hr Hidx Hlen)
    as (Hvalid & HoS & HoE).
  fold text in Hvalid, HoS, HoE, Hlen. fold found in Hvalid, HoS, HoE.
  split; [exact Hvalid|].
  pose proof Hr as (Hs & He & Hle).
  pose proof (lf_offset_bounds model _ Hs) as HbS.
  pose proof (lf_offset_bounds model _ He) as HbE.
  pose proof (lf_offset_mono model _ _ Hs He Hle) as HoSE.
  pose proof (getValueInRange_LF_spec model r Hr) as Htext. fold text in Htext.
  pose proof (len_nonneg match0) as Hm0.
  assert (len text = lf_offset model (getEndPosition r)
                     - lf_offset model (getStartPosition r)) as Hlt.
  { rewrite Htext. unfold len in *. rewrite length_drop, length_take. lia. }
  rewrite (getValueInRange_LF_spec model found Hvalid), HoS, HoE.
  rewrite Htext.
  rewrite (take_drop_take _ (Z.to_nat (lf_offset model (getStartPosition r)))
             (Z.to_nat (lf_offset model (getEndPosition r))) (length match0)
             (Z.to_nat idx)) by (unfold len in *; lia).
  rewrite take_drop_commute. f_equal; [|f_equal]; unfold len; lia.
Qed.

(** ** What a search reports when no limit stops it *)

(** The regex search of a piece adds, to the matches found so far, the
    matches the searcher returns call after call, up to the limit and at
    least the first of them. *)
Lemma regex_loop_items text lineNumber deltaOffset captureMatches limitResultCount fuel :
  forall this result,
    (rank text this < fuel)%nat ->
    exists l,
      scan_text fuel text this = Some l
      /\ loop (regex_body text lineNumber deltaOffset captureMatches limitResultCount)
           fuel (this, result)
         = Some (result
                 ++ take (Z.to_nat (Z.max 1 (limitResultCount - len result)))
                      (regex_report lineNumber deltaOffset captureMatches <$> l)).
Proof.
  induction fuel as [|fuel IH]; intros this result Hr; [lia|].
  cbn [loop scan_text]. unfold regex_body at 1.
  pose proof (Searcher_next_post text this) as P.
  destruct (Searcher_next text this) as [[m|] this1].
  - destruct P as (_ & _ & _ & _ & R & _). simpl in R.
    fold (regex_report lineNumber deltaOffset captureMatches m).
    destruct (IH this1 (result ++ [regex_report lineNumber deltaOffset captureMatches m])
                ltac:(lia)) as (l & -> & Hl).
    exists (m :: l). split; [reflexivity|]. rewrite fmap_cons, len_app_one.
    destruct (len result + 1 >=? limitResultCount) eqn:Hge.
    + apply Z.geb_le in Hge.
      replace (Z.to_nat (Z.max 1 (limitResultCount - len result))) with 1%nat by lia.
      simpl. rewrite take_0. reflexivity.
    + apply geb_false in Hge. rewrite Hl, len_app_one, <- app_assoc. do 2 f_equal.
      replace (Z.to_nat (Z.max 1 (limitResultCount - len result)))
        with (S (Z.to_nat (Z.max 1 (limitResultCount - (len result + 1))))) by lia.
      reflexivity.
  - exists []. split; [reflexivity|]. simpl. rewrite take_nil, app_nil_r. reflexivity.
Qed.

(** The multiline search does the same with the matches in the joined
    text. *)
Lemma multiline_loop_items model deltaOffset text captureMatches limitResultCount fuel :
  forall this result,
    (rank text this < fuel)%nat ->
    exists l,
      scan_text fuel text this = Some l
      /\ fst <$> loop (multiline_body model deltaOffset text captureMatches
                         limitResultCount) fuel (this, result)
         = Some (result
                 ++ take (Z.to_nat (Z.max 1 (limitResultCount - len result)))
                      (multiline_report model deltaOffset text captureMatches <$> l)).
Proof.
  induction fuel as [|fuel IH]; intros this result Hr; [lia|].
  cbn [loop scan_text]. unfold multiline_body at 1.
  pose proof (Searcher_next_post text this) as P.
  destruct (Searcher_next text this) as [[m|] this1].
  - destruct P as (_ & _ & _ & _ & R & _). simpl in R.
    fold (multiline_report model deltaOffset text captureMatches m).
    destruct (IH this1
                (result ++ [multiline_report model deltaOffset text captureMatches m])
                ltac:(lia)) as (l & -> & Hl).
    exists (m :: l). split; [reflexivity|]. rewrite fmap_cons, len_app_one.
    destruct (len result + 1 >=? limitResultCount) eqn:Hge.
    + apply Z.geb_le in Hge.
      replace (Z.to_nat (Z.max 1 (limitResultCount - len result))) with 1%nat by lia.
      simpl. rewrite take_0. reflexivity.
    + apply geb_false in Hge. rewrite Hl, len_app_one, <- app_assoc. do 2 f_equal.
      replace (Z.to_nat (Z.max 1 (limitResultCount - len result)))
        with (S (Z.to_nat (Z.max 1 (limitResultCount - (len result + 1))))) by lia.
      reflexivity.
  - exists []. split; [reflexivity|]. simpl. rewrite take_nil, app_nil_r. reflexivity.
Qed.

Lemma _doFindMatchesMultiline_items model searchRange searcher captureMatches
    limitResultCount :
  fst (_doFindMatchesMultiline model searchRange searcher captureMatches
         limitResultCount)
  = take (Z.to_nat (Z.max 1 limitResultCount))
      (multiline_reports model searchRange searcher captureMatches).
Proof.
  unfold _doFindMatchesMultiline, multiline_reports, line_scan.
  destruct (multiline_loop_items model (getOffsetAt model (getStartPosition searchRange))
              (getValueInRange_LF model searchRange) captureMatches limitResultCount
              (scan_fuel (getValueInRange_LF model searchRange))
              (Searcher_reset 0 searcher) [] (rank_bound _ _)) as (l & -> & Hl).
  destruct (loop _ _ _) as [r|]; [|discriminate]. simpl in Hl.
  injection Hl as Hl. rewrite Hl. change (len (@nil FindMatch)) with 0.
  rewrite Z.sub_0_r. reflexivity.
Qed.

(** The literal search of a piece: from index [k] on it adds the accepted
    occurrences of [p], one after the other, up to the limit. *)
Lemma simple_loop_items wordSeparators p t lineNumber deltaOffset limitResultCount :
  p <> [] ->
  forall fuel k result,
    0 <= k -> (Z.to_nat (len t - k) < fuel)%nat ->
    loop (simple_body wordSeparators t (len t) p (len p) lineNumber deltaOffset
            limitResultCount)
      fuel (k - len p, result)
    = Some (result
            ++ take (Z.to_nat (Z.max 1 (limitResultCount - len result)))
                 (simple_report p lineNumber deltaOffset
                  <$> accepted_occurrences wordSeparators p t k)).
Proof.
  intros Hp. pose proof (len_pos p Hp) as Hlp.
  induction fuel as [|fuel IH]; intros k result Hk Hfuel; [lia|].
  cbn [loop]. unfold simple_body at 1. unfold accepted_occurrences.
  replace (k - len p + len p) with k by lia.
  rewrite (occurrences_indexOf p t k Hp Hk).
  destruct (Z.eqb_spec (indexOf t p k) (-1)) as [|Hne].
  { rewrite filter_nil, fmap_nil, take_nil, app_nil_r. reflexivity. }
  destruct (indexOf_bounds t p k Hp Hk Hne) as [Hi1 Hi2].
  rewrite filter_cons.
  specialize (IH (indexOf t p k + len p)).
  replace (indexOf t p k + len p - len p) with (indexOf t p k) in IH by lia.
  unfold accepted_occurrences in IH.
  destruct (accepts wordSeparators t (len t) (indexOf t p k) (len p)) eqn:Hacc.
  - rewrite decide_True by reflexivity. rewrite fmap_cons.
    fold (simple_report p lineNumber deltaOffset (indexOf t p k)).
    rewrite len_app_one.
    destruct (len result + 1 >=? limitResultCount) eqn:Hge.
    + apply Z.geb_le in Hge.
      replace (Z.to_nat (Z.max 1 (limitResultCount - len result))) with 1%nat by lia.
      simpl. rewrite take_0. reflexivity.
    + apply geb_false in Hge. rewrite IH by lia.
      rewrite len_app_one, <- app_assoc. do 2 f_equal.
      replace (Z.to_nat (Z.max 1 (limitResultCount - len result)))
        with (S (Z.to_nat (Z.max 1 (limitResultCount - (len result + 1))))) by lia.
      reflexivity.
  - rewrite decide_False by discriminate. rewrite IH by lia. reflexivity.
Qed.

Lemma simpleSearch_of_Some searchData p :
  simpleSearch_of searchData = Some p ->
  SearchData.simpleSearch searchData = Some p /\ p <> [].
Proof.
  unfold simpleSearch_of. destruct (SearchData.simpleSearch searchData) as [s|];
    [|discriminate].
  destruct s; simpl; [discriminate|]. intros H. inversion H; subst. split; congruence.
Qed.

(** The search of one piece adds what the piece holds, up to the limit
    and at least the first report. *)
Lemma _findMatchesInLine_items searchData text lineNumber deltaOffset result
    captureMatches limitResultCount :
  _findMatchesInLine searchData text lineNumber deltaOffset result captureMatches
    limitResultCount
  = result
    ++ take (Z.to_nat (Z.max 1 (limitResultCount - len result)))
         (piece_reports searchData captureMatches (lineNumber, deltaOffset, text)).
Proof.
  unfold _findMatchesInLine, piece_reports. cbn [fst snd].
  destruct (if negb captureMatches then simpleSearch_of searchData else None)
    as [p|] eqn:Hpath.
  - assert (p <> []) as Hp.
    { destruct (negb captureMatches); [|discriminate].
      apply simpleSearch_of_Some in Hpath. tauto. }
    pose proof (simple_loop_items (SearchData.wordSeparators searchData) p text
                  lineNumber deltaOffset limitResultCount Hp (scan_fuel text) 0 result
                  ltac:(lia) ltac:(unfold scan_fuel, len; lia)) as H.
    rewrite Z.sub_0_l in H. rewrite H. reflexivity.
  - unfold line_scan.
    destruct (regex_loop_items text lineNumber deltaOffset captureMatches
                limitResultCount (scan_fuel text)
                (Searcher_reset 0 (new_Searcher (SearchData.wordSeparators searchData)
                                     (SearchData.regex searchData)))
                result (rank_bound _ _)) as (l & -> & ->).
    reflexivity.
Qed.

Lemma piece_within_limit searchData captureMatches limitResultCount text lineNumber
    deltaOffset result :
  len result < limitResultCount ->
  _findMatchesInLine searchData text lineNumber deltaOffset result captureMatches
    limitResultCount
  = result ++ take (Z.to_nat (limitResultCount - len result))
                (piece_reports searchData captureMatches (lineNumber, deltaOffset, text)).
Proof.
  intros H. rewrite _findMatchesInLine_items, Z.max_r by lia. reflexivity.
Qed.

Lemma middleLines_items model searchData captureMatches limitResultCount searchRange
    rounds lineNumber result pieces :
  ((0 < rounds)%nat -> lineNumber + Z.of_nat rounds <= endLineNumber searchRange) ->
  len result <= limitResultCount ->
  middleLines rounds model searchRange searchData captureMatches limitResultCount
    lineNumber
    (result ++ take (Z.to_nat (limitResultCount - len result)) pieces)
  = result
    ++ take (Z.to_nat (limitResultCount - len result))
         (pieces ++ concat (piece_reports searchData captureMatches
                            <$> whole_lines rounds model lineNumber)).
Proof.
  revert lineNumber pieces. induction rounds as [|rounds IH];
    intros lineNumber pieces Hend Hlen.
  - simpl. rewrite app_nil_r. reflexivity.
  - cbn [middleLines whole_lines]. rewrite fmap_cons, concat_cons.
    destruct (Z.ltb_spec lineNumber (endLineNumber searchRange)); [|lia].
    cbn [andb].
    set (acc := result ++ take (Z.to_nat (limitResultCount - len result)) pieces).
    destruct (Z.ltb_spec (len acc) limitResultCount) as [Hlt|Hge].
    + rewrite piece_within_limit by assumption. unfold acc.
      rewrite take_take_app, IH by lia. rewrite <- app_assoc. reflexivity.
    + unfold acc in *. f_equal. rewrite !take_app.
      assert (Z.to_nat (limitResultCount - len result) <= length pieces)%nat as Hl.
      { unfold len in *. rewrite length_app, length_take in Hge. lia. }
      replace (Z.to_nat (limitResultCount - len result) - length pieces)%nat
        with O by lia.
      rewrite take_0, app_nil_r. reflexivity.
Qed.

(** The line-by-line search of a range reports what its pieces hold, piece
    after piece, up to the limit. *)
Lemma _doFindMatchesLineByLine_items model searchRange searchData captureMatches
    limitResultCount :
  1 <= limitResultCount ->
  _doFindMatchesLineByLine model searchRange searchData captureMatches
    limitResultCount
  = take (Z.to_nat limitResultCount)
      (concat (piece_reports searchData captureMatches
               <$> range_pieces model searchRange)).
Proof.
  intros Hlim. unfold _doFindMatchesLineByLine, range_pieces.
  assert (len (@nil FindMatch) = 0) as Hnil by reflexivity.
  destruct (startLineNumber searchRange =? endLineNumber searchRange).
  - rewrite piece_within_limit by (rewrite Hnil; lia).
    rewrite Hnil, Z.sub_0_r. simpl. rewrite app_nil_r. reflexivity.
  - rewrite fmap_cons, fmap_app, concat_cons, concat_app.
    cbn [fmap list_fmap concat]. rewrite app_nil_r.
    rewrite (piece_within_limit _ _ _ _ _ _ []) by (rewrite Hnil; lia).
    rewrite middleLines_items by (rewrite ?Hnil; lia).
    rewrite Hnil, Z.sub_0_r. cbn [app].
    match goal with
    | |- context [take ?n (?a ++ ?b ++ ?c)] =>
        rewrite (app_assoc a b c); set (ab := a ++ b);
        rewrite (take_limit_app limitResultCount ab) by lia;
        set (acc := take n ab)
    end.
    destruct (Z.ltb_spec (len acc) limitResultCount) as [Hlt|Hge].
    + rewrite piece_within_limit by assumption. reflexivity.
    + replace (Z.to_nat (limitResultCount - len acc)) with O by lia.
      rewrite take_0, app_nil_r. reflexivity.
Qed.

(** ** The matches of one text, call after call *)

Lemma Searcher_next_advances text this m1 this1 m2 this2 :
  Searcher_next text this = (Some m1, this1) ->
  Searcher_next text this1 = (Some m2, this2) ->
  match_before m1 m2.
Proof.
  intros H1 H2.
  pose proof (Searcher_next_twice text this m1 this1 m2 this2 H1 H2) as Hne.
  pose proof (Searcher_next_post text this) as P1. rewrite H1 in P1.
  pose proof (Searcher_next_post text this1) as P2. rewrite H2 in P2.
  destruct P1 as (_ & Hm1 & _ & _ & _ & _ & _ & Hli & _ & Hmt1 & _).
  destruct P2 as (_ & _ & _ & _ & _ & _ & _ & _ & Hi2 & Hmt2 & _).
  cbn [fst snd] in *. rewrite Hm1 in Hmt2. rewrite Hli in Hi2.
  pose proof (len_nonneg (m0 m1)).
  unfold match_before. split; [lia|].
  destruct (Z.eq_dec (index m2) (index m1)) as [Heq|]; [|lia].
  exfalso. apply Hne. split; [assumption|]. rewrite Heq in Hmt2.
  rewrite Hmt1 in Hmt2. inversion Hmt2. congruence.
Qed.

Lemma match_before_trans m1 m2 m3 :
  match_before m1 m2 -> match_before m2 m3 -> match_before m1 m3.
Proof.
  unfold match_before. pose proof (len_nonneg (m0 m2)). lia.
Qed.

(** The matches of a scan come in increasing order and do not overlap. *)
Lemma scan_text_sorted fuel text this l :
  scan_text fuel text this = Some l -> StronglySorted match_before l.
Proof.
  intros H. apply Sorted_StronglySorted.
  { intros a b c. apply match_before_trans. }
  revert this l H. induction fuel as [|fuel IH]; intros this l H; [discriminate|].
  simpl in H. destruct (Searcher_next text this) as [[m|] this1] eqn:E1.
  - destruct (scan_text fuel text this1) as [l'|] eqn:E; [|discriminate].
    inversion H; subst; clear H. constructor; [eapply IH; eassumption|].
    destruct fuel as [|fuel]; [discriminate|]. simpl in E.
    destruct (Searcher_next text this1) as [[m2|] this2] eqn:E2.
    + destruct (scan_text fuel text this2); [|discriminate]. inversion E; subst.
      constructor. eapply Searcher_next_advances; eassumption.
    + inversion E. constructor.
  - inversion H. constructor.
Qed.

(** Every match of a scan is a match of the pattern inside the text that
    the classifier accepts. *)
Lemma scan_text_accepted fuel text this l :
  scan_text fuel text this = Some l ->
  Forall (fun m => 0 <= index m <= len text
                   /\ matcher (_searchRegex this) text (index m)
                      = Some (m0 m, groups m)
                   /\ accepts (_wordSeparators this) text (len text) (index m)
                        (len (m0 m)) = true) l.
Proof.
  revert this l. induction fuel as [|fuel IH]; intros this l H; [discriminate|].
  simpl in H. pose proof (Searcher_next_post text this) as P.
  destruct (Searcher_next text this) as [[m|] this1].
  - destruct (scan_text fuel text this1) as [l'|] eqn:E; [|discriminate].
    inversion H; subst; clear H.
    destruct P as (Hws & Hm & _ & _ & _ & _ & _ & _ & Hi & Hmt & Hacc). simpl in *.
    constructor; [split; [lia|split; assumption]|].
    apply IH in E. rewrite Hm, Hws in E. exact E.
  - inversion H. constructor.
Qed.

Lemma line_scan_Some searcher text :
  scan_text (scan_fuel text) text (Searcher_reset 0 searcher)
  = Some (line_scan searcher text).
Proof.
  unfold line_scan.
  destruct (scan_text_total text (Searcher_reset 0 searcher) (scan_fuel text)
              (rank_bound _ _)) as [l ->].
  reflexivity.
Qed.

(** ** The occurrences of a literal *)

Lemma occurrences_found p t k skip :
  Forall (fun i => k + Z.of_nat skip <= i
                   /\ i + len p <= k + len t
                   /\ starts_with p (drop (Z.to_nat (i - k)) t) = true)
    (occurrences p t k skip).
Proof.
  revert k skip. induction t as [|c t IH]; intros k skip; [constructor|].
  assert (forall k' skip',
             k + 1 = k' -> (skip <= S skip')%nat ->
             Forall (fun i => k + Z.of_nat skip <= i
                              /\ i + len p <= k + len (c :: t)
                              /\ starts_with p (drop (Z.to_nat (i - k)) (c :: t)) = true)
               (occurrences p t k' skip')) as Hrest.
  { intros k' skip' <- Hs. eapply Forall_impl; [apply IH|].
    intros i (H1 & H2 & H3). cbn beta in *.
    replace (Z.to_nat (i - k)) with (S (Z.to_nat (i - (k + 1)))) by lia.
    unfold len in *. simpl. repeat split; (assumption || lia). }
  cbn [occurrences]. destruct skip as [|skip'].
  - destruct (starts_with p (c :: t)) eqn:Hs.
    + constructor.
      * rewrite Z.sub_diag. simpl. split; [lia|]. split; [|assumption].
        apply starts_with_length in Hs. unfold len. lia.
      * apply Hrest; [reflexivity|lia].
    + apply Hrest; [reflexivity|lia].
  - apply Hrest; [reflexivity|lia].
Qed.

Lemma occurrences_sorted p t k skip :
  p <> [] ->
  StronglySorted (fun i j => i + len p <= j) (occurrences p t k skip).
Proof.
  intros Hp. pose proof (len_pos p Hp) as Hlp.
  revert k skip. induction t as [|c t IH]; intros k skip; [constructor|].
  cbn [occurrences]. destruct skip as [|skip']; [|apply IH].
  destruct (starts_with p (c :: t)); [|apply IH].
  constructor; [apply IH|].
  eapply Forall_impl; [apply occurrences_found|].
  intros i (H & _). cbn beta in *. unfold len in *. lia.
Qed.

(** ** What the search of a piece reports *)

Lemma StronglySorted_filter {A} (R : A -> A -> Prop) (P : A -> Prop)
    `{forall x, Decision (P x)} (l : list A) :
  StronglySorted R l -> StronglySorted R (filter P l).
Proof.
  induction 1 as [|x l Hs IH HF]; [constructor|]. rewrite filter_cons.
  destruct (decide (P x)); [|assumption]. constructor; [assumption|].
  apply Forall_forall. intros y Hy. apply list_elem_of_filter in Hy.
  destruct Hy as [_ Hy]. eapply (proj1 (Forall_forall _ _) HF). exact Hy.
Qed.

Lemma StronglySorted_take {A} (R : A -> A -> Prop) n (l : list A) :
  StronglySorted R l -> StronglySorted R (take n l).
Proof.
  intros H. rewrite <- (take_drop n l) in H.
  eapply StronglySorted_app_1_l. exact H.
Qed.

Lemma StronglySorted_lookup {A} (R : A -> A -> Prop) (l : list A) (i j : nat) x y :
  StronglySorted R l -> (i < j)%nat -> l !! i = Some x -> l !! j = Some y -> R x y.
Proof.
  intros H. revert i j. induction H as [|a l Hs IH HF]; intros i j Hij Hi Hj;
    [discriminate|].
  destruct j as [|j]; [lia|]. simpl in Hj. destruct i as [|i].
  - simpl in Hi. inversion Hi; subst. eapply Forall_lookup_1; eassumption.
  - simpl in Hi. apply (IH i j); (assumption || lia).
Qed.

Lemma range_regex_report lineNumber deltaOffset captureMatches m :
  range (regex_report lineNumber deltaOffset captureMatches m)
  = span_in_piece (lineNumber, deltaOffset, @nil Z) (index m) (len (m0 m)).
Proof.
  unfold regex_report, createFindMatch, span_in_piece. pose proof (len_nonneg (m0 m)).
  destruct (negb captureMatches); cbn [range fst snd];
    apply new_Range_in_line; lia.
Qed.

Lemma range_simple_report p lineNumber deltaOffset k :
  range (simple_report p lineNumber deltaOffset k)
  = span_in_piece (lineNumber, deltaOffset, @nil Z) k (len p).
Proof.
  unfold simple_report, span_in_piece. pose proof (len_nonneg p).
  cbn [range fst snd]. apply new_Range_in_line. lia.
Qed.

(** Every report of a piece is a find in the piece. *)
Lemma piece_reports_found searchData captureMatches piece :
  Forall (found_in_piece searchData captureMatches piece)
    (piece_reports searchData captureMatches piece).
Proof.
  destruct piece as [[lineNumber deltaOffset] text]. unfold piece_reports.
  cbn [fst snd].
  destruct (if negb captureMatches then simpleSearch_of searchData else None)
    as [p|] eqn:Hpath.
  - destruct captureMatches; [discriminate|]. cbn [negb] in Hpath.
    apply simpleSearch_of_Some in Hpath. destruct Hpath as [Hsimple Hp].
    apply Forall_fmap. apply Forall_forall. intros k Hk.
    unfold accepted_occurrences in Hk. apply list_elem_of_filter in Hk.
    destruct Hk as [Hacc Hk].
    pose proof (proj1 (Forall_forall _ _) (occurrences_found p (drop 0 text) 0 O) k Hk)
      as (H1 & H2 & H3).
    rewrite drop_0, Z.sub_0_r in *. pose proof (len_nonneg p).
    exists k, p. cbn [fst snd compose].
    split; [lia|]. split; [apply range_simple_report|]. split; [assumption|].
    right. repeat split; (assumption || lia).
  - apply Forall_fmap.
    pose proof (scan_text_accepted _ _ _ _
                  (line_scan_Some (new_Searcher (SearchData.wordSeparators searchData)
                                     (SearchData.regex searchData)) text)) as HF.
    eapply Forall_impl; [exact HF|].
    intros m (Hi & Hmt & Hacc). cbn in Hmt, Hacc.
    exists (index m), (m0 m). cbn [fst snd compose].
    split; [assumption|]. split; [apply range_regex_report|]. split; [assumption|].
    left. exists (groups m). split; [assumption|]. split.
    + unfold regex_report, createFindMatch. destruct captureMatches; reflexivity.
    + destruct captureMatches; auto.
Qed.

(** The reports of a piece come in increasing order and do not overlap. *)
Lemma piece_reports_sorted searchData captureMatches piece :
  StronglySorted report_before (piece_reports searchData captureMatches piece).
Proof.
  destruct piece as [[lineNumber deltaOffset] text]. unfold piece_reports.
  cbn [fst snd].
  destruct (if negb captureMatches then simpleSearch_of searchData else None)
    as [p|] eqn:Hpath.
  - destruct captureMatches; [discriminate|]. cbn [negb] in Hpath.
    apply simpleSearch_of_Some in Hpath. destruct Hpath as [_ Hp].
    pose proof (len_pos p Hp).
    apply (StronglySorted_fmap _ (fun i j => i + len p <= j)).
    + intros i j Hij. unfold report_before.
      rewrite !range_simple_report. unfold span_in_piece, position_le. simpl. lia.
    + apply StronglySorted_filter. apply occurrences_sorted. assumption.
  - apply (StronglySorted_fmap _ match_before).
    + intros m1 m2 [H1 H2]. unfold report_before.
      rewrite !range_regex_report. unfold span_in_piece, position_le. simpl. lia.
    + eapply scan_text_sorted. apply line_scan_Some.
Qed.

(** ** What the search of a range reports *)

Lemma middleLines_full rounds model searchRange searchData captureMatches
    limitResultCount lineNumber result :
  limitResultCount <= len result ->
  middleLines rounds model searchRange searchData captureMatches limitResultCount
    lineNumber result
  = result.
Proof.
  intros H. destruct rounds as [|rounds]; [reflexivity|]. simpl.
  destruct (Z.ltb_spec (len result) limitResultCount); [lia|].
  rewrite andb_false_r. reflexivity.
Qed.

Lemma range_pieces_head model searchRange :
  exists piece rest,
    range_pieces model searchRange = piece :: rest
    /\ range_pieces model (first_line_of model searchRange) = [piece].
Proof.
  unfold range_pieces, first_line_of.
  destruct (startLineNumber searchRange =? endLineNumber searchRange) eqn:E.
  - rewrite E. eauto.
  - cbn [startLineNumber endLineNumber startColumn endColumn plain_range].
    rewrite Z.eqb_refl. unfold getLineMaxColumn, substring_from.
    replace (len (getLineContent model (startLineNumber searchRange)) + 1 - 1)
      with (len (getLineContent model (startLineNumber searchRange))) by lia.
    eauto.
Qed.

(** With a limit of zero or less, the line-by-line search reports the
    first find of the first piece of the range and nothing else. *)
Lemma _doFindMatchesLineByLine_nonpositive model searchRange searchData captureMatches
    limitResultCount piece rest :
  limitResultCount <= 0 ->
  range_pieces model searchRange = piece :: rest ->
  _doFindMatchesLineByLine model searchRange searchData captureMatches
    limitResultCount
  = take 1 (piece_reports searchData captureMatches piece).
Proof.
  intros Hlim. unfold _doFindMatchesLineByLine, range_pieces.
  assert (len (@nil FindMatch) = 0) as Hnil by reflexivity.
  destruct (startLineNumber searchRange =? endLineNumber searchRange).
  - intros H. inversion H; subst. rewrite _findMatchesInLine_items, Hnil.
    replace (Z.to_nat (Z.max 1 (limitResultCount - 0))) with 1%nat by lia.
    reflexivity.
  - intros H. inversion H; subst. rewrite _findMatchesInLine_items, Hnil.
    replace (Z.to_nat (Z.max 1 (limitResultCount - 0))) with 1%nat by lia.
    cbn [app].
    set (result := take 1 _). pose proof (len_nonneg result).
    rewrite middleLines_full by lia.
    destruct (Z.ltb_spec (len result) limitResultCount); [lia|]. reflexivity.
Qed.

Lemma Forall_concat_fmap {A B} (P : B -> Prop) (f : A -> list B) (l : list A) :
  (forall x, x ∈ l -> Forall P (f x)) -> Forall P (concat (f <$> l)).
Proof.
  induction l as [|x l IH]; intros H; [constructor|].
  rewrite fmap_cons, concat_cons. apply Forall_app. split.
  - apply H. left.
  - apply IH. intros y Hy. apply H. right. exact Hy.
Qed.

(** Every report of the line-by-line search is a find in one of the pieces
    of the range. *)
Lemma _doFindMatchesLineByLine_found model searchRange searchData captureMatches
    limitResultCount :
  Forall (fun f => exists piece,
              piece ∈ range_pieces model searchRange
              /\ found_in_piece searchData captureMatches piece f)
    (_doFindMatchesLineByLine model searchRange searchData captureMatches
       limitResultCount).
Proof.
  destruct (Z.le_gt_cases limitResultCount 0) as [Hle|Hgt].
  - destruct (range_pieces_head model searchRange) as (piece & rest & Hp & _).
    rewrite (_doFindMatchesLineByLine_nonpositive _ _ _ _ _ piece rest Hle Hp).
    apply Forall_take. eapply Forall_impl; [apply piece_reports_found|].
    intros f Hf. exists piece. split; [rewrite Hp; left|assumption].
  - rewrite _doFindMatchesLineByLine_items by lia. apply Forall_take.
    apply Forall_concat_fmap. intros piece Hin.
    eapply Forall_impl; [apply piece_reports_found|].
    intros f Hf. exists piece. split; assumption.
Qed.

(** ** Further properties of findMatches *)

(** X1: the limit only cuts the result short.  For limits [1 <= a <= b],
    [findMatches] with limit [a] returns the first [a] matches of what it
    returns with limit [b], for every query and both search strategies. *)
Theorem findMatches_limit_prefix model searchParams searchRange captureMatches a b :
  1 <= a <= b ->
  findMatches model searchParams searchRange captureMatches a
  = take (Z.to_nat a)
      (findMatches model searchParams searchRange captureMatches b).
Proof.
  intros Hab. unfold findMatches.
  destruct (parseSearchRequest searchParams) as [searchData|];
    [|rewrite take_nil; reflexivity].
  destruct (multiline (SearchData.regex searchData)).
  - rewrite !_doFindMatchesMultiline_items, take_take. f_equal. lia.
  - rewrite !_doFindMatchesLineByLine_items by lia. rewrite take_take. f_equal. lia.
Qed.

(** X2: a limit of zero or less does not mean no result.  The multiline
    search then returns what it returns with limit 1, its first match; the
    line-by-line search returns the first match of the first line of the
    range, as with limit 1 on that line alone, and never looks at the lines
    after it. *)
Theorem findMatches_nonpositive_limit model searchParams searchData searchRange
    captureMatches limitResultCount :
  parseSearchRequest searchParams = Some searchData ->
  limitResultCount <= 0 ->
  findMatches model searchParams searchRange captureMatches limitResultCount
  = findMatches model searchParams
      (if multiline (SearchData.regex searchData) then searchRange
       else first_line_of model searchRange)
      captureMatches 1.
Proof.
  intros Hparse Hlim. unfold findMatches. rewrite Hparse.
  destruct (multiline (SearchData.regex searchData)).
  - rewrite !_doFindMatchesMultiline_items. f_equal. lia.
  - destruct (range_pieces_head model searchRange) as (piece & rest & Hp & Hfirst).
    rewrite (_doFindMatchesLineByLine_nonpositive _ _ _ _ _ piece rest Hlim Hp).
    rewrite _doFindMatchesLineByLine_items by lia. rewrite Hfirst.
    simpl. rewrite app_nil_r. reflexivity.
Qed.

(** X3: the line-by-line search reports nothing it did not find.  Every
    match [findMatches] returns for a query that is not multiline is, in one
    of the pieces of lines the range covers, a match of the regular
    expression or an occurrence of the literal search string that the word
    classifier accepts, reported with the columns it has in its line and
    with its captured strings when the search captures. *)
Theorem findMatches_line_by_line_sound model searchParams searchData searchRange
    captureMatches limitResultCount :
  parseSearchRequest searchParams = Some searchData ->
  multiline (SearchData.regex searchData) = false ->
  Forall (fun f => exists piece,
              In piece (range_pieces model searchRange)
              /\ found_in_piece searchData captureMatches piece f)
    (findMatches model searchParams searchRange captureMatches limitResultCount).
Proof.
  intros Hparse Hml. unfold findMatches. rewrite Hparse, Hml.
  eapply Forall_impl; [apply _doFindMatchesLineByLine_found|].
  intros f (piece & Hin & Hf). exists piece. split; [|assumption].
  apply list_elem_of_In. assumption.
Qed.

Lemma len_substring s a b :
  len (substring s a b) = Z.abs (clamp 0 (len s) b - clamp 0 (len s) a).
Proof.
  unfold substring, len, clamp. rewrite length_take, length_drop. lia.
Qed.

Lemma In_whole_lines count model lineNumber piece :
  piece ∈ whole_lines count model lineNumber ->
  exists i, 0 <= i < Z.of_nat count
            /\ piece = (lineNumber + i, 0, getLineContent model (lineNumber + i)).
Proof.
  revert lineNumber. induction count as [|count IH]; intros lineNumber H;
    [inversion H|].
  cbn [whole_lines] in H. apply elem_of_cons in H. destruct H as [->|H].
  - exists 0. rewrite Z.add_0_r. split; [lia|reflexivity].
  - destruct (IH _ H) as (i & Hi & ->). exists (i + 1).
    replace (lineNumber + (i + 1)) with (lineNumber + 1 + i) by lia.
    split; [lia|reflexivity].
Qed.

(** Where the pieces of a range lie: the first line from the start column
    on, a whole line in between, or the last line up to the end column. *)
Lemma In_range_pieces model searchRange piece :
  piece ∈ range_pieces model searchRange ->
  let line := getLineContent model (fst (fst piece)) in
  (fst (fst piece) = startLineNumber searchRange
   /\ snd (fst piece) = startColumn searchRange - 1
   /\ snd piece
      = (if startLineNumber searchRange =? endLineNumber searchRange
         then substring line (startColumn searchRange - 1) (endColumn searchRange - 1)
         else substring_from line (startColumn searchRange - 1)))
  \/ (startLineNumber searchRange < fst (fst piece) < endLineNumber searchRange
      /\ snd (fst piece) = 0 /\ snd piece = line)
  \/ (startLineNumber searchRange <> endLineNumber searchRange
      /\ fst (fst piece) = endLineNumber searchRange
      /\ snd (fst piece) = 0
      /\ snd piece = substring line 0 (endColumn searchRange - 1)).
Proof.
  unfold range_pieces.
  destruct (Z.eqb_spec (startLineNumber searchRange) (endLineNumber searchRange))
    as [Heq|Hne]; intros H.
  - apply list_elem_of_singleton in H. subst piece. left. cbn. auto.
  - apply elem_of_cons in H. destruct H as [->|H]; [left; cbn; auto|].
    apply elem_of_app in H. destruct H as [H|H].
    + apply In_whole_lines in H. destruct H as (i & Hi & ->). right. left. cbn.
      split; [lia|auto].
    + apply list_elem_of_singleton in H. subst piece. right. right. cbn. auto.
Qed.

(** X4: the line-by-line search stays inside the search range.  When the
    pattern matches nothing beyond the end of the text it is run on, every
    match [findMatches] returns for a query that is not multiline lies in
    one line, starts at or after the start of the range and ends at or
    before its end, for a range that has its start at or before its end and
    an end column of at least 1. *)
Theorem findMatches_inside_range model searchParams searchData searchRange
    captureMatches limitResultCount :
  parseSearchRequest searchParams = Some searchData ->
  multiline (SearchData.regex searchData) = false ->
  matches_inside_text (matcher (SearchData.regex searchData)) ->
  position_le (getStartPosition searchRange) (getEndPosition searchRange) ->
  1 <= endColumn searchRange ->
  Forall (fun f =>
            startLineNumber (range f) = endLineNumber (range f)
            /\ position_le (getStartPosition searchRange) (getStartPosition (range f))
            /\ position_le (getStartPosition (range f)) (getEndPosition (range f))
            /\ position_le (getEndPosition (range f)) (getEndPosition searchRange))
    (findMatches model searchParams searchRange captureMatches limitResultCount).
Proof.
  intros Hparse Hml Hinside Hle Hec. unfold findMatches. rewrite Hparse, Hml.
  eapply Forall_impl; [apply _doFindMatchesLineByLine_found|].
  intros f (piece & Hin & k & a & Hk & Hrange & _ & Hfound). cbn beta.
  assert (k + len a <= len (snd piece)) as Hend.
  { destruct Hfound as [(gs & Hm & _)|(_ & _ & H & _)]; [|exact H].
    eapply Hinside. exact Hm. }
  pose proof (len_nonneg a) as Ha.
  apply In_range_pieces in Hin. cbv zeta in Hin.
  rewrite Hrange. unfold span_in_piece, position_le in *.
  cbn [plain_range getStartPosition getEndPosition lineNumber column
       startLineNumber startColumn endLineNumber endColumn] in *.
  destruct Hin as [(Hl & Hd & Ht)|[(Hl & Hd & Ht)|(Hne & Hl & Hd & Ht)]].
  - rewrite Ht in Hend. rewrite Hl, Hd.
    destruct (Z.eqb_spec (startLineNumber searchRange) (endLineNumber searchRange)).
    + rewrite len_substring in Hend. unfold clamp in Hend. lia.
    + lia.
  - lia.
  - rewrite Ht, len_substring in Hend. unfold clamp in Hend. rewrite Hl, Hd. lia.
Qed.

Lemma concat_fmap_sorted {A B} (Ra : A -> A -> Prop) (Rb : B -> B -> Prop)
    (F : A -> list B) (l : list A) :
  StronglySorted Ra l ->
  (forall x, x ∈ l -> StronglySorted Rb (F x)) ->
  (forall x y f g, Ra x y -> x ∈ l -> y ∈ l -> f ∈ F x -> g ∈ F y -> Rb f g) ->
  StronglySorted Rb (concat (F <$> l)).
Proof.
  induction 1 as [|x l Hs IH HF]; intros Hin Hcross; [constructor|].
  rewrite fmap_cons, concat_cons. apply StronglySorted_app_2.
  - intros f g Hf Hg. apply list_elem_of_In, in_concat in Hg.
    destruct Hg as (gs & Hgs & Hg). apply list_elem_of_In, list_elem_of_fmap in Hgs.
    destruct Hgs as (y & -> & Hy).
    apply (Hcross x y); [|left|right; assumption|assumption|apply list_elem_of_In, Hg].
    eapply (proj1 (Forall_forall _ _) HF). exact Hy.
  - apply Hin. left.
  - apply IH.
    + intros y Hy. apply Hin. right. exact Hy.
    + intros y z f g Hyz Hy Hz. apply Hcross; [assumption|right..]; assumption.
Qed.

Lemma whole_lines_sorted count model lineNumber :
  StronglySorted (fun p q : Z * Z * jsstring => fst (fst p) < fst (fst q))
    (whole_lines count model lineNumber).
Proof.
  revert lineNumber. induction count as [|count IH]; intros lineNumber; [constructor|].
  cbn [whole_lines]. constructor; [apply IH|].
  apply Forall_forall. intros piece H. apply In_whole_lines in H.
  destruct H as (i & Hi & ->). cbn. lia.
Qed.

Lemma range_pieces_sorted model searchRange :
  startLineNumber searchRange <= endLineNumber searchRange ->
  StronglySorted (fun p q : Z * Z * jsstring => fst (fst p) < fst (fst q))
    (range_pieces model searchRange).
Proof.
  intros Hle. unfold range_pieces.
  destruct (Z.eqb_spec (startLineNumber searchRange) (endLineNumber searchRange)).
  - repeat constructor.
  - constructor.
    + apply StronglySorted_app_2.
      * intros p q Hp Hq. apply In_whole_lines in Hp. destruct Hp as (i & Hi & ->).
        apply list_elem_of_singleton in Hq. subst q. cbn. lia.
      * apply whole_lines_sorted.
      * repeat constructor.
    + apply Forall_app. split.
      * apply Forall_forall. intros p Hp. apply In_whole_lines in Hp.
        destruct Hp as (i & Hi & ->). cbn. lia.
      * repeat constructor. cbn. lia.
Qed.

(** The reports of the line-by-line search of a range come in the order
    of the buffer and do not overlap. *)
Lemma _doFindMatchesLineByLine_sorted model searchRange searchData captureMatches
    limitResultCount :
  startLineNumber searchRange <= endLineNumber searchRange ->
  StronglySorted report_before
    (_doFindMatchesLineByLine model searchRange searchData captureMatches
       limitResultCount).
Proof.
  intros Hle. destruct (Z.le_gt_cases limitResultCount 0) as [Hl|Hgt].
  - destruct (range_pieces_head model searchRange) as (piece & rest & Hp & _).
    rewrite (_doFindMatchesLineByLine_nonpositive _ _ _ _ _ piece rest Hl Hp).
    apply StronglySorted_take, piece_reports_sorted.
  - rewrite _doFindMatchesLineByLine_items by lia. apply StronglySorted_take.
    eapply concat_fmap_sorted; [apply range_pieces_sorted; assumption| |].
    + intros piece _. apply piece_reports_sorted.
    + intros p q f g Hpq _ _ Hf Hg.
      pose proof (proj1 (Forall_forall _ _) (piece_reports_found _ _ _) f Hf)
        as (k1 & a1 & _ & Hr1 & _).
      pose proof (proj1 (Forall_forall _ _) (piece_reports_found _ _ _) g Hg)
        as (k2 & a2 & _ & Hr2 & _).
      unfold report_before, position_le. rewrite Hr1, Hr2. unfold span_in_piece.
      cbn in *. lia.
Qed.

(** X5: the line-by-line search reports its matches in the order of the
    buffer and without overlap.  In the result of [findMatches] for a query
    that is not multiline, over a range that does not start on a later line
    than it ends, a match reported earlier ends at or before the start of
    every match reported later, and starts before it. *)
Theorem findMatches_document_order model searchParams searchData searchRange
    captureMatches limitResultCount (i j : nat) f g :
  parseSearchRequest searchParams = Some searchData ->
  multiline (SearchData.regex searchData) = false ->
  startLineNumber searchRange <= endLineNumber searchRange ->
  (i < j)%nat ->
  findMatches model searchParams searchRange captureMatches limitResultCount !! i
  = Some f ->
  findMatches model searchParams searchRange captureMatches limitResultCount !! j
  = Some g ->
  report_before f g.
Proof.
  intros Hparse Hml Hle Hij. unfold findMatches. rewrite Hparse, Hml.
  apply StronglySorted_lookup; [|assumption].
  apply _doFindMatchesLineByLine_sorted. assumption.
Qed.

(** ** Further properties of findNextMatch and findPreviousMatch *)

Lemma substring_whole (t : jsstring) : substring t 0 (len t) = t.
Proof.
  pose proof (len_nonneg t). rewrite substring_spec by lia.
  rewrite drop_0, Z.sub_0_r. unfold len. rewrite Nat2Z.id. apply firstn_all.
Qed.

Lemma searched_text_line model lineNumber :
  searched_text model (getLineContent model lineNumber).
Proof.
  right. exists lineNumber, 0, (len (getLineContent model lineNumber)).
  symmetry. apply substring_whole.
Qed.

Lemma createFindMatch_captures model text r0 m r captureMatches :
  searched_text model text -> 0 <= index r <= len text ->
  m text (index r) = Some (m0 r, groups r) ->
  captures_as model m captureMatches (createFindMatch r0 r captureMatches).
Proof.
  intros Ht Hi Hm. unfold createFindMatch, captures_as.
  destruct captureMatches; simpl; [|reflexivity].
  exists text, (index r), (m0 r), (groups r). auto.
Qed.

(** The pieces of a search range are stretches of lines of the buffer. *)
Lemma range_pieces_searched model searchRange piece :
  piece ∈ range_pieces model searchRange -> searched_text model (snd piece).
Proof.
  intros H. apply In_range_pieces in H. cbv zeta in H.
  destruct H as [(_ & _ & ->)|[(_ & _ & ->)|(_ & _ & _ & ->)]].
  - destruct (_ =? _); right; unfold substring_from; eauto.
  - apply searched_text_line.
  - right. eauto.
Qed.

Lemma last_elem_of {A} (l : list A) x : last l = Some x -> x ∈ l.
Proof.
  intros H. apply last_Some in H. destruct H as [l' ->].
  apply elem_of_app. right. left.
Qed.

(** The first match of a line from a column on: an accepted match of the
    pattern at or after that column. *)
Lemma first_match_in_line_found model searcher captureMatches lineNumber fromColumn
    found :
  first_match_in_line model searcher captureMatches lineNumber fromColumn = Some found ->
  exists m,
    found = match_in_line lineNumber captureMatches m
    /\ Z.max 0 (fromColumn - 1) <= index m <= len (getLineContent model lineNumber)
    /\ matcher (_searchRegex searcher) (getLineContent model lineNumber) (index m)
       = Some (m0 m, groups m)
    /\ accepts (_wordSeparators searcher) (getLineContent model lineNumber)
         (len (getLineContent model lineNumber)) (index m) (len (m0 m)) = true.
Proof.
  unfold first_match_in_line, _findFirstMatchInLine.
  pose proof (Searcher_next_post (getLineContent model lineNumber)
                (Searcher_reset (fromColumn - 1) searcher)) as P.
  destruct (Searcher_next _ _) as [[m|] s1]; [|discriminate].
  destruct P as (_ & _ & _ & _ & _ & _ & _ & _ & Hi & Hmt & Hacc).
  cbn in Hi, Hmt, Hacc. cbn [fst]. intros H. inversion H; subst.
  exists m. repeat split; (assumption || lia || reflexivity).
Qed.

(** The last match of a text: an accepted match of the pattern in it. *)
Lemma last_match_in_found searcher captureMatches lineNumber text found :
  last_match_in searcher captureMatches lineNumber text = Some found ->
  exists m,
    found = match_in_line lineNumber captureMatches m
    /\ 0 <= index m <= len text
    /\ matcher (_searchRegex searcher) text (index m) = Some (m0 m, groups m)
    /\ accepts (_wordSeparators searcher) text (len text) (index m) (len (m0 m))
       = true.
Proof.
  unfold last_match_in. intros H. apply last_elem_of, list_elem_of_fmap in H.
  destruct H as (m & -> & Hm). exists m. split; [reflexivity|].
  pose proof (scan_text_accepted _ _ _ _ (line_scan_Some searcher text)) as HF.
  apply (proj1 (Forall_forall _ _) HF) in Hm. exact Hm.
Qed.

(** Where the line-by-line search forward finds its match: in the line it
    starts on, from the column it starts at, or in a line of the buffer
    taken from its first column. *)
Lemma _doFindNextMatchLineByLine_Some model searchStart searcher captureMatches found :
  _doFindNextMatchLineByLine model searchStart searcher captureMatches = Some found ->
  first_match_in_line model searcher captureMatches (lineNumber searchStart)
    (column searchStart) = Some found
  \/ exists i,
       1 <= i <= getLineCount model
       /\ first_match_in_line model searcher captureMatches
            (Z.rem (lineNumber searchStart + i - 1) (getLineCount model) + 1) 1
          = Some found.
Proof.
  unfold _doFindNextMatchLineByLine, first_match_in_line.
  pose proof (_findFirstMatchInLine_searcher searcher
                (getLineContent model (lineNumber searchStart)) (lineNumber searchStart)
                (column searchStart) captureMatches) as Hs.
  destruct (_findFirstMatchInLine searcher _ _ _ _) as [[r|] s1]; cbn [fst snd] in *.
  - intros H. left. assumption.
  - rewrite (nextMatch_for_first_some model searcher) by assumption.
    intros H. right. apply first_some_Some in H. destruct H as (l & Hin & Hl).
    apply in_map_iff in Hin. destruct Hin as (i & <- & Hi).
    apply list_elem_of_In, elem_of_seqZ in Hi.
    exists i. split; [lia|exact Hl].
Qed.

(** Where the line-by-line search backward finds its match: in the line it
    starts on, before the column it starts at, or in a whole line of the
    buffer. *)
Lemma _doFindPreviousMatchLineByLine_Some model searchStart searcher captureMatches
    found :
  _doFindPreviousMatchLineByLine model searchStart searcher captureMatches = Some found ->
  last_match_in searcher captureMatches (lineNumber searchStart)
    (substring (getLineContent model (lineNumber searchStart)) 0
       (column searchStart - 1)) = Some found
  \/ exists i,
       1 <= i <= getLineCount model
       /\ let lineNumber :=
            Z.rem (getLineCount model + lineNumber searchStart - i - 1)
              (getLineCount model) + 1 in
          last_match_in searcher captureMatches lineNumber
            (getLineContent model lineNumber) = Some found.
Proof.
  unfold _doFindPreviousMatchLineByLine.
  pose proof (_findLastMatchInLine_spec searcher
                (substring (getLineContent model (lineNumber searchStart)) 0
                   (column searchStart - 1))
                (lineNumber searchStart) captureMatches) as [Hf Hs].
  destruct (_findLastMatchInLine searcher _ _ _) as [[r|] s1]; cbn [fst snd] in *.
  - intros H. left. congruence.
  - rewrite (previousMatch_for_first_some model searcher) by assumption.
    intros H. right. apply first_some_Some in H. destruct H as (l & Hin & Hl).
    apply in_map_iff in Hin. destruct Hin as (i & <- & Hi).
    apply list_elem_of_In, elem_of_seqZ in Hi.
    exists i. split; [lia|exact Hl].
Qed.

(** X6: a report carries captured strings exactly when the search was asked
    to capture, and then they are the engine's.  On a compiled query, with
    [captureMatches] every match returned by [findMatches], [findNextMatch]
    and [findPreviousMatch] carries what the engine returned for a match of
    the pattern at an index of a text of the buffer (the joined text of a
    range, or a stretch of a line): the whole match, followed by the groups
    as the engine gave them, those that took no part in the match
    included.  Without [captureMatches] every match returned carries none. *)
Theorem reports_follow_captureMatches model searchParams searchData captureMatches :
  parseSearchRequest searchParams = Some searchData ->
  let m := matcher (SearchData.regex searchData) in
  (forall searchRange limitResultCount,
      Forall (captures_as model m captureMatches)
        (findMatches model searchParams searchRange captureMatches limitResultCount))
  /\ (forall searchStart found,
         findNextMatch model searchParams searchStart captureMatches = Some found ->
         captures_as model m captureMatches found)
  /\ (forall searchStart found,
         findPreviousMatch model searchParams searchStart captureMatches = Some found ->
         captures_as model m captureMatches found).
Proof.
  intros Hparse m.
  set (searcher := new_Searcher (SearchData.wordSeparators searchData)
                     (SearchData.regex searchData)).
  assert (forall searchRange limitResultCount,
             Forall (captures_as model m captureMatches)
               (fst (_doFindMatchesMultiline model searchRange searcher captureMatches
                       limitResultCount))) as Hmulti.
  { intros. rewrite _doFindMatchesMultiline_items. apply Forall_take.
    unfold multiline_reports. apply Forall_fmap.
    eapply Forall_impl;
      [exact (scan_text_accepted _ _ _ _
                (line_scan_Some searcher (getValueInRange_LF model searchRange)))|].
    intros r (Hi & Hm & _).
    apply (createFindMatch_captures model (getValueInRange_LF model searchRange));
      [left; eauto|exact Hi|exact Hm]. }
  assert (forall lineNumber text r,
             searched_text model text -> 0 <= index r <= len text ->
             m text (index r) = Some (m0 r, groups r) ->
             captures_as model m captureMatches
               (match_in_line lineNumber captureMatches r)) as Hline.
  { intros lineNumber text r Ht Hi Hm.
    apply (createFindMatch_captures model text); assumption. }
  split; [|split].
  - intros searchRange limitResultCount. unfold findMatches. rewrite Hparse.
    destruct (multiline (SearchData.regex searchData)); [apply Hmulti|].
    eapply Forall_impl; [apply _doFindMatchesLineByLine_found|].
    intros f (piece & Hpiece & k & a & Hk & _ & _ & Hfound). unfold captures_as.
    destruct Hfound as [(gs & Hm & Hf & _)|(-> & _ & _ & _ & Hf)]; [|exact Hf].
    destruct captureMatches; [|exact Hf].
    exists (snd piece), k, a, gs.
    split; [eapply range_pieces_searched; eassumption|]. auto.
  - intros searchStart found. unfold findNextMatch. rewrite Hparse. fold searcher.
    destruct (multiline (SearchData.regex searchData)).
    + unfold _doFindNextMatchMultiline.
      pose proof (_doFindNextMatchMultiline_rec_spec 2 model searchStart searcher
                    searcher captureMatches ltac:(lia) (same_search_refl _)) as Hrec.
      destruct (_doFindNextMatchMultiline_rec 2 _ _ _ _) as [[r s]|]; [|discriminate].
      simpl in Hrec. injection Hrec as Hr. subst r. intros Hr.
      assert (forall position,
                 multiline_pass model searcher captureMatches position = Some found ->
                 captures_as model m captureMatches found) as Hpass.
      { intros position. unfold multiline_pass.
        match goal with
        | |- context [Searcher_next ?t ?s] =>
            pose proof (Searcher_next_post t s) as P;
            destruct (Searcher_next t s) as [[r|] s1]
        end; [|discriminate].
        cbn [fst]. intros H. inversion H.
        destruct P as (_ & _ & _ & _ & _ & _ & _ & _ & Hi & Hm & _).
        cbn in Hi, Hm.
        eapply createFindMatch_captures; [left; eauto| |exact Hm]. lia. }
      destruct (multiline_pass model searcher captureMatches searchStart) eqn:E1.
      * inversion Hr; subst. eapply Hpass. eassumption.
      * destruct (is_start_of_buffer searchStart); [discriminate|].
        eapply Hpass. eassumption.
    + intros H. apply _doFindNextMatchLineByLine_Some in H.
      destruct H as [H|(i & _ & H)];
        apply first_match_in_line_found in H; destruct H as (r & -> & Hi & Hm & _);
        (eapply Hline; [apply searched_text_line| |exact Hm]); lia.
  - intros searchStart found. unfold findPreviousMatch. rewrite Hparse. fold searcher.
    destruct (multiline (SearchData.regex searchData)).
    + unfold _doFindPreviousMatchMultiline.
      pose proof (_doFindPreviousMatchMultiline_rec_spec 2 model searchStart searcher
                    searcher captureMatches ltac:(lia) (same_search_refl _)) as Hrec.
      cbv zeta in Hrec.
      destruct (_doFindPreviousMatchMultiline_rec 2 _ _ _ _) as [[r s]|]; [|discriminate].
      simpl in Hrec. injection Hrec as Hr. subst r. intros Hr.
      destruct (last (fst (_doFindMatchesMultiline model
                             (new_Range 1 1 (lineNumber searchStart) (column searchStart))
                             searcher captureMatches (10 * LIMIT_FIND_COUNT)))) eqn:E1.
      * inversion Hr; subst. eapply Forall_last; [apply Hmulti|exact E1].
      * destruct (is_end_of_buffer model searchStart); [discriminate|].
        eapply Forall_last; [apply Hmulti|exact Hr].
    + intros H. apply _doFindPreviousMatchLineByLine_Some in H.
      destruct H as [H|(i & _ & H)];
        apply last_match_in_found in H; destruct H as (r & -> & Hi & Hm & _).
      * eapply Hline; [right; eauto|exact Hi|exact Hm].
      * eapply Hline; [apply searched_text_line|exact Hi|exact Hm].
Qed.

(** ** The first and the last match of the whole buffer *)

Lemma head_line_scan searcher text :
  head (line_scan searcher text)
  = fst (Searcher_next text (Searcher_reset 0 searcher)).
Proof.
  pose proof (line_scan_Some searcher text) as H. unfold scan_fuel in H.
  replace (2 * length text + 4)%nat with (S (2 * length text + 3)) in H by lia.
  cbn [scan_text] in H.
  destruct (Searcher_next text (Searcher_reset 0 searcher)) as [[m|] s1].
  - destruct (scan_text _ text s1) as [l|]; [|discriminate].
    inversion H as [H']. reflexivity.
  - inversion H as [H']. reflexivity.
Qed.

Lemma regex_report_0 lineNumber captureMatches m :
  regex_report lineNumber 0 captureMatches m = match_in_line lineNumber captureMatches m.
Proof. unfold regex_report, match_in_line. rewrite !Z.add_0_r. reflexivity. Qed.

(** Without the literal search string, a whole line reports the matches of
    its scan. *)
Lemma piece_reports_whole_line searchData captureMatches lineNumber text :
  captureMatches = true \/ SearchData.simpleSearch searchData = None ->
  piece_reports searchData captureMatches (lineNumber, 0, text)
  = match_in_line lineNumber captureMatches
    <$> line_scan (new_Searcher (SearchData.wordSeparators searchData)
                     (SearchData.regex searchData)) text.
Proof.
  intros Hpath. unfold piece_reports. cbn [fst snd].
  assert ((if negb captureMatches then simpleSearch_of searchData else None) = None)
    as ->.
  { destruct Hpath as [->|H]; [reflexivity|].
    unfold simpleSearch_of. rewrite H. destruct (negb captureMatches); reflexivity. }
  apply list_fmap_ext. intros i m _. apply regex_report_0.
Qed.

Lemma first_match_in_line_head model searcher captureMatches lineNumber :
  first_match_in_line model searcher captureMatches lineNumber 1
  = head (match_in_line lineNumber captureMatches
          <$> line_scan searcher (getLineContent model lineNumber)).
Proof.
  unfold first_match_in_line, _findFirstMatchInLine.
  destruct (line_scan searcher (getLineContent model lineNumber)) as [|m l] eqn:E;
    pose proof (head_line_scan searcher (getLineContent model lineNumber)) as H;
    rewrite E in H; cbn [head] in H;
    change (1 - 1) with 0;
    destruct (Searcher_next _ (Searcher_reset 0 searcher)) as [[m'|] s1];
    cbn [fst] in *; try discriminate; try reflexivity.
  inversion H; subst. reflexivity.
Qed.

Lemma whole_lines_seqZ count model lineNumber :
  whole_lines count model lineNumber
  = (fun l => (l, 0, getLineContent model l)) <$> seqZ lineNumber (Z.of_nat count).
Proof.
  revert lineNumber. induction count as [|count IH]; intros lineNumber; [reflexivity|].
  cbn [whole_lines]. rewrite seqZ_cons by lia. rewrite fmap_cons, IH.
  do 3 f_equal; lia.
Qed.

(** The pieces of the whole buffer are its lines. *)
Lemma range_pieces_whole model :
  lines model <> [] ->
  range_pieces model (rest_of_buffer model 1)
  = (fun l => (l, 0, getLineContent model l)) <$> seqZ 1 (getLineCount model).
Proof.
  intros Hne. assert (1 <= getLineCount model) as Hc
    by (unfold getLineCount; pose proof (len_pos _ Hne); lia).
  unfold rest_of_buffer, range_pieces, new_Range.
  pose proof (len_nonneg (getLineContent model (getLineCount model))) as Hl.
  unfold getLineMaxColumn.
  destruct (Z.gtb_spec 1 (getLineCount model)); [lia|].
  destruct (Z.eqb_spec 1 (getLineCount model)) as [Heq|Hneq].
  - destruct (Z.gtb_spec 1 (len (getLineContent model (getLineCount model)) + 1));
      [lia|].
    cbn [orb andb startLineNumber endLineNumber startColumn endColumn].
    rewrite <- Heq, Z.eqb_refl. change (1 - 1) with 0.
    replace (len (getLineContent model 1) + 1 - 1) with (len (getLineContent model 1))
      by lia.
    rewrite substring_whole. reflexivity.
  - cbn [orb andb startLineNumber endLineNumber startColumn endColumn].
    destruct (Z.eqb_spec 1 (getLineCount model)); [contradiction|].
    rewrite whole_lines_seqZ.
    replace (len (getLineContent model (getLineCount model)) + 1 - 1)
      with (len (getLineContent model (getLineCount model))) by lia.
    unfold substring_from. change (1 - 1) with 0. rewrite !substring_whole.
    rewrite (seqZ_cons 1) by lia. rewrite fmap_cons. f_equal.
    replace (Z.pred (getLineCount model))
      with (Z.of_nat (S (Z.to_nat (getLineCount model - 1 - 1)))) by lia.
    rewrite seqZ_S, fmap_app. cbn [fmap list_fmap]. do 4 f_equal; lia.
Qed.

Lemma head_concat_fmap {A B} (F : A -> list B) (l : list A) :
  head (concat (F <$> l)) = first_some (fun x => head (F x)) l.
Proof.
  induction l as [|x l IH]; [reflexivity|].
  rewrite fmap_cons, concat_cons. cbn [first_some].
  destruct (F x); simpl; [exact IH|reflexivity].
Qed.

Lemma last_concat_fmap {A B} (F : A -> list B) (l : list A) :
  last (concat (F <$> l)) = first_some (fun x => last (F x)) (reverse l).
Proof.
  induction l as [|x l IH] using rev_ind; [reflexivity|].
  rewrite fmap_app, concat_app, reverse_snoc. cbn [first_some fmap list_fmap concat].
  rewrite app_nil_r, last_app. destruct (last (F x)); [reflexivity|exact IH].
Qed.

Lemma head_take {A} n (l : list A) : (0 < n)%nat -> head (take n l) = head l.
Proof. destruct n; [lia|]. destruct l; reflexivity. Qed.

Lemma first_some_app {A B} (f : A -> option B) (l1 l2 : list A) :
  first_some f (l1 ++ l2)
  = match first_some f l1 with Some y => Some y | None => first_some f l2 end.
Proof.
  induction l1 as [|x l1 IH]; [reflexivity|]. simpl. destruct (f x); [reflexivity|exact IH].
Qed.

Lemma first_some_None {A B} (f : A -> option B) (l : list A) x :
  first_some f l = None -> x ∈ l -> f x = None.
Proof.
  induction l as [|y l IH]; intros H Hx; [inversion Hx|]. simpl in H.
  destruct (f y) eqn:E; [discriminate|]. apply elem_of_cons in Hx.
  destruct Hx as [->|Hx]; [assumption|auto].
Qed.

(** Trying again a candidate already tried changes nothing. *)
Lemma first_some_again {A B} (f : A -> option B) (l : list A) x :
  x ∈ l -> first_some f (l ++ [x]) = first_some f l.
Proof.
  intros Hx. rewrite first_some_app. destruct (first_some f l) eqn:E; [reflexivity|].
  simpl. rewrite (first_some_None f l x E Hx). reflexivity.
Qed.

Lemma head_fmap {A B} (f : A -> B) (l : list A) : head (f <$> l) = f <$> head l.
Proof. destruct l; reflexivity. Qed.

Lemma first_some_fmap {A B C} (f : B -> option C) (g : A -> B) (l : list A) :
  first_some f (g <$> l) = first_some (fun x => f (g x)) l.
Proof.
  induction l as [|x l IH]; [reflexivity|]. rewrite fmap_cons. simpl.
  destruct (f (g x)); [reflexivity|exact IH].
Qed.

Lemma first_some_ext {A B} (f g : A -> option B) (l : list A) :
  (forall x, f x = g x) -> first_some f l = first_some g l.
Proof.
  intros H. induction l as [|x l IH]; [reflexivity|]. simpl. rewrite H, IH. reflexivity.
Qed.

Lemma getStartPosition_rest_of_buffer model :
  lines model <> [] ->
  getStartPosition (rest_of_buffer model 1) = {| lineNumber := 1; column := 1 |}.
Proof.
  intros Hne. assert (1 <= getLineCount model) as Hc
    by (unfold getLineCount; pose proof (len_pos _ Hne); lia).
  pose proof (len_nonneg (getLineContent model (getLineCount model))) as Hl.
  unfold rest_of_buffer, new_Range, getLineMaxColumn.
  destruct (Z.gtb_spec 1 (getLineCount model)); [lia|].
  destruct (Z.gtb_spec 1 (len (getLineContent model (getLineCount model)) + 1)); [lia|].
  rewrite andb_false_r. reflexivity.
Qed.

(** X7: searching forward from the start of the buffer gives the first of
    all matches.  For a buffer with at least one line and a limit of at
    least 1, [findNextMatch] from position (1,1) returns the first element
    of what [findMatches] returns for the whole buffer, or null when that is
    empty: for a multiline query, and for any query searched through the
    regular expression (with captures, or without a literal search
    string). *)
Theorem findNextMatch_from_start_is_first_match model searchParams searchData
    captureMatches limitResultCount :
  parseSearchRequest searchParams = Some searchData ->
  lines model <> [] ->
  1 <= limitResultCount ->
  multiline (SearchData.regex searchData) = true
  \/ captureMatches = true
  \/ SearchData.simpleSearch searchData = None ->
  findNextMatch model searchParams {| lineNumber := 1; column := 1 |} captureMatches
  = head (findMatches model searchParams (rest_of_buffer model 1) captureMatches
            limitResultCount).
Proof.
  intros Hparse Hne Hlim Hpath. unfold findNextMatch, findMatches. rewrite Hparse.
  set (searcher := new_Searcher (SearchData.wordSeparators searchData)
                     (SearchData.regex searchData)).
  assert (1 <= getLineCount model) as Hc
    by (unfold getLineCount; pose proof (len_pos _ Hne); lia).
  destruct (multiline (SearchData.regex searchData)) eqn:Hml.
  - unfold _doFindNextMatchMultiline.
    pose proof (_doFindNextMatchMultiline_rec_spec 2 model
                  {| lineNumber := 1; column := 1 |} searcher searcher captureMatches
                  ltac:(lia) (same_search_refl _)) as Hrec.
    destruct (_doFindNextMatchMultiline_rec 2 _ _ _ _) as [[r s]|]; [|discriminate].
    simpl in Hrec. injection Hrec as Hr. subst r.
    rewrite _doFindMatchesMultiline_items, head_take by lia.
    unfold multiline_reports. rewrite head_fmap, head_line_scan.
    rewrite getStartPosition_rest_of_buffer by assumption.
    unfold multiline_pass. cbn [lineNumber column]. change (1 - 1) with 0.
    destruct (fst (Searcher_next _ _)); reflexivity.
  - assert (captureMatches = true \/ SearchData.simpleSearch searchData = None)
      as Hregex by (destruct Hpath as [?|?]; [discriminate|assumption]).
    rewrite _doFindNextMatchLineByLine_spec by (cbn; lia).
    rewrite _doFindMatchesLineByLine_items, head_take by lia.
    rewrite range_pieces_whole, head_concat_fmap, first_some_fmap by assumption.
    rewrite (first_some_ext
               (fun l => head (piece_reports searchData captureMatches
                                 (l, 0, getLineContent model l)))
               (fun l => first_match_in_line model searcher captureMatches l 1)).
    2:{ intros l. rewrite piece_reports_whole_line by assumption.
        symmetry. apply first_match_in_line_head. }
    cbn [lineNumber column]. unfold lines_after_cyclically.
    rewrite <- (first_some_again _ (seqZ 1 (getLineCount model)) 1)
      by (apply elem_of_seqZ; lia).
    rewrite (seqZ_cons 1 (getLineCount model)) by lia. cbn [app first_some].
    replace (Z.succ 1) with (1 + 1) by lia.
    replace (Z.pred (getLineCount model)) with (getLineCount model - 1) by lia.
    reflexivity.
Qed.

(** X8: searching backward from the end of the buffer gives the last of
    all matches.  For a query that is not multiline and is searched through
    the regular expression, when [findMatches] over the whole buffer returns
    fewer matches than its limit, [findPreviousMatch] from the end of the
    buffer returns the last of them, or null when there is none. *)
Theorem findPreviousMatch_from_end_is_last_match model searchParams searchData
    captureMatches limitResultCount :
  parseSearchRequest searchParams = Some searchData ->
  multiline (SearchData.regex searchData) = false ->
  lines model <> [] ->
  captureMatches = true \/ SearchData.simpleSearch searchData = None ->
  len (findMatches model searchParams (rest_of_buffer model 1) captureMatches
         limitResultCount) < limitResultCount ->
  findPreviousMatch model searchParams (end_of_buffer model) captureMatches
  = last (findMatches model searchParams (rest_of_buffer model 1) captureMatches
            limitResultCount).
Proof.
  intros Hparse Hml Hne Hregex. unfold findPreviousMatch, findMatches.
  rewrite Hparse, Hml.
  set (searcher := new_Searcher (SearchData.wordSeparators searchData)
                     (SearchData.regex searchData)).
  assert (1 <= getLineCount model) as Hc
    by (unfold getLineCount; pose proof (len_pos _ Hne); lia).
  intros Hfew.
  assert (1 <= limitResultCount) as Hlim.
  { pose proof (len_nonneg (_doFindMatchesLineByLine model (rest_of_buffer model 1)
                              searchData captureMatches limitResultCount)). lia. }
  rewrite _doFindMatchesLineByLine_items in * by assumption.
  rewrite take_ge.
  2:{ unfold len in Hfew. rewrite length_take in Hfew. lia. }
  rewrite range_pieces_whole, <- list_fmap_compose, last_concat_fmap by assumption.
  rewrite (first_some_ext
             (fun l => last ((piece_reports searchData captureMatches
                              ∘ (fun l => (l, 0, getLineContent model l))) l))
             (fun l => last_match_in searcher captureMatches l
                         (getLineContent model l))).
  2:{ intros l. unfold compose. rewrite piece_reports_whole_line by assumption.
      reflexivity. }
  rewrite _doFindPreviousMatchLineByLine_spec by (cbn; lia).
  unfold end_of_buffer, getLineMaxColumn. cbn [lineNumber column].
  replace (len (getLineContent model (getLineCount model)) + 1 - 1)
    with (len (getLineContent model (getLineCount model))) by lia.
  rewrite substring_whole. unfold lines_before_cyclically.
  replace (getLineCount model - getLineCount model + 1) with 1 by lia.
  assert (reverse (seqZ 1 (getLineCount model))
          = getLineCount model :: reverse (seqZ 1 (getLineCount model - 1))) as ->.
  { replace (seqZ 1 (getLineCount model))
      with (seqZ 1 (Z.of_nat (S (Z.to_nat (getLineCount model - 1)))))
      by (f_equal; lia).
    rewrite seqZ_S, reverse_snoc. do 3 f_equal; lia. }
  change (reverse (seqZ (getLineCount model) 1)) with [getLineCount model].
  rewrite <- (first_some_again _ (getLineCount model :: _) (getLineCount model))
    by left.
  reflexivity.
Qed.

(** ** Further properties of the searcher *)

Lemma exec_scan_None_inv m s p positions :
  exec_scan m s p positions = None ->
  forall q, p <= q < p + Z.of_nat positions -> m s q = None.
Proof.
  revert p. induction positions as [|n IH]; intros p H q Hq; [lia|].
  simpl in H. destruct (m s p) as [[a gs]|] eqn:E; [discriminate|].
  destruct (Z.eq_dec q p) as [->|]; [assumption|]. apply (IH (p + 1)); [assumption|lia].
Qed.

Lemma RegExp_exec_None re s re' :
  RegExp_exec re s = (None, re') ->
  forall q, Z.max 0 (lastIndex re) <= q <= len s -> matcher re s q = None.
Proof.
  unfold RegExp_exec. intros H q Hq.
  destruct (Z.gtb_spec (Z.max 0 (lastIndex re)) (len s)); [lia|].
  destruct (exec_scan _ _ _ _) eqn:E; [discriminate|].
  eapply exec_scan_None_inv; [exact E|lia].
Qed.

(** X9: [next] returns only matches that pass the word test.  A match
    returned by [Searcher.next] is a match of the pattern in the text, at or
    after the index the expression stood at; the classifier of the searcher,
    when there is one, accepts it, whatever the matches skipped before it;
    and the searcher then remembers this match and its expression stands at
    the end of it. *)
Theorem Searcher_next_returns_accepted_match text this m this' :
  Searcher_next text this = (Some m, this') ->
  Z.max 0 (lastIndex (_searchRegex this)) <= index m <= len text
  /\ matcher (_searchRegex this) text (index m) = Some (m0 m, groups m)
  /\ accepts (_wordSeparators this) text (len text) (index m) (len (m0 m)) = true
  /\ lastIndex (_searchRegex this') = index m + len (m0 m)
  /\ _prevMatchStartIndex this' = index m
  /\ _prevMatchLength this' = len (m0 m).
Proof.
  intros H. pose proof (Searcher_next_post text this) as P. rewrite H in P.
  destruct P as (_ & _ & _ & _ & _ & Hs & Hl & Hli & Hi & Hmt & Hacc).
  cbn [fst snd] in *. repeat split; (assumption || lia).
Qed.

(** X10: the matches [next] returns one after the other advance and do
    not overlap: the second starts at or after the end of the first, and
    after its start. *)
Theorem Searcher_next_successive_matches text this m1 this1 m2 this2 :
  Searcher_next text this = (Some m1, this1) ->
  Searcher_next text this1 = (Some m2, this2) ->
  index m1 + len (m0 m1) <= index m2 /\ index m1 < index m2.
Proof. apply Searcher_next_advances. Qed.

(** X11: after [reset], a searcher without a classifier finds the leftmost
    match.  [next] called right after [reset(k)] returns the match of the
    pattern at the least index at or after [k] (after 0 when [k] is
    negative), and null exactly when the pattern matches at no index from
    there to the end of the text. *)
Theorem Searcher_next_after_reset_is_leftmost text this k :
  _wordSeparators this = None ->
  match fst (Searcher_next text (Searcher_reset k this)) with
  | Some m =>
      Z.max 0 k <= index m <= len text
      /\ matcher (_searchRegex this) text (index m) = Some (m0 m, groups m)
      /\ forall q, Z.max 0 k <= q < index m -> matcher (_searchRegex this) text q = None
  | None =>
      forall q, Z.max 0 k <= q <= len text -> matcher (_searchRegex this) text q = None
  end.
Proof.
  intros Hws. pose proof (len_nonneg text) as Ht.
  pose proof (next_body_cases text (Searcher_reset k this)) as Hc.
  destruct (next_body text (Searcher_reset k this)) as [this'|r] eqn:Hb.
  { exfalso. destruct Hc as (m & re & _ & _ & _ & Hacc & _).
    cbn in Hacc. rewrite Hws in Hacc. discriminate. }
  rewrite (next_body_return _ _ _ Hb). destruct r as [[m|] this']; cbn [fst].
  - destruct Hc as (re & _ & E & _).
    apply RegExp_exec_Some in E. cbn in E. destruct E as (Hi & Hm & Hfirst & _).
    repeat split; (assumption || lia).
  - destruct Hc as [[Hend _]|(_ & re & _ & [E|(m & E & Hi & _)])].
    + cbn in Hend. lia.
    + intros q Hq. apply (RegExp_exec_None _ _ _ E). cbn. exact Hq.
    + apply RegExp_exec_Some in E. cbn in E, Hi. lia.
Qed.

(** ** Further properties of the search request *)

(** X12: a query without a usable pattern finds nothing.  When the search
    string is empty, or the engine refuses to compile it, there is no search
    request, [findMatches] returns the empty list and [findNextMatch] and
    [findPreviousMatch] return null, whatever the buffer. *)
Theorem unusable_pattern_finds_nothing model searchParams searchRange searchStart
    captureMatches limitResultCount :
  searchString searchParams = []
  \/ (forall options,
         RegExp_compile (searchString searchParams) (isRegex searchParams) options
         = None) ->
  parseSearchRequest searchParams = None
  /\ findMatches model searchParams searchRange captureMatches limitResultCount = []
  /\ findNextMatch model searchParams searchStart captureMatches = None
  /\ findPreviousMatch model searchParams searchStart captureMatches = None.
Proof.
  intros H.
  assert (parseSearchRequest searchParams = None) as Hparse.
  { unfold parseSearchRequest. destruct H as [->|H]; [reflexivity|].
    destruct (negb (truthy (searchString searchParams))); [reflexivity|].
    unfold createRegExp. rewrite H. reflexivity. }
  unfold findMatches, findNextMatch, findPreviousMatch. rewrite Hparse. auto.
Qed.

(** X13: when the search takes the literal fast path.  A search request
    carries the literal search string exactly when the query is not a
    regular expression, its search string holds no line feed, and case
    cannot matter: the query matches case, or the lower-case and upper-case
    forms of the search string are the same.  What it carries then is the
    search string itself; and it carries a word classifier exactly when the
    query names word separators. *)
Theorem simpleSearch_eligibility searchParams searchData :
  parseSearchRequest searchParams = Some searchData ->
  (SearchData.simpleSearch searchData = Some (searchString searchParams)
   <-> isRegex searchParams = false
       /\ ~ In CharCode.LineFeed (searchString searchParams)
       /\ (matchCase searchParams = true
           \/ toLowerCase (searchString searchParams)
              = toUpperCase (searchString searchParams)))
  /\ (SearchData.simpleSearch searchData = None
      \/ SearchData.simpleSearch searchData = Some (searchString searchParams))
  /\ (SearchData.wordSeparators searchData = None <-> wordSeparators searchParams = []).
Proof.
  unfold parseSearchRequest.
  destruct (negb (truthy (searchString searchParams))); [discriminate|].
  destruct (createRegExp _ _ _) as [regex|]; [|discriminate].
  intros H. inversion H; subst; clear H. cbn [SearchData.simpleSearch
                                                SearchData.wordSeparators].
  pose proof (indexOf_single CharCode.LineFeed (searchString searchParams)) as Hlf.
  split; [|split].
  - destruct (isRegex searchParams); cbn [negb andb].
    { split; [discriminate|]. intros (? & _). discriminate. }
    destruct (indexOf (searchString searchParams) [CharCode.LineFeed] 0 >=? 0);
      cbn [negb andb].
    { split; [discriminate|]. intros (_ & Hn & _). exfalso. apply Hn, Hlf. reflexivity. }
    assert (~ In CharCode.LineFeed (searchString searchParams)) as Hn
      by (intros Hin; apply Hlf in Hin; discriminate).
    destruct (bool_decide_reflect (toLowerCase (searchString searchParams)
                                   = toUpperCase (searchString searchParams)))
      as [Heq|Hneq]; cbn [negb].
    + split; [auto|reflexivity].
    + destruct (matchCase searchParams).
      * split; [auto|reflexivity].
      * split; [discriminate|]. intros (_ & _ & [?|?]); [discriminate|contradiction].
  - destruct (if _ : bool then matchCase searchParams else _); auto.
  - destruct (wordSeparators searchParams); cbn [truthy].
    + split; reflexivity.
    + split; discriminate.
Qed.

(** ** Reading the reports back *)

Lemma starts_with_take_eq p s : starts_with p s = true -> take (length p) s = p.
Proof.
  revert s. induction p as [|c p IH]; intros s H; [reflexivity|].
  destruct s as [|d s]; [discriminate|]. simpl in *.
  apply andb_true_iff in H. destruct H as [Hc Hs]. apply Z.eqb_eq in Hc. subst d.
  f_equal. apply IH. assumption.
Qed.

(** A piece of a range of the buffer is a stretch of one of its lines. *)
Lemma range_pieces_valid model searchRange piece :
  valid_range model searchRange ->
  piece ∈ range_pieces model searchRange ->
  1 <= fst (fst piece) <= getLineCount model
  /\ 0 <= snd (fst piece)
  /\ snd (fst piece) + len (snd piece) <= len (getLineContent model (fst (fst piece)))
  /\ snd piece
     = take (length (snd piece))
         (drop (Z.to_nat (snd (fst piece))) (getLineContent model (fst (fst piece)))).
Proof.
  intros ([Hsl Hsc] & [Hel Hec] & Hle) Hin. apply In_range_pieces in Hin.
  cbv zeta in Hin. unfold getLineMaxColumn, position_le in *.
  cbn [getStartPosition getEndPosition lineNumber column] in *.
  set (line := getLineContent model (fst (fst piece))) in *.
  assert (forall a b, 0 <= a <= b -> b <= len line ->
                      a + len (substring line a b) <= len line
                      /\ substring line a b
                         = take (length (substring line a b)) (drop (Z.to_nat a) line))
    as Hsub.
  { intros a b Hab Hb. rewrite substring_spec by lia. unfold len in *.
    rewrite length_take, length_drop. split; [lia|]. f_equal. lia. }
  destruct Hin as [(Hl & Hd & Ht)|[(Hl & Hd & Ht)|(Hne & Hl & Hd & Ht)]].
  - rewrite Hl, Hd, Ht in *. fold line.
    destruct (Z.eqb_spec (startLineNumber searchRange) (endLineNumber searchRange))
      as [Heq|Hneq].
    + rewrite <- Heq in Hec. unfold line in *. rewrite Hl in *.
      destruct (Hsub (startColumn searchRange - 1) (endColumn searchRange - 1));
        try lia.
      repeat split; (assumption || lia).
    + unfold substring_from. unfold line in *. rewrite Hl in *.
      destruct (Hsub (startColumn searchRange - 1)
                  (len (getLineContent model (startLineNumber searchRange))));
        try lia.
      repeat split; (assumption || lia).
  - rewrite Hd, Ht. split; [lia|]. split; [lia|]. split; [lia|].
    rewrite drop_0, firstn_all. reflexivity.
  - rewrite Hl, Hd, Ht in *. fold line. unfold line in *. rewrite Hl in *.
    destruct (Hsub 0 (endColumn searchRange - 1)); try lia.
    repeat split; (assumption || lia).
Qed.

(** The text of the buffer in the range of a stretch of a piece. *)
Lemma span_in_piece_reads_back model searchRange piece k (a : jsstring) :
  valid_range model searchRange ->
  piece ∈ range_pieces model searchRange ->
  0 <= k -> k + len a <= len (snd piece) ->
  a = take (length a) (drop (Z.to_nat k) (snd piece)) ->
  getValueInRange_LF model (span_in_piece piece k (len a)) = a.
Proof.
  intros Hr Hin Hk Hend Ha.
  destruct (range_pieces_valid model searchRange piece Hr Hin) as (Hl & Hd & Hlen & Ht).
  pose proof (len_nonneg a).
  unfold getValueInRange_LF, span_in_piece.
  cbn [plain_range startLineNumber endLineNumber startColumn endColumn].
  rewrite Z.eqb_refl, substring_spec by lia.
  etransitivity; [|symmetry; exact Ha].
  destruct piece as [[lineNumber deltaOffset] text]. cbn [fst snd] in *.
  rewrite Ht.
  rewrite (take_drop_commute _ (length text)).
  rewrite (take_drop_take _ (Z.to_nat deltaOffset) _ (length a) (Z.to_nat k))
    by (unfold len in *; lia).
  f_equal; [unfold len; lia|]. f_equal. lia.
Qed.

Lemma parseSearchRequest_simpleSearch searchParams searchData :
  parseSearchRequest searchParams = Some searchData ->
  SearchData.simpleSearch searchData <> None ->
  simpleSearch_of searchData = Some (searchString searchParams)
  /\ multiline (SearchData.regex searchData) = false.
Proof.
  intros Hparse Hs.
  destruct (parseSearchRequest_Some _ _ Hparse) as (Hne & Hml & _).
  revert Hparse Hs. unfold parseSearchRequest.
  destruct (negb (truthy (searchString searchParams))); [discriminate|].
  destruct (createRegExp _ _ _) as [regex|]; [|discriminate].
  intros H. inversion H; subst; clear H. cbn [SearchData.simpleSearch] in *.
  unfold simpleSearch_of. cbn [SearchData.simpleSearch SearchData.regex] in *.
  rewrite Hml.
  destruct (isRegex searchParams); cbn [negb andb]; [congruence|].
  destruct (indexOf (searchString searchParams) [CharCode.LineFeed] 0 >=? 0);
    cbn [negb andb]; [congruence|].
  intros Hs. split; [|reflexivity].
  destruct (if _ : bool then matchCase searchParams else true); [|congruence].
  destruct (searchString searchParams); [congruence|reflexivity].
Qed.

(** X14: what a capturing search captures is what the buffer holds.  For
    an engine that returns the matched stretch of its subject, a buffer none
    of whose lines holds a line feed and a range of that buffer, every match
    [findMatches] returns with captures carries, as its first string, the
    text of the buffer in the range it reports: for both search strategies
    and both end-of-line styles. *)
Theorem findMatches_captured_text_is_range_text model searchParams searchData
    searchRange limitResultCount :
  parseSearchRequest searchParams = Some searchData ->
  returns_matched_text (matcher (SearchData.regex searchData)) ->
  well_formed_buffer model ->
  valid_range model searchRange ->
  Forall (fun f => exists a gs,
              matches f = Some (Some a :: gs)
              /\ getValueInRange_LF model (range f) = a)
    (findMatches model searchParams searchRange true limitResultCount).
Proof.
  intros Hparse Hengine Hwf Hr. unfold findMatches. rewrite Hparse.
  destruct (multiline (SearchData.regex searchData)).
  - rewrite _doFindMatchesMultiline_items. apply Forall_take.
    unfold multiline_reports. apply Forall_fmap.
    pose proof (scan_text_accepted _ _ _ _
                  (line_scan_Some (new_Searcher (SearchData.wordSeparators searchData)
                                     (SearchData.regex searchData))
                     (getValueInRange_LF model searchRange))) as HF.
    eapply Forall_impl; [exact HF|].
    intros m (Hi & Hmt & _). cbn in Hmt. cbn [compose].
    exists (m0 m), (groups m). split; [reflexivity|].
    destruct (Hengine _ _ _ _ (proj1 Hi) Hmt) as [Hend Ha].
    unfold multiline_report, createFindMatch. cbn [negb range].
    rewrite (proj2 (_getMultilineMatchRange_reads_back model searchRange (index m)
                      (m0 m) Hwf Hr (proj1 Hi) Hend)).
    symmetry. exact Ha.
  - eapply Forall_impl; [apply _doFindMatchesLineByLine_found|].
    intros f (piece & Hin & k & a & Hk & Hrange & _ & Hfound). cbn beta.
    destruct Hfound as [(gs & Hmt & Hm & _)|(? & _)]; [|discriminate].
    exists a, gs. split; [assumption|].
    destruct (Hengine _ _ _ _ (proj1 Hk) Hmt) as [Hend Ha].
    rewrite Hrange. eapply span_in_piece_reads_back; (eassumption || lia).
Qed.

(** X15: the literal fast path reports occurrences of the search string.
    When the search request carries the literal search string, every match
    [findMatches] returns without captures covers, in a range of the buffer
    searched, a stretch of text equal to the search string, and carries no
    captured strings. *)
Theorem literal_fast_path_reports_the_search_string model searchParams searchData
    searchRange limitResultCount :
  parseSearchRequest searchParams = Some searchData ->
  SearchData.simpleSearch searchData <> None ->
  valid_range model searchRange ->
  Forall (fun f => matches f = None
                   /\ getValueInRange_LF model (range f) = searchString searchParams)
    (findMatches model searchParams searchRange false limitResultCount).
Proof.
  intros Hparse Hsimple Hr. unfold findMatches. rewrite Hparse.
  destruct (parseSearchRequest_simpleSearch _ _ Hparse Hsimple) as [Hof ->].
  eapply Forall_impl; [apply _doFindMatchesLineByLine_found|].
  intros f (piece & Hin & k & a & Hk & Hrange & _ & Hfound). cbn beta.
  destruct Hfound as [(gs & _ & _ & [?|Hnone])|(_ & Hs & Hend & Hstart & Hm)];
    [discriminate|congruence|].
  split; [assumption|].
  assert (a = searchString searchParams) as <-.
  { apply simpleSearch_of_Some in Hof. destruct Hof as [Hof _]. congruence. }
  rewrite Hrange. eapply span_in_piece_reads_back; try (eassumption || lia).
  symmetry. apply starts_with_take_eq. assumption.
Qed.

(** X16: the line-by-line searches forward and backward return ranges of
    the buffer.  For a query that is not multiline and a pattern that
    matches nothing beyond the end of the text it is run on, the match
    [findNextMatch] or [findPreviousMatch] returns from a position on a line
    of the buffer lies in one line of the buffer, between its first column
    and the column behind its last character. *)
Theorem next_and_previous_match_lie_in_the_buffer model searchParams searchData
    searchStart captureMatches found :
  parseSearchRequest searchParams = Some searchData ->
  multiline (SearchData.regex searchData) = false ->
  matches_inside_text (matcher (SearchData.regex searchData)) ->
  1 <= lineNumber searchStart <= getLineCount model ->
  findNextMatch model searchParams searchStart captureMatches = Some found
  \/ findPreviousMatch model searchParams searchStart captureMatches = Some found ->
  valid_range model (range found)
  /\ startLineNumber (range found) = endLineNumber (range found).
Proof.
  intros Hparse Hml Hinside Hline.
  unfold findNextMatch, findPreviousMatch. rewrite Hparse, Hml.
  set (searcher := new_Searcher (SearchData.wordSeparators searchData)
                     (SearchData.regex searchData)).
  assert (forall lineNumber m,
             1 <= lineNumber <= getLineCount model ->
             0 <= index m ->
             index m + len (m0 m) <= len (getLineContent model lineNumber) ->
             valid_range model (range (match_in_line lineNumber captureMatches m))
             /\ startLineNumber (range (match_in_line lineNumber captureMatches m))
                = endLineNumber (range (match_in_line lineNumber captureMatches m)))
    as Hvalid.
  { intros lineNumber m Hl Hi Hend. rewrite range_match_in_line.
    pose proof (len_nonneg (m0 m)).
    unfold valid_range, valid_position, position_le, getLineMaxColumn. cbn.
    repeat split; lia. }
  assert (forall i, 0 <= i ->
             1 <= Z.rem i (getLineCount model) + 1 <= getLineCount model) as Hrem.
  { intros i Hi. pose proof (Z.rem_bound_pos i (getLineCount model)). lia. }
  intros [H|H].
  - apply _doFindNextMatchLineByLine_Some in H.
    destruct H as [H|(i & Hi & H)]; apply first_match_in_line_found in H;
      destruct H as (m & -> & Hidx & Hmt & _); cbn in Hmt;
      (apply Hvalid; [first [assumption|apply Hrem; lia]|lia|]);
      eapply Hinside; exact Hmt.
  - apply _doFindPreviousMatchLineByLine_Some in H. cbv zeta in H.
    destruct H as [H|(i & Hi & H)]; apply last_match_in_found in H;
      destruct H as (m & -> & Hidx & Hmt & _); cbn in Hmt;
      (apply Hvalid; [first [assumption|apply Hrem; lia]|lia|]);
      apply Hinside in Hmt; [|assumption].
    rewrite len_substring in Hmt. unfold clamp in Hmt.
    pose proof (len_nonneg (getLineContent model (lineNumber searchStart))). lia.
Qed.

(** ** Further properties of the multiline search *)

Lemma positionAt_mono_any e ls lineNumber0 a b :
  a <= b ->
  position_le (positionAt e ls lineNumber0 a) (positionAt e ls lineNumber0 b).
Proof.
  revert lineNumber0 a b. induction ls as [|l ls IH]; intros lineNumber0 a b Hab.
  - right. simpl. lia.
  - destruct ls as [|l' ls].
    + right. simpl. lia.
    + rewrite !(positionAt_cons _ l) by congruence.
      destruct (Z.ltb_spec a (len l + e)); destruct (Z.ltb_spec b (len l + e)).
      * right. simpl. lia.
      * left. cbn [lineNumber].
        pose proof (positionAt_line_ge e (l' :: ls) (lineNumber0 + 1) (b - (len l + e))).
        lia.
      * lia.
      * apply IH. lia.
Qed.

Lemma getPositionAt_mono model a b :
  a <= b -> position_le (getPositionAt model a) (getPositionAt model b).
Proof. intros H. apply positionAt_mono_any. lia. Qed.

Lemma count_line_feeds_take_mono (T : jsstring) (a b : nat) :
  (a <= b)%nat -> count_line_feeds (take a T) <= count_line_feeds (take b T).
Proof.
  intros H. replace b with (a + (b - a))%nat by lia.
  rewrite count_line_feeds_take_drop.
  pose proof (count_line_feeds_nonneg (take (b - a) (drop a T))). lia.
Qed.

(** The offsets [_getMultilineMatchRange] computes for two matches, the
    first before the second: start, end, start, in this order. *)
Lemma multiline_offsets_ordered model deltaOffset text m1 m2 :
  0 <= index m1 -> match_before m1 m2 ->
  let start1 := multilineStartOffset model deltaOffset text (index m1) in
  let end1 := multilineEndOffset model start1 text (index m1) (m0 m1) in
  let start2 := multilineStartOffset model deltaOffset text (index m2) in
  start1 <= end1 /\ end1 <= start2.
Proof.
  intros Hi [Hb _]. pose proof (len_nonneg (m0 m1)) as Hl.
  unfold multilineStartOffset, multilineEndOffset. destruct (EOL model); [lia|].
  cbv zeta.
  assert (forall idx, lineFeedCount (Z.to_nat idx) text 0
                      = count_line_feeds (take (Z.to_nat idx) text)) as Hbefore
    by (intros idx; apply (lineFeedCount_spec _ _ O)).
  assert (lineFeedCount (length (m0 m1)) text (index m1)
          = count_line_feeds (take (length (m0 m1))
                                (drop (Z.to_nat (index m1)) text))) as Hin
    by (rewrite <- (Z2Nat.id (index m1)) at 1 by assumption;
        apply lineFeedCount_spec).
  rewrite !Hbefore, Hin.
  pose proof (count_line_feeds_nonneg
                (take (length (m0 m1)) (drop (Z.to_nat (index m1)) text))).
  pose proof (count_line_feeds_take_drop text (Z.to_nat (index m1)) (length (m0 m1)))
    as Hsum.
  pose proof (count_line_feeds_take_mono text
                (Z.to_nat (index m1) + length (m0 m1)) (Z.to_nat (index m2))
                ltac:(unfold len in *; lia)).
  lia.
Qed.

Lemma StronglySorted_and_Forall {A} (R : A -> A -> Prop) (P : A -> Prop) (l : list A) :
  StronglySorted R l -> Forall P l ->
  StronglySorted (fun x y => P x /\ R x y) l.
Proof.
  induction 1 as [|x l Hs IH HF]; intros HP; [constructor|].
  inversion HP; subst. constructor; [auto|].
  eapply Forall_impl; [exact HF|]. cbn. auto.
Qed.

Lemma range_multiline_report model deltaOffset text captureMatches m :
  range (multiline_report model deltaOffset text captureMatches m)
  = _getMultilineMatchRange model deltaOffset text (index m) (m0 m).
Proof.
  unfold multiline_report, createFindMatch. destruct (negb captureMatches); reflexivity.
Qed.

(** The reports of the multiline search come in the order of the buffer:
    each ends at or before the start of every later one. *)
Lemma multiline_reports_sorted model searchRange searcher captureMatches :
  StronglySorted
    (fun f g =>
       position_le (getStartPosition (range f)) (getEndPosition (range f))
       /\ position_le (getEndPosition (range f)) (getStartPosition (range g)))
    (multiline_reports model searchRange searcher captureMatches).
Proof.
  unfold multiline_reports.
  set (text := getValueInRange_LF model searchRange).
  apply (StronglySorted_fmap _ (fun m1 m2 => 0 <= index m1 /\ match_before m1 m2)).
  - intros m1 m2 [Hi Hb]. rewrite !range_multiline_report.
    destruct (multiline_offsets_ordered model
                (getOffsetAt model (getStartPosition searchRange)) text m1 m2 Hi Hb)
      as [H1 H2].
    unfold _getMultilineMatchRange.
    pose proof (getPositionAt_mono model _ _ H1) as Hp1.
    pose proof (getPositionAt_mono model _ _ H2) as Hp2.
    rewrite (new_Range_ordered _ _ Hp1).
    match goal with
    | |- context [new_Range (lineNumber ?p) (column ?p) (lineNumber ?q) (column ?q)] =>
        assert (position_le p q) as Hp3
    end.
    { apply getPositionAt_mono. unfold multilineEndOffset.
      pose proof (len_nonneg (m0 m2)).
      destruct (EOL model); [lia|].
      assert (0 <= lineFeedCount (length (m0 m2)) text (index m2)); [|lia].
      generalize (index m2). induction (length (m0 m2)) as [|n IH]; intros z;
        [simpl; lia|].
      cbn [lineFeedCount]. specialize (IH (z + 1)).
      destruct (code_is _ _); lia. }
    rewrite (new_Range_ordered _ _ Hp3).
    unfold position_le in *.
    cbn [getStartPosition getEndPosition lineNumber column startLineNumber
         startColumn endLineNumber endColumn].
    split; assumption.
  - apply StronglySorted_and_Forall.
    + eapply scan_text_sorted. apply line_scan_Some.
    + eapply Forall_impl; [eapply scan_text_accepted; apply line_scan_Some|].
      cbn. intros m H. lia.
Qed.

(** X17: the multiline search reports nothing it did not find.  For an
    engine that returns the matched stretch of its subject, a buffer none of
    whose lines holds a line feed and a range of it, every match
    [findMatches] returns for a multiline query is a match of the regular
    expression in the line-feed-joined text of the range that the word
    classifier accepts; it is reported with a range of the buffer, and the
    text of the buffer in that range is the text matched, whichever
    end-of-line style the buffer has. *)
Theorem findMatches_multiline_sound model searchParams searchData searchRange
    captureMatches limitResultCount :
  parseSearchRequest searchParams = Some searchData ->
  multiline (SearchData.regex searchData) = true ->
  returns_matched_text (matcher (SearchData.regex searchData)) ->
  well_formed_buffer model ->
  valid_range model searchRange ->
  let text := getValueInRange_LF model searchRange in
  Forall (fun f =>
            valid_range model (range f)
            /\ exists idx a gs,
                 0 <= idx <= len text
                 /\ matcher (SearchData.regex searchData) text idx = Some (a, gs)
                 /\ accepts (SearchData.wordSeparators searchData) text (len text)
                      idx (len a) = true
                 /\ getValueInRange_LF model (range f) = a)
    (findMatches model searchParams searchRange captureMatches limitResultCount).
Proof.
  intros Hparse Hml Hengine Hwf Hr text. unfold findMatches. rewrite Hparse, Hml.
  rewrite _doFindMatchesMultiline_items. apply Forall_take.
  unfold multiline_reports. apply Forall_fmap. fold text.
  eapply Forall_impl; [eapply scan_text_accepted; apply line_scan_Some|].
  intros m (Hi & Hmt & Hacc). cbn in Hmt, Hacc. cbn [compose].
  destruct (Hengine _ _ _ _ (proj1 Hi) Hmt) as [Hend Ha].
  rewrite range_multiline_report.
  destruct (_getMultilineMatchRange_reads_back model searchRange (index m) (m0 m)
              Hwf Hr (proj1 Hi) Hend) as [Hvalid Hread].
  split; [exact Hvalid|].
  exists (index m), (m0 m), (groups m). repeat split; try (assumption || lia).
  fold text in Hread. rewrite Hread. symmetry. exact Ha.
Qed.

(** X18: the multiline search reports its matches in the order of the
    buffer and without overlap.  In the result of [findMatches] for a
    multiline query, every match reported starts at or before its own end,
    and ends at or before the start of every match reported after it:
    for every buffer, range and end-of-line style. *)
Theorem findMatches_multiline_document_order model searchParams searchData searchRange
    captureMatches limitResultCount (i j : nat) f g :
  parseSearchRequest searchParams = Some searchData ->
  multiline (SearchData.regex searchData) = true ->
  (i < j)%nat ->
  findMatches model searchParams searchRange captureMatches limitResultCount !! i
  = Some f ->
  findMatches model searchParams searchRange captureMatches limitResultCount !! j
  = Some g ->
  position_le (getStartPosition (range f)) (getEndPosition (range f))
  /\ position_le (getEndPosition (range f)) (getStartPosition (range g)).
Proof.
  intros Hparse Hml Hij. unfold findMatches. rewrite Hparse, Hml.
  rewrite _doFindMatchesMultiline_items.
  apply (StronglySorted_lookup
           (fun f g =>
              position_le (getStartPosition (range f)) (getEndPosition (range f))
              /\ position_le (getEndPosition (range f)) (getStartPosition (range g))));
    [|assumption].
  apply StronglySorted_take, multiline_reports_sorted.
Qed.

(** ** A match somewhere is found from anywhere *)

Lemma In_lines_before_cyclically lineCount start j :
  1 <= start <= lineCount -> 1 <= j <= lineCount ->
  j ∈ lines_before_cyclically lineCount start.
Proof.
  intros Hs Hj. unfold lines_before_cyclically. apply elem_of_app.
  destruct (Z.lt_ge_cases j start).
  - left. apply elem_of_reverse, elem_of_seqZ. lia.
  - right. apply elem_of_reverse, elem_of_seqZ. lia.
Qed.

(** A search through the regular expression that finds something in the
    whole buffer finds it in a line that has a match. *)
Lemma _doFindMatchesLineByLine_nonempty model searchData captureMatches
    limitResultCount :
  lines model <> [] -> 1 <= limitResultCount ->
  captureMatches = true \/ SearchData.simpleSearch searchData = None ->
  _doFindMatchesLineByLine model (rest_of_buffer model 1) searchData captureMatches
    limitResultCount <> [] ->
  exists j, 1 <= j <= getLineCount model
            /\ line_scan (new_Searcher (SearchData.wordSeparators searchData)
                            (SearchData.regex searchData))
                 (getLineContent model j) <> [].
Proof.
  intros Hne Hlim Hregex Hfound.
  rewrite _doFindMatchesLineByLine_items in Hfound by assumption.
  match type of Hfound with
  | ?l <> [] => assert (head l <> None) as Hhead
                  by (intros Hh; apply Hfound, head_None; exact Hh)
  end.
  rewrite head_take, range_pieces_whole, head_concat_fmap, first_some_fmap in Hhead
    by (assumption || lia).
  destruct (first_some _ _) as [y|] eqn:E; [|contradiction].
  apply first_some_Some in E. destruct E as (j & Hj & Hy).
  apply list_elem_of_In, elem_of_seqZ in Hj.
  rewrite piece_reports_whole_line in Hy by assumption.
  exists j. split; [lia|]. intros Hnil. rewrite Hnil in Hy. discriminate.
Qed.

(** X19: while the buffer has a match, the searches forward and backward
    find one.  For a query that is not multiline and is searched through
    the regular expression, when [findMatches] over the whole buffer with a
    limit of at least 1 returns a match, [findNextMatch] and
    [findPreviousMatch] return a match from every position on a line of the
    buffer, wrapping around when they have to. *)
Theorem next_and_previous_match_exist_when_a_match_exists model searchParams
    searchData searchStart captureMatches limitResultCount :
  parseSearchRequest searchParams = Some searchData ->
  multiline (SearchData.regex searchData) = false ->
  captureMatches = true \/ SearchData.simpleSearch searchData = None ->
  1 <= lineNumber searchStart <= getLineCount model ->
  1 <= limitResultCount ->
  findMatches model searchParams (rest_of_buffer model 1) captureMatches
    limitResultCount <> [] ->
  is_Some (findNextMatch model searchParams searchStart captureMatches)
  /\ is_Some (findPreviousMatch model searchParams searchStart captureMatches).
Proof.
  intros Hparse Hml Hregex Hline Hlim.
  unfold findMatches, findNextMatch, findPreviousMatch. rewrite Hparse, Hml.
  set (searcher := new_Searcher (SearchData.wordSeparators searchData)
                     (SearchData.regex searchData)).
  intros Hfound.
  assert (lines model <> []) as Hne.
  { intros Hnil. unfold getLineCount in Hline. rewrite Hnil in Hline.
    unfold len in Hline. simpl in Hline. lia. }
  destruct (_doFindMatchesLineByLine_nonempty model searchData captureMatches
              limitResultCount Hne Hlim Hregex Hfound) as (j & Hj & Hscan).
  fold searcher in Hscan. split.
  - rewrite _doFindNextMatchLineByLine_spec by assumption.
    destruct (first_match_in_line model searcher captureMatches
                (lineNumber searchStart) (column searchStart)); [eauto|].
    destruct (first_some _ _) eqn:E; [eauto|]. exfalso.
    apply (first_some_None _ _ j) in E.
    + cbn beta in E. rewrite first_match_in_line_head in E.
      destruct (line_scan searcher (getLineContent model j)); [congruence|discriminate].
    + apply list_elem_of_In, In_lines_after_cyclically; assumption.
  - rewrite _doFindPreviousMatchLineByLine_spec by assumption.
    destruct (last_match_in searcher captureMatches (lineNumber searchStart) _);
      [eauto|].
    destruct (first_some _ _) eqn:E; [eauto|]. exfalso.
    apply (first_some_None _ _ j) in E.
    + cbn beta in E. unfold last_match_in in E.
      apply last_None, fmap_nil_inv in E. contradiction.
    + apply In_lines_before_cyclically; assumption.
Qed.

(** ** The small engine returns what it matched *)

Lemma literal_matcher_returns p : returns_matched_text (literal_matcher p).
Proof.
  intros t i a gs Hi H. apply literal_matcher_Some in H.
  destruct H as (-> & _ & Hb & Hs). split.
  - apply starts_with_length in Hs. rewrite length_drop in Hs. unfold len in *. lia.
  - symmetry. apply starts_with_take_eq. assumption.
Qed.

(** ** More on how searches compose *)

Lemma after_calls_same calls text this :
  same_search (after_calls calls text this) this.
Proof.
  revert this. induction calls as [|calls IH]; intros this; [apply same_search_refl|].
  cbn [after_calls]. eapply same_search_trans; [apply IH|apply Searcher_next_same].
Qed.

(** X20: [reset] makes a searcher forget what it did.  Whatever calls of
    [next] a searcher has answered, on whatever text, after [reset(k)] it
    answers [next] as a searcher that never ran, and is left in the same
    state: a searcher can be used for one line after the other. *)
Theorem Searcher_reset_forgets text0 calls text this k :
  Searcher_next text (Searcher_reset k (after_calls calls text0 this))
  = Searcher_next text (Searcher_reset k this).
Proof.
  rewrite (Searcher_reset_same k (after_calls calls text0 this) this);
    [reflexivity|apply after_calls_same].
Qed.

Lemma take_app_take {A} n (a b : list A) :
  take n (take n a ++ take n b) = take n (a ++ b).
Proof.
  rewrite !take_app, take_take, Nat.min_id, length_take. f_equal.
  rewrite take_take. f_equal. lia.
Qed.

Lemma substring_from_0 s : substring_from s 0 = s.
Proof. unfold substring_from. apply substring_whole. Qed.

(** The pieces of a range of several lines: the piece of its first line,
    then the pieces of the range from the start of the next line on. *)
Lemma range_pieces_split model searchRange :
  startLineNumber searchRange < endLineNumber searchRange ->
  range_pieces model searchRange
  = range_pieces model (first_line_of model searchRange)
    ++ range_pieces model
         (plain_range (startLineNumber searchRange + 1) 1
            (endLineNumber searchRange) (endColumn searchRange)).
Proof.
  intros Hlt. destruct (range_pieces_head model searchRange)
    as (piece & rest & Hp & Hfirst).
  rewrite Hfirst, Hp. cbn [app]. f_equal.
  revert Hp. unfold range_pieces.
  cbn [plain_range startLineNumber endLineNumber startColumn endColumn].
  destruct (Z.eqb_spec (startLineNumber searchRange) (endLineNumber searchRange));
    [lia|].
  intros Hp. inversion Hp; subst; clear Hp. change (1 - 1) with 0.
  destruct (Z.eqb_spec (startLineNumber searchRange + 1) (endLineNumber searchRange))
    as [Heq|Hneq].
  - replace (endLineNumber searchRange - startLineNumber searchRange - 1) with 0
      by lia.
    rewrite Heq. reflexivity.
  - replace (Z.to_nat (endLineNumber searchRange - startLineNumber searchRange - 1))
      with (S (Z.to_nat (endLineNumber searchRange
                         - (startLineNumber searchRange + 1) - 1))) by lia.
    cbn [whole_lines app]. rewrite substring_from_0. reflexivity.
Qed.

(** X21: the line-by-line search of a range of several lines is the search
    of its first line followed by the search of the rest.  For a query that
    is not multiline, a range that ends on a later line than it starts and
    a limit of at least 1, [findMatches] returns the matches of the part of
    the range on its first line, then those of the range from the start of
    the next line on, cut at the limit. *)
Theorem findMatches_splits_after_first_line model searchParams searchData searchRange
    captureMatches limitResultCount :
  parseSearchRequest searchParams = Some searchData ->
  multiline (SearchData.regex searchData) = false ->
  startLineNumber searchRange < endLineNumber searchRange ->
  1 <= limitResultCount ->
  findMatches model searchParams searchRange captureMatches limitResultCount
  = take (Z.to_nat limitResultCount)
      (findMatches model searchParams (first_line_of model searchRange)
         captureMatches limitResultCount
       ++ findMatches model searchParams
            (plain_range (startLineNumber searchRange + 1) 1
               (endLineNumber searchRange) (endColumn searchRange))
            captureMatches limitResultCount).
Proof.
  intros Hparse Hml Hlt Hlim. unfold findMatches. rewrite Hparse, Hml.
  rewrite !_doFindMatchesLineByLine_items by assumption.
  rewrite take_app_take, range_pieces_split, fmap_app, concat_app by assumption.
  reflexivity.
Qed.

(** X22: a whole-word search reports whole words only.  When the query
    names word separators, every match [findMatches] returns for a query
    that is not multiline has a word boundary at both edges in the piece of
    line it was found in: the piece starts or ends there, or the character
    outside the match or the one inside it at that edge is a separator or
    white space. *)
Theorem whole_word_search_reports_whole_words model searchParams searchData
    searchRange captureMatches limitResultCount :
  parseSearchRequest searchParams = Some searchData ->
  multiline (SearchData.regex searchData) = false ->
  wordSeparators searchParams <> [] ->
  matches_inside_text (matcher (SearchData.regex searchData)) ->
  Forall (fun f => exists piece k L,
              In piece (range_pieces model searchRange)
              /\ range f = span_in_piece piece k L
              /\ left_edge_is_boundary
                   (getMapForWordSeparators (wordSeparators searchParams))
                   (snd piece) k L
              /\ right_edge_is_boundary
                   (getMapForWordSeparators (wordSeparators searchParams))
                   (snd piece) k L)
    (findMatches model searchParams searchRange captureMatches limitResultCount).
Proof.
  intros Hparse Hml Hseps Hinside. unfold findMatches. rewrite Hparse, Hml.
  destruct (parseSearchRequest_Some _ _ Hparse) as (_ & _ & _ & _ & Hws).
  assert (truthy (wordSeparators searchParams) = true) as Ht
    by (destruct (wordSeparators searchParams); [congruence|reflexivity]).
  rewrite Ht in Hws.
  eapply Forall_impl; [apply _doFindMatchesLineByLine_found|].
  intros f (piece & Hin & k & a & Hk & Hrange & Hacc & Hfound). cbn beta.
  assert (k + len a <= len (snd piece)) as Hend.
  { destruct Hfound as [(gs & Hm & _)|(_ & _ & H & _)]; [|exact H].
    eapply Hinside. exact Hm. }
  rewrite Hws in Hacc. cbn [accepts] in Hacc. unfold isValidMatch in Hacc.
  apply andb_true_iff in Hacc. destruct Hacc as [Hl Hr].
  pose proof (len_nonneg a).
  exists piece, k, (len a). split; [apply list_elem_of_In; assumption|].
  split; [assumption|]. split.
  - apply leftIsWordBounday_spec; (assumption || lia).
  - apply rightIsWordBounday_spec; (assumption || lia).
Qed.

(** ** The searcher finds the accepted matches of a text *)

Lemma scan_text_mono calls text :
  forall calls' this l,
    scan_text calls text this = Some l -> (calls <= calls')%nat ->
    scan_text calls' text this = Some l.
Proof.
  induction calls as [|calls IH]; intros calls' this l H Hle; [discriminate|].
  destruct calls' as [|calls']; [lia|]. cbn [scan_text] in *.
  destruct (Searcher_next text this) as [[m|] this1]; [|assumption].
  destruct (scan_text calls text this1) as [l1|] eqn:E; [|discriminate].
  rewrite (IH calls' this1 l1 E) by lia. assumption.
Qed.

Lemma full_scan_Some text this :
  scan_text (scan_fuel text) text this = Some (full_scan text this).
Proof.
  unfold full_scan.
  destruct (scan_text_total text this (scan_fuel text) (rank_bound _ _)) as [l ->].
  reflexivity.
Qed.

Lemma full_scan_step text this :
  full_scan text this
  = match Searcher_next text this with
    | (Some m, this') => m :: full_scan text this'
    | (None, _) => []
    end.
Proof.
  pose proof (full_scan_Some text this) as H.
  assert (scan_fuel text = S (2 * length text + 3)) as Hf by (unfold scan_fuel; lia).
  rewrite Hf in H. cbn [scan_text] in H.
  destruct (Searcher_next text this) as [[m|] this1].
  - pose proof (full_scan_Some text this1) as H1.
    destruct (scan_text _ text this1) as [l1|] eqn:E; [|discriminate].
    rewrite (scan_text_mono _ _ (scan_fuel text) _ _ E) in H1 by lia.
    inversion H; inversion H1; subst. congruence.
  - inversion H. reflexivity.
Qed.

Lemma full_scan_reset searcher text :
  full_scan text (Searcher_reset 0 searcher) = line_scan searcher text.
Proof. reflexivity. Qed.

(** A round of [next] that goes on gives what [next] gives from the state
    it goes on with. *)
Lemma Searcher_next_inl text this this' :
  next_body text this = inl this' ->
  Searcher_next text this = Searcher_next text this'.
Proof.
  intros Hb. apply Searcher_next_loop.
  pose proof (next_body_rank _ _ _ Hb) as Hr. pose proof (rank_bound text this) as Hf.
  destruct (scan_fuel text) as [|fuel] eqn:Ef; [lia|].
  cbn [loop]. rewrite Hb.
  destruct (loop_total (next_body text) (rank text) (next_body_rank text) fuel this'
              ltac:(lia)) as [r Hl].
  rewrite Hl. f_equal. symmetry. apply Searcher_next_loop. rewrite Ef.
  eapply loop_mono; [exact Hl|lia].
Qed.

Lemma RegExp_exec_leftmost re s p :
  lastIndex re = p -> 0 <= p ->
  RegExp_exec re s
  = match leftmost_match (matcher re) s p with
    | Some r => (Some r, set_lastIndex re (index r + len (m0 r)))
    | None => (None, set_lastIndex re 0)
    end.
Proof.
  intros Hp H0. unfold RegExp_exec, leftmost_match. rewrite Hp, Z.max_r by assumption.
  destruct (p >? len s); reflexivity.
Qed.

Lemma leftmost_match_Some m s p r :
  0 <= p -> leftmost_match m s p = Some r ->
  p <= index r <= len s
  /\ m s (index r) = Some (m0 r, groups r)
  /\ (forall q, p <= q < index r -> m s q = None).
Proof.
  unfold leftmost_match. intros H0 H. destruct (Z.gtb_spec p (len s)); [discriminate|].
  apply exec_scan_Some in H. destruct H as (Hr & Hm & Hn).
  repeat split; try assumption; lia.
Qed.

Lemma leftmost_match_at m s p q a gs :
  0 <= p <= q -> q <= len s -> m s q = Some (a, gs) ->
  (forall q', p <= q' < q -> m s q' = None) ->
  leftmost_match m s p = Some {| index := q; m0 := a; groups := gs |}.
Proof.
  intros Hp Hq Hm Hn. unfold leftmost_match.
  destruct (Z.gtb_spec p (len s)); [lia|].
  apply exec_scan_at; [lia|assumption|assumption].
Qed.

Lemma leftmost_match_again m s r p :
  0 <= p -> leftmost_match m s p = Some r ->
  leftmost_match m s (index r) = Some r.
Proof.
  intros H0 H. destruct (leftmost_match_Some _ _ _ _ H0 H) as (Hi & Hm & _).
  destruct r as [i a gs]. simpl in *.
  apply leftmost_match_at; [lia|lia|assumption|intros; lia].
Qed.

Lemma full_scan_chain text ws m rounds :
  forall p this,
    _wordSeparators this = ws -> matcher (_searchRegex this) = m ->
    stands_at text this p ->
    len text < p + Z.of_nat rounds ->
    full_scan text this
    = filter (fun r => accepts ws text (len text) (index r) (len (m0 r)) = true)
        (match_chain m text rounds p).
Proof.
  induction rounds as [|rounds IH]; intros p this Hws Hm (Hli & Hp0 & Hprev & Hend) Hr.
  - rewrite full_scan_step.
    assert (Searcher_next text this
            = (None, set_regex this (set_lastIndex (_searchRegex this) 0))) as ->;
      [|reflexivity].
    apply next_body_return. unfold next_body.
    destruct (Z.eqb_spec (_prevMatchStartIndex this + _prevMatchLength this) (len text));
      [lia|].
    rewrite (RegExp_exec_leftmost _ _ p Hli Hp0). unfold leftmost_match.
    destruct (Z.gtb_spec p (len text)); [reflexivity|lia].
  - cbn [match_chain]. subst m.
    pose proof (RegExp_exec_leftmost (_searchRegex this) text p Hli Hp0) as Hexec.
    destruct (leftmost_match (matcher (_searchRegex this)) text p) as [r|] eqn:El.
    + destruct (leftmost_match_Some _ _ _ _ Hp0 El) as (Hi & Hmt & Hnone).
      pose proof (len_nonneg (m0 r)) as Hlen.
      set (this1 := set_prev (set_regex this
                                (set_lastIndex (_searchRegex this)
                                   (index r + len (m0 r))))
                      (index r) (len (m0 r))).
      assert (full_scan text this1
              = filter (fun r => accepts ws text (len text) (index r) (len (m0 r)) = true)
                  (if (len (m0 r) =? 0) || (index r + len (m0 r) =? len text) then []
                   else match_chain (matcher (_searchRegex this)) text rounds
                          (index r + len (m0 r)))) as Hrest.
      { destruct (Z.eqb_spec (index r + len (m0 r)) (len text)) as [He|He].
        - rewrite orb_true_r, full_scan_step, Searcher_next_at_end by exact He.
          reflexivity.
        - rewrite orb_false_r. destruct (Z.eqb_spec (len (m0 r)) 0) as [Hz|Hz].
          + rewrite full_scan_step.
            assert (fst (Searcher_next text this1) = None) as Hnull.
            { apply (Searcher_next_repeat text this1 r
                       (set_lastIndex (_searchRegex this1) (index r + len (m0 r)))).
              - rewrite (RegExp_exec_leftmost _ _ (index r + len (m0 r)))
                  by (simpl; lia).
                simpl. rewrite Hz, Z.add_0_r.
                rewrite (leftmost_match_again _ _ _ _ Hp0 El). rewrite Hz, Z.add_0_r.
                reflexivity.
              - reflexivity.
              - reflexivity. }
            destruct (Searcher_next text this1) as [[x|] s]; [discriminate|reflexivity].
          + rewrite (IH (index r + len (m0 r)) this1); [reflexivity| | | |].
            * exact Hws.
            * reflexivity.
            * unfold stands_at. simpl. repeat split; lia.
            * lia. }
      rewrite filter_cons.
      assert (next_body text this
              = if accepts ws text (len text) (index r) (len (m0 r))
                then inr (Some r, this1) else inl this1) as Hb.
      { unfold next_body.
        destruct (Z.eqb_spec (_prevMatchStartIndex this + _prevMatchLength this)
                    (len text)); [lia|].
        rewrite Hexec. simpl.
        destruct (Z.eqb_spec (index r) (_prevMatchStartIndex this)); [lia|].
        simpl. rewrite Hws. reflexivity. }
      destruct (accepts ws text (len text) (index r) (len (m0 r))) eqn:Ea.
      * rewrite decide_True by reflexivity.
        rewrite full_scan_step, (next_body_return _ _ _ Hb). rewrite Hrest.
        reflexivity.
      * rewrite decide_False by discriminate.
        rewrite full_scan_step, (Searcher_next_inl _ _ _ Hb), <- full_scan_step.
        rewrite Hrest. reflexivity.
    + rewrite full_scan_step.
      assert (Searcher_next text this
              = (None, set_regex this (set_lastIndex (_searchRegex this) 0))) as ->;
        [|reflexivity].
      apply next_body_return. unfold next_body.
      destruct (Z.eqb_spec (_prevMatchStartIndex this + _prevMatchLength this)
                  (len text)); [lia|].
      rewrite Hexec. reflexivity.
Qed.

Lemma stands_at_reset text searcher p :
  0 <= p -> stands_at text (Searcher_reset p searcher) p.
Proof.
  intros Hp. unfold stands_at. simpl. pose proof (len_nonneg text).
  repeat split; lia.
Qed.

(** The matches the searcher returns call after call, from a reset to
    [p], are the accepted matches of the text from [p] on. *)
Lemma full_scan_accepted_matches searcher text p :
  0 <= p ->
  full_scan text (Searcher_reset p searcher)
  = accepted_matches_from (_wordSeparators searcher)
      (matcher (_searchRegex searcher)) text p.
Proof.
  intros Hp. unfold accepted_matches_from, matches_from.
  apply full_scan_chain; [reflexivity|reflexivity|apply stands_at_reset; assumption|].
  unfold len. lia.
Qed.

Lemma line_scan_accepted_matches searcher text :
  line_scan searcher text
  = accepted_matches (_wordSeparators searcher) (matcher (_searchRegex searcher)) text.
Proof. rewrite <- full_scan_reset. apply full_scan_accepted_matches. lia. Qed.

(** The first call of [next] after a reset to [p] returns the first
    accepted match from [p] on. *)
Lemma Searcher_next_first_accepted searcher text p :
  0 <= p ->
  fst (Searcher_next text (Searcher_reset p searcher))
  = head (accepted_matches_from (_wordSeparators searcher)
            (matcher (_searchRegex searcher)) text p).
Proof.
  intros Hp. rewrite <- full_scan_accepted_matches by assumption.
  rewrite full_scan_step.
  destruct (Searcher_next text (Searcher_reset p searcher)) as [[m|] s]; reflexivity.
Qed.



Lemma multiline_report_report model deltaOffset text captureMatches r :
  multiline_report model deltaOffset text captureMatches r
  = report_in_range model deltaOffset text captureMatches r.
Proof.
  unfold multiline_report, report_in_range, createFindMatch.
  destruct captureMatches; reflexivity.
Qed.

(** ** What the matches of a text are like *)

Lemma match_chain_Forall m t rounds :
  forall p, 0 <= p ->
    Forall (fun r => p <= index r <= len t /\ m t (index r) = Some (m0 r, groups r))
      (match_chain m t rounds p).
Proof.
  induction rounds as [|rounds IH]; intros p Hp; [constructor|]. cbn [match_chain].
  destruct (leftmost_match m t p) as [r|] eqn:E; [|constructor].
  destruct (leftmost_match_Some _ _ _ _ Hp E) as (Hi & Hm & _).
  pose proof (len_nonneg (m0 r)) as Hlen.
  constructor; [split; assumption|].
  destruct (_ || _); [constructor|].
  eapply Forall_impl; [apply IH; lia|].
  intros x [Hx Hmx]. split; [lia|assumption].
Qed.

Lemma accepted_matches_from_Forall ws m t p :
  0 <= p ->
  Forall (fun r => p <= index r <= len t
                   /\ m t (index r) = Some (m0 r, groups r)
                   /\ accepts ws t (len t) (index r) (len (m0 r)) = true)
    (accepted_matches_from ws m t p).
Proof.
  intros Hp. unfold accepted_matches_from, matches_from. apply Forall_forall.
  intros r Hr. apply list_elem_of_filter in Hr. destruct Hr as [Ha Hr].
  pose proof (proj1 (Forall_forall _ _) (match_chain_Forall m t _ p Hp) r Hr) as [Hi Hm].
  auto.
Qed.













(** ** The multiline search, in the words of the claims *)

Lemma findMatches_multiline_reports model params searchData searchRange captureMatches
    limitResultCount :
  parseSearchRequest params = Some searchData ->
  multiline (SearchData.regex searchData) = true ->
  findMatches model params searchRange captureMatches limitResultCount
  = take (Z.to_nat (Z.max 1 limitResultCount))
      (report_in_range model (getOffsetAt model (getStartPosition searchRange))
         (getValueInRange_LF model searchRange) captureMatches
       <$> accepted_matches (SearchData.wordSeparators searchData)
             (matcher (SearchData.regex searchData))
             (getValueInRange_LF model searchRange)).
Proof.
  intros Hparse Hml. unfold findMatches. rewrite Hparse, Hml.
  rewrite _doFindMatchesMultiline_items. unfold multiline_reports.
  rewrite line_scan_accepted_matches. f_equal.
  apply list_fmap_ext. intros i x _. apply multiline_report_report.
Qed.

Lemma report_in_range_CRLF model deltaOffset text captureMatches r :
  EOL model = CRLF -> 0 <= index r ->
  report_in_range model deltaOffset text captureMatches r
  = crlf_report_of model deltaOffset text captureMatches r.
Proof.
  intros Heol Hi. unfold report_in_range, crlf_report_of.
  rewrite _getMultilineMatchRange_CRLF by assumption. reflexivity.
Qed.

Lemma reports_in_range_CRLF model ws m deltaOffset text captureMatches p :
  EOL model = CRLF -> 0 <= p ->
  report_in_range model deltaOffset text captureMatches
  <$> accepted_matches_from ws m text p
  = crlf_report_of model deltaOffset text captureMatches
    <$> accepted_matches_from ws m text p.
Proof.
  intros Heol Hp. apply list_fmap_ext. intros i r Hr.
  apply report_in_range_CRLF; [assumption|].
  apply list_elem_of_lookup_2 in Hr.
  pose proof (proj1 (Forall_forall _ _) (accepted_matches_from_Forall ws m text p Hp) r Hr)
    as [Hi _].
  lia.
Qed.

(** One pass of the multiline search forward reports the first accepted
    match from the starting column on. *)
Lemma multiline_pass_first_accepted model searcher captureMatches searchStart :
  1 <= column searchStart ->
  let text := getValueInRange_LF model (rest_of_buffer model (lineNumber searchStart)) in
  multiline_pass model searcher captureMatches searchStart
  = report_in_range model
      (getOffsetAt model {| lineNumber := lineNumber searchStart; column := 1 |})
      text captureMatches
    <$> head (accepted_matches_from (_wordSeparators searcher)
                (matcher (_searchRegex searcher)) text (column searchStart - 1)).
Proof.
  intros Hc text. unfold multiline_pass. fold text.
  rewrite Searcher_next_first_accepted by lia.
  destruct (head _) as [r|]; [|reflexivity].
  simpl. f_equal. apply multiline_report_report.
Qed.

Lemma findNextMatch_multiline model params searchData searchStart captureMatches :
  parseSearchRequest params = Some searchData ->
  multiline (SearchData.regex searchData) = true ->
  let searcher := new_Searcher (SearchData.wordSeparators searchData)
                    (SearchData.regex searchData) in
  findNextMatch model params searchStart captureMatches
  = match multiline_pass model searcher captureMatches searchStart with
    | Some r => Some r
    | None =>
        if is_start_of_buffer searchStart then None
        else multiline_pass model searcher captureMatches
               {| lineNumber := 1; column := 1 |}
    end.
Proof.
  intros Hparse Hml searcher. unfold findNextMatch. rewrite Hparse, Hml.
  fold searcher. unfold _doFindNextMatchMultiline.
  pose proof (_doFindNextMatchMultiline_rec_spec 2 model searchStart searcher searcher
                captureMatches ltac:(lia) (same_search_refl _)) as Hrec.
  destruct (_doFindNextMatchMultiline_rec 2 _ _ _ _) as [[r s]|]; [|discriminate].
  simpl in Hrec. injection Hrec as Hr. exact Hr.
Qed.

Lemma findPreviousMatch_multiline model params searchData searchStart captureMatches :
  parseSearchRequest params = Some searchData ->
  multiline (SearchData.regex searchData) = true ->
  let collected (upTo : Position) :=
    findMatches model params (new_Range 1 1 (lineNumber upTo) (column upTo))
      captureMatches (10 * 999) in
  findPreviousMatch model params searchStart captureMatches
  = match last (collected searchStart) with
    | Some r => Some r
    | None =>
        if is_end_of_buffer model searchStart then None
        else last (collected (end_of_buffer model))
    end.
Proof.
  intros Hparse Hml collected.
  set (searcher := new_Searcher (SearchData.wordSeparators searchData)
                     (SearchData.regex searchData)).
  assert (forall upTo, collected upTo
            = fst (_doFindMatchesMultiline model
                     (new_Range 1 1 (lineNumber upTo) (column upTo))
                     searcher captureMatches (10 * LIMIT_FIND_COUNT))) as Hcol
      by (intros upTo; unfold collected, findMatches; rewrite Hparse, Hml;
          reflexivity).
  rewrite !Hcol.
  unfold findPreviousMatch. rewrite Hparse, Hml. fold searcher.
  unfold _doFindPreviousMatchMultiline.
  pose proof (_doFindPreviousMatchMultiline_rec_spec 2 model searchStart searcher
                searcher captureMatches ltac:(lia) (same_search_refl _)) as Hrec.
  cbv zeta in Hrec.
  destruct (_doFindPreviousMatchMultiline_rec 2 _ _ _ _) as [[r s]|]; [|discriminate].
  simpl in Hrec. injection Hrec as Hr. exact Hr.
Qed.


(** ** Where the multiline search backward finds its match *)







(** ** The ranges of the multiline search *)

(** C1: in a buffer whose lines end with a carriage return and a line
    feed, every match of a multiline query is reported with the range that
    its index in the line-feed-joined text gives once the start offset takes
    one more character for every line feed before the match and the end
    offset one more for every line feed in the match: every element of the
    result of [findMatches], the result of [findNextMatch] (from its first
    pass or from the pass from the top) and the result of
    [findPreviousMatch] (from the matches up to the position or from those
    of the whole buffer).  That range does not drift: in a buffer none of
    whose lines holds a line feed, the text of the buffer in the range given
    for a match at index [idx] of the text of a range is the part of that
    text from [idx] on that is as long as the match.  And these reports are
    made: [findMatches] returns, up to its limit, the report with that range
    of every accepted match of the joined text of the search range;
    [findNextMatch] returns the report of the first accepted match at or
    after the starting column in the text from the starting line to the end
    of the buffer, and failing that of the first one of the whole buffer;
    [findPreviousMatch] returns the last of the reports from the top of the
    buffer to the starting position, and failing that the last of those of
    the whole buffer. *)
Theorem C1_multiline_ranges_in_CRLF_buffer model params searchData captureMatches :
  parseSearchRequest params = Some searchData ->
  multiline (SearchData.regex searchData) = true ->
  EOL model = CRLF ->
  let m := matcher (SearchData.regex searchData) in
  let ws := SearchData.wordSeparators searchData in
  let reports (searchRange : Range) :=
    crlf_report_of model (getOffsetAt model (getStartPosition searchRange))
      (getValueInRange_LF model searchRange) captureMatches
    <$> accepted_matches ws m (getValueInRange_LF model searchRange) in
  let first_report (from : Position) :=
    crlf_report_of model
      (getOffsetAt model {| lineNumber := lineNumber from; column := 1 |})
      (getValueInRange_LF model (rest_of_buffer model (lineNumber from))) captureMatches
    <$> head (accepted_matches_from ws m
                (getValueInRange_LF model (rest_of_buffer model (lineNumber from)))
                (column from - 1)) in
  (forall searchRange limitResultCount,
      Forall (crlf_report_in m model searchRange)
        (findMatches model params searchRange captureMatches limitResultCount))
  /\ (forall searchStart found,
         findNextMatch model params searchStart captureMatches = Some found ->
         crlf_report m model
           (getOffsetAt model {| lineNumber := lineNumber searchStart; column := 1 |})
           (getValueInRange_LF model (rest_of_buffer model (lineNumber searchStart)))
           found
         \/ crlf_report m model
              (getOffsetAt model {| lineNumber := 1; column := 1 |})
              (getValueInRange_LF model (rest_of_buffer model 1))
              found)
  /\ (forall searchStart found,
         findPreviousMatch model params searchStart captureMatches = Some found ->
         crlf_report_in m model
           (new_Range 1 1 (lineNumber searchStart) (column searchStart)) found
         \/ crlf_report_in m model
              (new_Range 1 1 (lineNumber (end_of_buffer model))
                 (column (end_of_buffer model)))
              found)
  /\ (forall searchRange idx match0,
         well_formed_buffer model -> valid_range model searchRange ->
         0 <= idx -> idx + len match0 <= len (getValueInRange_LF model searchRange) ->
         getValueInRange_LF model
           (crlf_match_range model (getOffsetAt model (getStartPosition searchRange))
              (getValueInRange_LF model searchRange) idx match0)
         = take (length match0)
             (drop (Z.to_nat idx) (getValueInRange_LF model searchRange)))
  /\ (forall searchRange limitResultCount,
         findMatches model params searchRange captureMatches limitResultCount
         = take (Z.to_nat (Z.max 1 limitResultCount)) (reports searchRange))
  /\ (forall searchStart,
         1 <= column searchStart ->
         findNextMatch model params searchStart captureMatches
         = match first_report searchStart with
           | Some r => Some r
           | None =>
               if is_start_of_buffer searchStart then None
               else first_report {| lineNumber := 1; column := 1 |}
           end)
  /\ (forall searchStart,
         findPreviousMatch model params searchStart captureMatches
         = match last (take (Z.to_nat (10 * 999))
                         (reports (new_Range 1 1 (lineNumber searchStart)
                                     (column searchStart)))) with
           | Some r => Some r
           | None =>
               if is_end_of_buffer model searchStart then None
               else last (take (Z.to_nat (10 * 999))
                            (reports (new_Range 1 1 (lineNumber (end_of_buffer model))
                                        (column (end_of_buffer model)))))
           end).
Proof.
  intros Hparse Hml Heol m ws reports first_report.
  set (searcher := new_Searcher (SearchData.wordSeparators searchData)
                     (SearchData.regex searchData)).
  assert (forall searchRange limitResultCount,
             findMatches model params searchRange captureMatches limitResultCount
             = take (Z.to_nat (Z.max 1 limitResultCount)) (reports searchRange))
    as Hreports.
  { intros searchRange limitResultCount.
    rewrite (findMatches_multiline_reports model params searchData) by assumption.
    unfold reports, accepted_matches.
    rewrite reports_in_range_CRLF by (assumption || lia). reflexivity. }
  assert (forall from, 1 <= column from ->
             multiline_pass model searcher captureMatches from = first_report from)
    as Hfirst.
  { intros from Hc. rewrite multiline_pass_first_accepted by assumption.
    unfold first_report. cbn [searcher new_Searcher _wordSeparators _searchRegex].
    fold ws m.
    pose proof (accepted_matches_from_Forall ws m
                  (getValueInRange_LF model (rest_of_buffer model (lineNumber from)))
                  (column from - 1) ltac:(lia)) as HF.
    destruct (accepted_matches_from ws m _ _) as [|r l]; [reflexivity|].
    inversion HF as [|? ? [Hi _] _]; subst. simpl. f_equal.
    apply report_in_range_CRLF; [assumption|lia]. }
  split; [|split; [|split; [|split; [|split; [|split]]]]].
  - intros searchRange limitResultCount. unfold findMatches. rewrite Hparse, Hml.
    apply (_doFindMatchesMultiline_CRLF model searchRange searcher). assumption.
  - intros searchStart found.
    rewrite (findNextMatch_multiline model params searchData) by assumption.
    fold searcher. intros Hr.
    destruct (multiline_pass model searcher captureMatches searchStart) as [r1|] eqn:E1.
    + inversion Hr; subst. left.
      apply (multiline_pass_CRLF model searcher captureMatches); assumption.
    + destruct (is_start_of_buffer searchStart); [discriminate|]. right.
      apply (multiline_pass_CRLF model searcher captureMatches
               {| lineNumber := 1; column := 1 |}); assumption.
  - intros searchStart found.
    rewrite (findPreviousMatch_multiline model params searchData) by assumption.
    unfold findMatches. rewrite Hparse, Hml. fold searcher. intros Hr.
    match type of Hr with
    | context [last (fst (_doFindMatchesMultiline ?mo ?ra ?se ?ca ?li))] =>
        pose proof (proj1 (_doFindMatchesMultiline_CRLF mo ra se ca li Heol)) as HF1;
        destruct (last (fst (_doFindMatchesMultiline mo ra se ca li))) as [r1|] eqn:E1
    end.
    + inversion Hr; subst. left. eapply Forall_last; eassumption.
    + destruct (is_end_of_buffer model searchStart); [discriminate|]. right.
      eapply Forall_last; [|exact Hr].
      apply (_doFindMatchesMultiline_CRLF model _ searcher). assumption.
  - intros searchRange idx match0 Hwf Hr Hidx Hlen.
    rewrite <- _getMultilineMatchRange_CRLF by assumption.
    apply _getMultilineMatchRange_reads_back; assumption.
  - exact Hreports.
  - intros searchStart Hc.
    rewrite (findNextMatch_multiline model params searchData) by assumption.
    fold searcher. rewrite (Hfirst searchStart Hc).
    rewrite (Hfirst {| lineNumber := 1; column := 1 |}) by (simpl; lia).
    reflexivity.
  - intros searchStart.
    rewrite (findPreviousMatch_multiline model params searchData) by assumption.
    rewrite !Hreports. reflexivity.
Qed.

(** ** The search backward *)


(** ** Forward, then backward *)







End TextModelSearch.

(** * The search on sample buffers *)

Abbreviation sample_parse :=
  (parseSearchRequest literal_compile ascii_toLowerCase ascii_toUpperCase).
Abbreviation sample_find_matches :=
  (findMatches literal_compile ascii_toLowerCase ascii_toUpperCase).
Abbreviation sample_find_next :=
  (findNextMatch literal_compile ascii_toLowerCase ascii_toUpperCase).
Abbreviation sample_find_previous :=
  (findPreviousMatch literal_compile ascii_toLowerCase ascii_toUpperCase).

(** The buffer ["foo bar"], ["bar foo"] searched for the literal [foo]. *)
Example findMatches_foo :
  sample_find_matches foo_bar_buffer (literal_query "foo" "") (plain_range 1 1 2 8)
    false 999
  = [plain_match 1 1 1 4; plain_match 2 5 2 8].
Proof. vm_compute. reflexivity. Qed.

Example findPreviousMatch_foo :
  sample_find_previous foo_bar_buffer (literal_query "foo" "") (position 2 8) false
  = Some (plain_match 2 5 2 8)
  /\ sample_find_previous foo_bar_buffer (literal_query "foo" "") (position 2 5) false
     = Some (plain_match 1 1 1 4)
  /\ sample_find_previous foo_bar_buffer (literal_query "foo" "") (position 1 1) false
     = Some (plain_match 2 5 2 8).
Proof. vm_compute. repeat split; reflexivity. Qed.

(** Only the standalone [cat] is a whole word. *)
Example findMatches_cat :
  sample_find_matches cat_buffer (literal_query "cat" " ") (plain_range 1 1 1 24)
    false 999
  = [plain_match 1 13 1 16].
Proof. vm_compute. reflexivity. Qed.

(** The regular expression [a\nb] in the buffer ["a\r\nb"]. *)
Example findMatches_a_b_CRLF :
  sample_find_matches a_b_CRLF_buffer (regex_query "a\nb") (plain_range 1 1 2 2)
    false 999
  = [plain_match 1 1 2 2].
Proof. vm_compute. reflexivity. Qed.

(** * The theorems at work on the sample buffers *)

(** C1 on the buffer ["a\r\nb"] searched for [a\nb]: [findMatches] over
    the whole buffer reports the one match with the range (1,1)-(2,2), which
    is the compensated range; [findNextMatch] from (1,1) and
    [findPreviousMatch] from (2,2) return that same match; and the text of
    the buffer in that range is the three characters matched. *)
Lemma C1_witness :
  sample_parse (regex_query "a\nb") = Some a_b_request
  /\ sample_find_matches a_b_CRLF_buffer (regex_query "a\nb") (plain_range 1 1 2 2)
       false 999
     = [plain_match 1 1 2 2]
  /\ Forall (crlf_report_in (matcher (SearchData.regex a_b_request)) a_b_CRLF_buffer
               (plain_range 1 1 2 2))
       (sample_find_matches a_b_CRLF_buffer (regex_query "a\nb") (plain_range 1 1 2 2)
          false 999)
  /\ sample_find_next a_b_CRLF_buffer (regex_query "a\nb") (position 1 1) false
     = Some (plain_match 1 1 2 2)
  /\ sample_find_previous a_b_CRLF_buffer (regex_query "a\nb") (position 2 2) false
     = Some (plain_match 1 1 2 2)
  /\ getValueInRange_LF a_b_CRLF_buffer
       (crlf_match_range a_b_CRLF_buffer 0 (codes "a" ++ [CharCode.LineFeed] ++ codes "b") 0
          (codes "a" ++ [CharCode.LineFeed] ++ codes "b"))
     = codes "a" ++ [CharCode.LineFeed] ++ codes "b".
Proof.
  pose (C1 := C1_multiline_ranges_in_CRLF_buffer literal_compile ascii_toLowerCase
                ascii_toUpperCase a_b_CRLF_buffer (regex_query "a\nb") a_b_request
                false eq_refl eq_refl eq_refl).
  destruct C1 as (Hall & Hnext & Hprevious & Hback & Hreports & Hfirst & Hlast).
  split; [reflexivity|]. split; [|split; [|split; [|split]]].
  - etransitivity; [exact (Hreports (plain_range 1 1 2 2) 999)|].
    vm_compute. reflexivity.
  - exact (Hall (plain_range 1 1 2 2) 999).
  - etransitivity; [exact (Hfirst (position 1 1) ltac:(simpl; lia))|].
    vm_compute. reflexivity.
  - etransitivity; [exact (Hlast (position 2 2))|].
    vm_compute. reflexivity.
  - assert (well_formed_buffer a_b_CRLF_buffer) as Hwf.
    { split; [discriminate|]. repeat constructor; intros H; vm_compute in H;
        repeat destruct H as [H|H]; discriminate H || exact H. }
    assert (valid_range a_b_CRLF_buffer (plain_range 1 1 2 2)) as Hr.
    { repeat split; try (cbv; discriminate). left. reflexivity. }
    exact (Hback (plain_range 1 1 2 2) 0
             (codes "a" ++ [CharCode.LineFeed] ++ codes "b") Hwf Hr
             ltac:(lia) ltac:(cbv; discriminate)).
Defined.

(** C2 on the text ["a cat b"] with the space as separator: the match
    [cat] at index 2 has word boundaries on both sides. *)
Lemma C2_witness :
  accepts (Some (getMapForWordSeparators (codes " "))) (codes "a cat b")
    (len (codes "a cat b")) 2 3 = true
  <-> left_edge_is_boundary (getMapForWordSeparators (codes " ")) (codes "a cat b") 2 3
      /\ right_edge_is_boundary (getMapForWordSeparators (codes " ")) (codes "a cat b") 2 3.
Proof.
  apply (C2_word_boundary_test (getMapForWordSeparators (codes " ")) (codes "a cat b")
           2 3); unfold len; simpl; lia.
Defined.




(** C5 on the empty pattern in the text ["ab"]: the first call of [next]
    returns the empty match at index 0, the engine gives it again, and the
    second call returns null. *)
Lemma C5_witness :
  fst (Searcher_next (codes "ab")
         (snd (Searcher_next (codes "ab") (Searcher_reset 0 empty_pattern_searcher))))
  = None.
Proof.
  refine (proj1 (C5_no_repeat_and_scan_ends (codes "ab")
                   (snd (Searcher_next (codes "ab")
                           (Searcher_reset 0 empty_pattern_searcher))))
            {| index := 0; m0 := []; groups := [] |}
            (set_lastIndex (_searchRegex empty_pattern_searcher) 0) _ _ _);
    reflexivity.
Defined.

(** C6 on the regular expression [a\nb]: its request is multiline, so the
    pattern has a line break escape. *)
Lemma C6_witness : has_line_break_escape (codes "a\nb").
Proof.
  exact (proj1 (proj1 (C6_multiline_flag literal_compile ascii_toLowerCase
                         ascii_toUpperCase (regex_query "a\nb") a_b_request eq_refl)
                  eq_refl)
           eq_refl).
Defined.

(** C7, the claim as it was stated, fails: with a limit of zero
    [findMatches] still returns one entry. *)
Lemma C7_counterexample :
  sample_find_matches foo_bar_buffer (literal_query "foo" "") (plain_range 1 1 2 8)
    false 0
  = [plain_match 1 1 1 4]
  /\ (len [plain_match 1 1 1 4] <=? 0) = false.
Proof. split; vm_compute; reflexivity. Qed.

(** C8 on the buffer ["foo bar"], ["bar foo"] searched for the literal
    [foo]: the ranges found are those of exact substring scanning. *)
Lemma C8_witness :
  range <$> sample_find_matches foo_bar_buffer (literal_query "foo" "")
              (plain_range 1 1 2 8) false 999
  = take 999 (scan_ranges (codes "foo") foo_bar_buffer (plain_range 1 1 2 8)).
Proof.
  refine (proj1 (C8_literal_search_is_substring_scanning literal_compile
                   ascii_toLowerCase ascii_toUpperCase foo_bar_buffer
                   (literal_query "foo" "") (plain_range 1 1 2 8) false 999
                   eq_refl eq_refl eq_refl _ _ _) _).
  - discriminate.
  - intros H. vm_compute in H. repeat destruct H as [H|H]; discriminate H || exact H.
  - exists (literal_matcher (codes "foo")). split; [reflexivity|].
    apply literal_matcher_literally.
  - lia.
Defined.



(** C10 on the pattern [b] in the text ["ab"]: the match returned ends at
    the end of the text, and three calls later [next] still returns null
    and has changed nothing. *)
Lemma C10_witness :
  Searcher_next (codes "ab")
    (after_calls 3 (codes "ab")
       (snd (Searcher_next (codes "ab") (Searcher_reset 0 b_searcher))))
  = (None, snd (Searcher_next (codes "ab") (Searcher_reset 0 b_searcher))).
Proof.
  refine (proj1 (proj2 (C10_end_of_text_stops_scan (codes "ab")
                          (Searcher_reset 0 b_searcher)))
            {| index := 1; m0 := codes "b"; groups := [] |}
            (snd (Searcher_next (codes "ab") (Searcher_reset 0 b_searcher)))
            _ _ 3%nat); reflexivity.
Defined.

(** * The further properties at work on the sample buffers *)

(** X1 on the buffer ["foo bar"], ["bar foo"] searched for [foo]: with
    limit 1 the result is the first of the two matches found with limit 2. *)
Lemma findMatches_limit_prefix_witness :
  sample_find_matches foo_bar_buffer (literal_query "foo" "") (plain_range 1 1 2 8)
    false 1
  = take 1 (sample_find_matches foo_bar_buffer (literal_query "foo" "")
              (plain_range 1 1 2 8) false 2).
Proof.
  apply (findMatches_limit_prefix literal_compile ascii_toLowerCase ascii_toUpperCase
           foo_bar_buffer (literal_query "foo" "") (plain_range 1 1 2 8) false 1 2).
  lia.
Defined.

(** X2 on the buffer ["bar foo"], ["baz"] searched for [foo] with limit 0:
    the result is that of limit 1 on the first line alone. *)
Lemma findMatches_nonpositive_limit_witness :
  sample_find_matches one_match_buffer (literal_query "foo" "") (plain_range 1 1 2 4)
    false 0
  = sample_find_matches one_match_buffer (literal_query "foo" "")
      (first_line_of one_match_buffer (plain_range 1 1 2 4)) false 1.
Proof.
  apply (findMatches_nonpositive_limit literal_compile ascii_toLowerCase
           ascii_toUpperCase one_match_buffer (literal_query "foo" "") foo_request
           (plain_range 1 1 2 4) false 0 eq_refl).
  lia.
Defined.

(** X3 on the buffer ["foo bar"], ["bar foo"] searched for [foo]. *)
Lemma findMatches_line_by_line_sound_witness :
  Forall (fun f => exists piece,
              In piece (range_pieces foo_bar_buffer (plain_range 1 1 2 8))
              /\ found_in_piece foo_request false piece f)
    (sample_find_matches foo_bar_buffer (literal_query "foo" "") (plain_range 1 1 2 8)
       false 999).
Proof.
  exact (findMatches_line_by_line_sound literal_compile ascii_toLowerCase
           ascii_toUpperCase foo_bar_buffer (literal_query "foo" "") foo_request
           (plain_range 1 1 2 8) false 999 eq_refl eq_refl).
Defined.

(** X4 on the same search, in the range (1,1)-(2,7): the match
    (1,1)-(1,4) is reported, and it lies inside the range; the occurrence of
    [foo] at (2,5)-(2,8) reaches out of the range and is not reported. *)
Lemma findMatches_inside_range_witness :
  sample_find_matches foo_bar_buffer (literal_query "foo" "") (plain_range 1 1 2 7)
    false 999
  = [plain_match 1 1 1 4]
  /\ Forall (fun f =>
               startLineNumber (range f) = endLineNumber (range f)
               /\ position_le (getStartPosition (plain_range 1 1 2 7))
                    (getStartPosition (range f))
               /\ position_le (getStartPosition (range f)) (getEndPosition (range f))
               /\ position_le (getEndPosition (range f))
                    (getEndPosition (plain_range 1 1 2 7)))
       (sample_find_matches foo_bar_buffer (literal_query "foo" "")
          (plain_range 1 1 2 7) false 999).
Proof.
  split; [vm_compute; reflexivity|].
  apply (findMatches_inside_range literal_compile ascii_toLowerCase ascii_toUpperCase
           foo_bar_buffer (literal_query "foo" "") foo_request (plain_range 1 1 2 7)
           false 999 eq_refl eq_refl).
  - apply literal_matcher_inside.
  - left. cbv. reflexivity.
  - cbv. discriminate.
Defined.

(** X5 on the buffer ["foo bar"], ["bar foo"]: the match (1,1)-(1,4) lies
    before the match (2,5)-(2,8). *)
Lemma findMatches_document_order_witness :
  report_before (plain_match 1 1 1 4) (plain_match 2 5 2 8).
Proof.
  apply (findMatches_document_order literal_compile ascii_toLowerCase
           ascii_toUpperCase foo_bar_buffer (literal_query "foo" "") foo_request
           (plain_range 1 1 2 8) false 999 0%nat 1%nat
           (plain_match 1 1 1 4) (plain_match 2 5 2 8) eq_refl eq_refl);
    [cbv; discriminate|lia|reflexivity|reflexivity].
Defined.

(** X6 on the buffer ["ab"] searched for [(a)|b] with captures, on an
    engine for that pattern: the match of [a] carries [a] and the group [a],
    the match of [b] carries [b] and the group that took no part in the
    match, as the engine gave them; [findNextMatch] from (1,2) and
    [findPreviousMatch] from (1,2) return these two matches. *)
Lemma reports_follow_captureMatches_witness :
  findMatches a_or_b_compile ascii_toLowerCase ascii_toUpperCase ab_buffer
    (regex_query "(a)|b") (plain_range 1 1 1 3) true 999
  = [ {| range := plain_range 1 1 1 2; matches := Some [Some (codes "a"); Some (codes "a")] |};
      {| range := plain_range 1 2 1 3; matches := Some [Some (codes "b"); None] |} ]
  /\ Forall (captures_as ab_buffer a_or_b_matcher true)
       (findMatches a_or_b_compile ascii_toLowerCase ascii_toUpperCase ab_buffer
          (regex_query "(a)|b") (plain_range 1 1 1 3) true 999)
  /\ captures_as ab_buffer a_or_b_matcher true
       {| range := plain_range 1 2 1 3; matches := Some [Some (codes "b"); None] |}
  /\ captures_as ab_buffer a_or_b_matcher true
       {| range := plain_range 1 1 1 2;
          matches := Some [Some (codes "a"); Some (codes "a")] |}.
Proof.
  pose (X := reports_follow_captureMatches a_or_b_compile ascii_toLowerCase
               ascii_toUpperCase ab_buffer (regex_query "(a)|b") a_or_b_request
               true eq_refl).
  split; [vm_compute; reflexivity|]. split; [|split].
  - exact (proj1 X (plain_range 1 1 1 3) 999).
  - apply (proj1 (proj2 X) (position 1 2)). vm_compute. reflexivity.
  - apply (proj2 (proj2 X) (position 1 2)). vm_compute. reflexivity.
Defined.

(** X7 on the buffer ["bar foo"], ["baz"], with captures: the match found
    from (1,1) is the first of all. *)
Lemma findNextMatch_from_start_is_first_match_witness :
  sample_find_next one_match_buffer (literal_query "foo" "") (position 1 1) true
  = head (sample_find_matches one_match_buffer (literal_query "foo" "")
            (rest_of_buffer one_match_buffer 1) true 999).
Proof.
  apply (findNextMatch_from_start_is_first_match literal_compile ascii_toLowerCase
           ascii_toUpperCase one_match_buffer (literal_query "foo" "") foo_request
           true 999 eq_refl).
  - discriminate.
  - lia.
  - right. left. reflexivity.
Defined.

(** X8 on the buffer ["foo bar"], ["bar foo"], with captures: the match
    found from the end of the buffer is the last of all. *)
Lemma findPreviousMatch_from_end_is_last_match_witness :
  sample_find_previous foo_bar_buffer (literal_query "foo" "")
    (end_of_buffer foo_bar_buffer) true
  = last (sample_find_matches foo_bar_buffer (literal_query "foo" "")
            (rest_of_buffer foo_bar_buffer 1) true 999).
Proof.
  apply (findPreviousMatch_from_end_is_last_match literal_compile ascii_toLowerCase
           ascii_toUpperCase foo_bar_buffer (literal_query "foo" "") foo_request
           true 999 eq_refl eq_refl).
  - discriminate.
  - left. reflexivity.
  - vm_compute. reflexivity.
Defined.

(** X9 on the pattern [b] in the text ["ab"]: the match returned is at
    index 1, and the expression then stands at index 2. *)
Lemma Searcher_next_returns_accepted_match_witness :
  Z.max 0 0 <= 1 <= len (codes "ab")
  /\ literal_matcher (codes "b") (codes "ab") 1 = Some (codes "b", [])
  /\ accepts None (codes "ab") (len (codes "ab")) 1 (len (codes "b")) = true
  /\ lastIndex (_searchRegex
                  (snd (Searcher_next (codes "ab") (Searcher_reset 0 b_searcher))))
     = 1 + len (codes "b")
  /\ _prevMatchStartIndex
       (snd (Searcher_next (codes "ab") (Searcher_reset 0 b_searcher))) = 1
  /\ _prevMatchLength
       (snd (Searcher_next (codes "ab") (Searcher_reset 0 b_searcher)))
     = len (codes "b").
Proof.
  exact (Searcher_next_returns_accepted_match (codes "ab")
           (Searcher_reset 0 b_searcher)
           {| index := 1; m0 := codes "b"; groups := [] |}
           (snd (Searcher_next (codes "ab") (Searcher_reset 0 b_searcher)))
           eq_refl).
Defined.

(** X10 on the pattern [b] in the text ["abb"]: the match at index 1 is
    followed by the match at index 2. *)
Lemma Searcher_next_successive_matches_witness :
  1 + len (codes "b") <= 2 /\ 1 < 2.
Proof.
  exact (Searcher_next_successive_matches (codes "abb")
           (Searcher_reset 0 b_searcher)
           {| index := 1; m0 := codes "b"; groups := [] |}
           (snd (Searcher_next (codes "abb") (Searcher_reset 0 b_searcher)))
           {| index := 2; m0 := codes "b"; groups := [] |}
           (snd (Searcher_next (codes "abb")
                   (snd (Searcher_next (codes "abb") (Searcher_reset 0 b_searcher)))))
           eq_refl eq_refl).
Defined.

(** X11 on the pattern [b] in the text ["abb"], from index 0: the match
    returned is the one at index 1, and there is none at index 0. *)
Lemma Searcher_next_after_reset_is_leftmost_witness :
  match fst (Searcher_next (codes "abb") (Searcher_reset 0 b_searcher)) with
  | Some m =>
      Z.max 0 0 <= index m <= len (codes "abb")
      /\ matcher (_searchRegex b_searcher) (codes "abb") (index m)
         = Some (m0 m, groups m)
      /\ forall q, Z.max 0 0 <= q < index m ->
                   matcher (_searchRegex b_searcher) (codes "abb") q = None
  | None =>
      forall q, Z.max 0 0 <= q <= len (codes "abb") ->
                matcher (_searchRegex b_searcher) (codes "abb") q = None
  end.
Proof.
  exact (Searcher_next_after_reset_is_leftmost (codes "abb") b_searcher 0 eq_refl).
Defined.

(** X12 on the empty search string. *)
Lemma unusable_pattern_finds_nothing_witness :
  sample_parse (literal_query "" "") = None
  /\ sample_find_matches foo_bar_buffer (literal_query "" "") (plain_range 1 1 2 8)
       false 999 = []
  /\ sample_find_next foo_bar_buffer (literal_query "" "") (position 1 1) false = None
  /\ sample_find_previous foo_bar_buffer (literal_query "" "") (position 1 1) false
     = None.
Proof.
  apply (unusable_pattern_finds_nothing literal_compile ascii_toLowerCase
           ascii_toUpperCase foo_bar_buffer (literal_query "" "") (plain_range 1 1 2 8)
           (position 1 1) false 999).
  left. reflexivity.
Defined.

(** X13 on the literal, case-sensitive query [foo]: the request carries
    the search string. *)
Lemma simpleSearch_eligibility_witness :
  (SearchData.simpleSearch foo_request = Some (codes "foo")
   <-> false = false
       /\ ~ In CharCode.LineFeed (codes "foo")
       /\ (true = true
           \/ ascii_toLowerCase (codes "foo") = ascii_toUpperCase (codes "foo")))
  /\ (SearchData.simpleSearch foo_request = None
      \/ SearchData.simpleSearch foo_request = Some (codes "foo"))
  /\ (SearchData.wordSeparators foo_request = None <-> @nil Z = []).
Proof.
  exact (simpleSearch_eligibility literal_compile ascii_toLowerCase ascii_toUpperCase
           (literal_query "foo" "") foo_request eq_refl).
Defined.

(** X14 on the buffer ["a\r\nb"] searched for [a\nb] with captures: the
    one match carries the text of the buffer in its range. *)
Lemma findMatches_captured_text_is_range_text_witness :
  Forall (fun f => exists a gs,
              matches f = Some (Some a :: gs)
              /\ getValueInRange_LF a_b_CRLF_buffer (range f) = a)
    (sample_find_matches a_b_CRLF_buffer (regex_query "a\nb") (plain_range 1 1 2 2)
       true 999).
Proof.
  apply (findMatches_captured_text_is_range_text literal_compile ascii_toLowerCase
           ascii_toUpperCase a_b_CRLF_buffer (regex_query "a\nb") a_b_request
           (plain_range 1 1 2 2) 999 eq_refl).
  - apply literal_matcher_returns.
  - split; [discriminate|]. repeat constructor; intros H; vm_compute in H;
      repeat destruct H as [H|H]; discriminate H || exact H.
  - repeat split; try (cbv; discriminate). left. reflexivity.
Defined.

(** X15 on the buffer ["foo bar"], ["bar foo"] searched for [foo] without
    captures: both matches cover the text [foo]. *)
Lemma literal_fast_path_reports_the_search_string_witness :
  Forall (fun f => matches f = None
                   /\ getValueInRange_LF foo_bar_buffer (range f) = codes "foo")
    (sample_find_matches foo_bar_buffer (literal_query "foo" "") (plain_range 1 1 2 8)
       false 999).
Proof.
  apply (literal_fast_path_reports_the_search_string literal_compile ascii_toLowerCase
           ascii_toUpperCase foo_bar_buffer (literal_query "foo" "") foo_request
           (plain_range 1 1 2 8) 999 eq_refl).
  - discriminate.
  - repeat split; try (cbv; discriminate). left. reflexivity.
Defined.

(** X16 on the buffer ["foo bar"], ["bar foo"]: the match found forward
    from (1,2) is (2,5)-(2,8), a range of the buffer in one line. *)
Lemma next_and_previous_match_lie_in_the_buffer_witness :
  valid_range foo_bar_buffer (range (plain_match 2 5 2 8))
  /\ startLineNumber (range (plain_match 2 5 2 8))
     = endLineNumber (range (plain_match 2 5 2 8)).
Proof.
  apply (next_and_previous_match_lie_in_the_buffer literal_compile ascii_toLowerCase
           ascii_toUpperCase foo_bar_buffer (literal_query "foo" "") foo_request
           (position 1 2) false (plain_match 2 5 2 8) eq_refl eq_refl).
  - apply literal_matcher_inside.
  - cbv. split; discriminate.
  - left. reflexivity.
Defined.

(** X17 on the buffer ["a\r\nb"] searched for [a\nb]: the match reported
    is a match in the joined text, with a range of the buffer that holds the
    text matched. *)
Lemma findMatches_multiline_sound_witness :
  Forall (fun f =>
            valid_range a_b_CRLF_buffer (range f)
            /\ exists idx a gs,
                 0 <= idx <= len (getValueInRange_LF a_b_CRLF_buffer
                                    (plain_range 1 1 2 2))
                 /\ matcher (SearchData.regex a_b_request)
                      (getValueInRange_LF a_b_CRLF_buffer (plain_range 1 1 2 2)) idx
                    = Some (a, gs)
                 /\ accepts (SearchData.wordSeparators a_b_request)
                      (getValueInRange_LF a_b_CRLF_buffer (plain_range 1 1 2 2))
                      (len (getValueInRange_LF a_b_CRLF_buffer (plain_range 1 1 2 2)))
                      idx (len a) = true
                 /\ getValueInRange_LF a_b_CRLF_buffer (range f) = a)
    (sample_find_matches a_b_CRLF_buffer (regex_query "a\nb") (plain_range 1 1 2 2)
       false 999).
Proof.
  apply (findMatches_multiline_sound literal_compile ascii_toLowerCase
           ascii_toUpperCase a_b_CRLF_buffer (regex_query "a\nb") a_b_request
           (plain_range 1 1 2 2) false 999 eq_refl eq_refl).
  - apply literal_matcher_returns.
  - split; [discriminate|]. repeat constructor; intros H; vm_compute in H;
      repeat destruct H as [H|H]; discriminate H || exact H.
  - repeat split; try (cbv; discriminate). left. reflexivity.
Defined.

(** X18 on the buffer ["a"], ["b"], ["a"], ["b"] searched for [a\nb]: the
    match (1,1)-(2,2) ends before the match (3,1)-(4,2) starts. *)
Lemma findMatches_multiline_document_order_witness :
  position_le (getStartPosition (range (plain_match 1 1 2 2)))
    (getEndPosition (range (plain_match 1 1 2 2)))
  /\ position_le (getEndPosition (range (plain_match 1 1 2 2)))
       (getStartPosition (range (plain_match 3 1 4 2))).
Proof.
  apply (findMatches_multiline_document_order literal_compile ascii_toLowerCase
           ascii_toUpperCase a_b_a_b_buffer (regex_query "a\nb") a_b_request
           (plain_range 1 1 4 2) false 999 0%nat 1%nat
           (plain_match 1 1 2 2) (plain_match 3 1 4 2) eq_refl eq_refl);
    [lia|reflexivity|reflexivity].
Defined.

(** X19 on the buffer ["bar foo"], ["baz"], with captures: from (2,1) the
    searches forward and backward both find the one match. *)
Lemma next_and_previous_match_exist_when_a_match_exists_witness :
  is_Some (sample_find_next one_match_buffer (literal_query "foo" "") (position 2 1)
             true)
  /\ is_Some (sample_find_previous one_match_buffer (literal_query "foo" "")
                (position 2 1) true).
Proof.
  apply (next_and_previous_match_exist_when_a_match_exists literal_compile
           ascii_toLowerCase ascii_toUpperCase one_match_buffer
           (literal_query "foo" "") foo_request (position 2 1) true 999
           eq_refl eq_refl).
  - left. reflexivity.
  - cbv. split; discriminate.
  - lia.
  - vm_compute. discriminate.
Defined.

(** X21 on the buffer ["foo bar"], ["bar foo"] searched for [foo]: the
    matches of the range (1,1)-(2,8) are those of line 1 and then those of
    (2,1)-(2,8). *)
Lemma findMatches_splits_after_first_line_witness :
  sample_find_matches foo_bar_buffer (literal_query "foo" "") (plain_range 1 1 2 8)
    false 999
  = take (Z.to_nat 999)
      (sample_find_matches foo_bar_buffer (literal_query "foo" "")
         (first_line_of foo_bar_buffer (plain_range 1 1 2 8)) false 999
       ++ sample_find_matches foo_bar_buffer (literal_query "foo" "")
            (plain_range (1 + 1) 1 2 8) false 999).
Proof.
  apply (findMatches_splits_after_first_line literal_compile ascii_toLowerCase
           ascii_toUpperCase foo_bar_buffer (literal_query "foo" "") foo_request
           (plain_range 1 1 2 8) false 999 eq_refl eq_refl);
    [reflexivity|lia].
Defined.

(** X22 on the buffer ["concatenate cat scatter"] searched for the whole
    word [cat]: what is reported has word boundaries at both edges. *)
Lemma whole_word_search_reports_whole_words_witness :
  Forall (fun f => exists piece k L,
              In piece (range_pieces cat_buffer (plain_range 1 1 1 24))
              /\ range f = span_in_piece piece k L
              /\ left_edge_is_boundary (getMapForWordSeparators (codes " "))
                   (snd piece) k L
              /\ right_edge_is_boundary (getMapForWordSeparators (codes " "))
                   (snd piece) k L)
    (sample_find_matches cat_buffer (literal_query "cat" " ") (plain_range 1 1 1 24)
       false 999).
Proof.
  apply (whole_word_search_reports_whole_words literal_compile ascii_toLowerCase
           ascii_toUpperCase cat_buffer (literal_query "cat" " ") cat_request
           (plain_range 1 1 1 24) false 999 eq_refl eq_refl).
  - discriminate.
  - apply literal_matcher_inside.
Defined.
